(** * FAL.ai launcher: batch processor and cost calculator

  A shallow embedding of [core/launcher/batch_processor.py] and of the cost
  calculation, model comparison and budget tracking of
  [core/launcher/cost_calculator.py], with the properties of the design
  document stated over it.

  Conventions of the embedding
  - Python [int] is [Z]; Python [float] is a rational [Q] (exact arithmetic,
    no rounding); [str] is [string], read as a sequence of characters with
    codes below 256.
  - [datetime.now()] is an input of every operation that reads the clock.
  - [print] and the colour codes are not modelled.
  - A Python exception is a value of type [exn]; a call that can raise
    returns a [result]. *)

From Stdlib Require Import String Ascii ZArith QArith Qpower List Bool Lia Arith.
From Stdlib Require Import Decimal DecimalString Sorted Permutation.
Import ListNotations.

Set Warnings "-register-all".

Local Open Scope string_scope.
Local Open Scope Z_scope.

(** ** Python values *)

Module Py.

(** The values that occur in job parameters, results and the JSON ledger. *)
Inductive pyval : Type :=
| VNone
| VBool (b : bool)
| VInt (z : Z)
| VFloat (q : Q)
| VStr (s : string)
| VList (l : list pyval)
| VDict (d : list (string * pyval)).

(** A [dict] with string keys, in insertion order. *)
Definition dict : Type := list (string * pyval).

(** The exceptions that the modelled code raises. *)
Inductive exn : Type :=
| FileNotFoundError (msg : string)
| ValueError (msg : string)
| TypeError.

Definition result (A : Type) : Type := (A + exn)%type.

Definition ret {A} (a : A) : result A := inl a.
Definition raise {A} (e : exn) : result A := inr e.
Definition bind {A B} (m : result A) (k : A -> result B) : result B :=
  match m with
  | inl a => k a
  | inr e => inr e
  end.

(** [d.get(k)] on an association list standing for a dict. *)
Fixpoint get {V} (k : string) (d : list (string * V)) : option V :=
  match d with
  | [] => None
  | (k', v) :: d' => if (k' =? k)%string then Some v else get k d'
  end.

(** [d.get(k, default)] *)
Definition get_default {V} (k : string) (default : V) (d : list (string * V)) : V :=
  match get k d with
  | Some v => v
  | None => default
  end.

(** [k in d] *)
Definition contains {V} (k : string) (d : list (string * V)) : bool :=
  match get k d with
  | Some _ => true
  | None => false
  end.

(** [d[k] = v]: an existing key keeps its position. *)
Fixpoint set {V} (k : string) (v : V) (d : list (string * V)) : list (string * V) :=
  match d with
  | [] => [(k, v)]
  | (k', v') :: d' =>
      if (k' =? k)%string then (k, v) :: d' else (k', v') :: set k v d'
  end.

(** [del d[k]] for a key that may be absent. *)
Fixpoint del {V} (k : string) (d : list (string * V)) : list (string * V) :=
  match d with
  | [] => []
  | (k', v') :: d' =>
      if (k' =? k)%string then d' else (k', v') :: del k d'
  end.

(** The number a value stands for in arithmetic, if any ([bool] is an
    [int] in Python). *)
Definition as_number (v : pyval) : option Q :=
  match v with
  | VInt z => Some (inject_Z z)
  | VFloat q => Some q
  | VBool b => Some (inject_Z (if b then 1 else 0))
  | _ => None
  end.

Definition Qlt_bool (x y : Q) : bool := negb (Qle_bool y x).

(** [a < b] where one side is a number: comparing a number with a value
    that is not one raises [TypeError]. *)
Definition lt (a b : pyval) : result bool :=
  match a, b with
  | VInt x, VInt y => ret (x <? y)
  | _, _ =>
      match as_number a, as_number b with
      | Some x, Some y => ret (Qlt_bool x y)
      | _, _ => raise TypeError
      end
  end.

(** [a > b] *)
Definition gt (a b : pyval) : result bool := lt b a.

(** [min(a, b)]: the built-in keeps [a] unless [b < a]. *)
Definition min (a b : pyval) : result pyval :=
  bind (lt b a) (fun c => ret (if c then b else a)).

(** [x * v] for a float [x]. *)
Definition float_mul (x : Q) (v : pyval) : result Q :=
  match as_number v with
  | Some y => ret (x * y)%Q
  | None => raise TypeError
  end.

(** [str(z)] for an int. *)
Definition str_of_int (z : Z) : string := NilZero.string_of_int (Z.to_int z).

(** [str(v)] as an f-string prints it, for the values formatted here. *)
Definition str_of (v : pyval) : string :=
  match v with
  | VInt z => str_of_int z
  | VStr s => s
  | VNone => "None"
  | VBool true => "True"
  | VBool false => "False"
  | _ => "?"
  end.

(** Python's [str.isspace] on characters with codes below 256. *)
Definition isspace (c : ascii) : bool :=
  let n := nat_of_ascii c in
  ((9 <=? n) && (n <=? 13) || (28 <=? n) && (n <=? 32)
   || (n =? 133) || (n =? 160))%nat.

Fixpoint lstrip (s : string) : string :=
  match s with
  | EmptyString => EmptyString
  | String c s' => if isspace c then lstrip s' else s
  end.

Fixpoint rev_string (s acc : string) : string :=
  match s with
  | EmptyString => acc
  | String c s' => rev_string s' (String c acc)
  end.

(** [s.strip()] *)
Definition strip (s : string) : string :=
  rev_string (lstrip (rev_string (lstrip s) EmptyString)) EmptyString.

(** Truth value of a string: [not s] is [s == ""]. *)
Definition truthy (s : string) : bool :=
  match s with
  | EmptyString => false
  | String _ _ => true
  end.

End Py.

Import Py.

(** The exceptions of the reporting functions ([calculate_batch_cost],
    [estimate_monthly_cost], [show_batch_summary]), which raise some that the
    queue operations do not. *)
Inductive error : Type :=
| ZeroDivisionError
| KeyError (key : string)
| Builtin (e : exn).

Definition answer (A : Type) : Type := (A + error)%type.

(** ** cost_calculator.py *)

Module CostCalculator.

(** One entry of [self.model_pricing]. *)
Record model_info : Type := {
  name : string;
  cost_5s : Q;
  cost_10s : Q;
  cost_per_second : Q;
  max_duration : Z;
  tier : string;
  quality : string;
  efficiency_score : Q
}.

Definition model_pricing : list (string * model_info) :=
  [ ("kling_21_standard",
     {| name := "Kling 2.1 Standard"; cost_5s := 0.25; cost_10s := 0.50;
        cost_per_second := 0.05; max_duration := 10; tier := "Standard";
        quality := "High"; efficiency_score := 9.5 |});
    ("kling_21_pro",
     {| name := "Kling 2.1 Pro"; cost_5s := 0.45; cost_10s := 0.90;
        cost_per_second := 0.09; max_duration := 10; tier := "Professional";
        quality := "Premium"; efficiency_score := 8.8 |});
    ("kling_21_master",
     {| name := "Kling 2.1 Master"; cost_5s := 0.70; cost_10s := 1.40;
        cost_per_second := 0.14; max_duration := 10; tier := "Premium";
        quality := "Ultra"; efficiency_score := 7.5 |});
    ("kling_20_master",
     {| name := "Kling 2.0 Master"; cost_5s := 1.40; cost_10s := 2.80;
        cost_per_second := 0.28; max_duration := 10; tier := "Legacy Premium";
        quality := "Premium"; efficiency_score := 6.0 |});
    ("kling_16_pro",
     {| name := "Kling 1.6 Pro"; cost_5s := 0.475; cost_10s := 0.95;
        cost_per_second := 0.095; max_duration := 10; tier := "Legacy";
        quality := "Good"; efficiency_score := 7.2 |});
    ("luma_dream",
     {| name := "Luma Dream Machine"; cost_5s := 0.50; cost_10s := 0.90;
        cost_per_second := 0.10; max_duration := 9; tier := "Alternative";
        quality := "High"; efficiency_score := 8.0 |});
    ("haiper_20",
     {| name := "Haiper 2.0"; cost_5s := 0.20; cost_10s := 0.40;
        cost_per_second := 0.04; max_duration := 10; tier := "Budget";
        quality := "Good"; efficiency_score := 9.8 |}) ].

(** A piece of an f-string.  Text and [str()] of ints are computed; a float
    printed with [:.3f] is kept as the float and its format. *)
Inductive fpart : Type :=
| FText (s : string)
| FFixed3 (q : Q).

(** The values of the dict that [calculate_cost] returns. *)
Inductive cval : Type :=
| CV (v : pyval)
| CFormat (parts : list fpart)
| CSub (d : list (string * cval)).

Definition cost_info : Type := list (string * cval).

(** [calculate_cost(self, model, duration=5)] *)
Definition calculate_cost (model : string) (duration : pyval) : result cost_info :=
  match get model model_pricing with
  | None =>
      ret [ ("error", CV (VStr ("Unknown model: " ++ model)));
            ("cost", CV (VFloat 0));
            ("model", CV (VStr model));
            ("duration", CV duration) ]
  | Some model_info =>
      let cost_per_second := cost_per_second model_info in
      let max_duration := max_duration model_info in
      bind (min duration (VInt max_duration)) (fun actual_duration =>
      bind (gt duration (VInt max_duration)) (fun exceeds =>
      let duration_warning :=
        if exceeds
        then VStr ("Duration capped at " ++ str_of_int max_duration ++ "s (model limit)")
        else VNone in
      bind (float_mul cost_per_second actual_duration) (fun total_cost =>
      ret [ ("model", CV (VStr model));
            ("model_name", CV (VStr (name model_info)));
            ("duration", CV actual_duration);
            ("cost_per_second", CV (VFloat cost_per_second));
            ("total_cost", CV (VFloat total_cost));
            ("tier", CV (VStr (tier model_info)));
            ("quality", CV (VStr (quality model_info)));
            ("efficiency_score", CV (VFloat (efficiency_score model_info)));
            ("duration_warning", CV duration_warning);
            ("cost_breakdown",
             CSub [ ("base_cost", CV (VFloat total_cost));
                    ("duration_cost",
                     CFormat [FText "$"; FFixed3 cost_per_second; FText " × ";
                              FText (str_of actual_duration); FText "s"]);
                    ("formatted_cost",
                     CFormat [FText "$"; FFixed3 total_cost]) ]) ])))
  end.

(** *** The reporting functions *)

(** [d[k]] where the entry, if present, is a float: [total_cost] is one in
    every dict of [calculate_cost] that has it. *)
Definition item_float (k : string) (d : cost_info) : answer Q :=
  match get k d with
  | Some (CV (VFloat q)) => inl q
  | Some _ => inr (Builtin TypeError)
  | None => inr (KeyError k)
  end.

(** [{**d, k1: v1, ...}]: a key of [d] keeps its position and takes the new
    value, a new key goes to the end. *)
Definition merge (d : cost_info) (entries : list (string * cval)) : cost_info :=
  fold_left (fun acc kv => set (fst kv) (snd kv) acc) entries d.

(** The discount of [calculate_batch_cost]. *)
Definition discount_rate (file_count : Z) : Q :=
  if 10 <=? file_count then 0.05
  else if 5 <=? file_count then 0.02
  else 0.

(** [calculate_batch_cost(self, model, file_count, duration=5)], for an int
    [file_count]. *)
Definition calculate_batch_cost (model : string) (file_count : Z) (duration : pyval)
  : answer cost_info :=
  match calculate_cost model duration with
  | inr e => inr (Builtin e)
  | inl single_cost =>
      if contains "error" single_cost then inl single_cost
      else
        match item_float "total_cost" single_cost with
        | inr e => inr e
        | inl single =>
            let total_cost := (single * inject_Z file_count)%Q in
            let discount_rate := discount_rate file_count in
            let discount_amount := (total_cost * discount_rate)%Q in
            let final_cost := (total_cost - discount_amount)%Q in
            if file_count =? 0 then inr ZeroDivisionError
            else
              inl (merge single_cost
                     [ ("file_count", CV (VInt file_count));
                       ("single_file_cost", CV (VFloat single));
                       ("subtotal", CV (VFloat total_cost));
                       ("discount_rate", CV (VFloat discount_rate));
                       ("discount_amount", CV (VFloat discount_amount));
                       ("total_batch_cost", CV (VFloat final_cost));
                       ("average_per_file",
                        CV (VFloat (final_cost / inject_Z file_count)));
                       ("savings", CV (VFloat discount_amount));
                       ("cost_breakdown",
                        CSub [ ("per_file", CFormat [FText "$"; FFixed3 single]);
                               ("subtotal", CFormat [FText "$"; FFixed3 total_cost]);
                               ("discount",
                                if Qlt_bool 0 discount_amount
                                then CFormat [FText "-$"; FFixed3 discount_amount]
                                else CV VNone);
                               ("total", CFormat [FText "$"; FFixed3 final_cost]) ]) ])
        end
  end.

(** An amount printed with [:.3f] or [:.2f] after a dollar sign, kept as the
    float. *)
Inductive amount : Type :=
| Dollars3 (q : Q)
| Dollars2 (q : Q).

(** The values of the dict that [estimate_monthly_cost] returns. *)
Inductive estimate_val : Type :=
| EV (v : pyval)
| EBreakdown (d : list (string * amount)).

(** [estimate_monthly_cost(self, generations_per_day, model, duration=5)],
    for an int [generations_per_day]. *)
Definition estimate_monthly_cost (generations_per_day : Z) (model : string)
  (duration : pyval) : answer (list (string * estimate_val)) :=
  match calculate_cost model duration with
  | inr e => inr (Builtin e)
  | inl info =>
      match item_float "total_cost" info with
      | inr e => inr e
      | inl per_generation =>
          let daily_cost := (per_generation * inject_Z generations_per_day)%Q in
          let weekly_cost := (daily_cost * 7)%Q in
          let monthly_cost := (daily_cost * 30)%Q in
          inl [ ("model", EV (VStr model));
                ("generations_per_day", EV (VInt generations_per_day));
                ("duration", EV duration);
                ("daily_cost", EV (VFloat daily_cost));
                ("weekly_cost", EV (VFloat weekly_cost));
                ("monthly_cost", EV (VFloat monthly_cost));
                ("cost_breakdown",
                 EBreakdown [ ("per_generation", Dollars3 per_generation);
                              ("daily", Dollars2 daily_cost);
                              ("weekly", Dollars2 weekly_cost);
                              ("monthly", Dollars2 monthly_cost) ]) ]
      end
  end.

(** The sort key [x["total_cost"]] of an entry that has it. *)
Definition total_cost_of (c : cost_info) : Q :=
  match get "total_cost" c with
  | Some (CV (VFloat q)) => q
  | _ => 0
  end.

(** [list.sort(key=...)] and [sorted(..., key=...)] on float keys: ascending,
    and elements with equal keys keep their order. *)
Fixpoint insert_by {A} (key : A -> Q) (x : A) (l : list A) : list A :=
  match l with
  | [] => [x]
  | y :: l' => if Qlt_bool (key x) (key y) then x :: l else y :: insert_by key x l'
  end.

Definition sort_by {A} (key : A -> Q) (l : list A) : list A :=
  fold_left (fun acc x => insert_by key x acc) l [].

(** The loop over [self.model_pricing.keys()] in [compare_models]. *)
Fixpoint comparisons_of (keys : list string) (duration : pyval)
  : result (list cost_info) :=
  match keys with
  | [] => ret []
  | model_key :: keys' =>
      bind (calculate_cost model_key duration) (fun cost_info =>
      bind (comparisons_of keys' duration) (fun rest =>
      ret (if contains "error" cost_info then rest else cost_info :: rest)))
  end.

(** [quality_scores.get(comparison["quality"], 7)] *)
Definition quality_score (c : cost_info) : Z :=
  match get "quality" c with
  | Some (CV (VStr q)) =>
      if (q =? "Good")%string then 7
      else if (q =? "High")%string then 8
      else if (q =? "Premium")%string then 9
      else if (q =? "Ultra")%string then 10
      else 7
  | _ => 7
  end.

(** The loop [for i, comparison in enumerate(comparisons)]. *)
Fixpoint add_rankings (i : Z) (l : list cost_info) : list cost_info :=
  match l with
  | [] => []
  | comparison :: l' =>
      let comparison := set "cost_rank" (CV (VInt (i + 1))) comparison in
      let comparison :=
        set "value_score"
          (match get "efficiency_score" comparison with
           | Some v => v
           | None => CV VNone   (* every entry has the key *)
           end) comparison in
      let comparison :=
        set "cost_per_quality"
          (CV (VFloat (total_cost_of comparison / inject_Z (quality_score comparison))))
          comparison in
      comparison :: add_rankings (i + 1) l'
  end.

(** [compare_models(self, duration=5)] *)
Definition compare_models (duration : pyval) : result (list cost_info) :=
  bind (comparisons_of (map fst model_pricing) duration) (fun comparisons =>
  ret (add_rankings 0 (sort_by total_cost_of comparisons))).

(** [sorted(..., key=..., reverse=True)]: descending for the order [lt] of
    the keys, and elements with equal keys keep their order. *)
Fixpoint insert_desc {A K} (lt : K -> K -> bool) (key : A -> K) (x : A) (l : list A)
  : list A :=
  match l with
  | [] => [x]
  | y :: l' =>
      if lt (key y) (key x) then x :: l else y :: insert_desc lt key x l'
  end.

Definition sort_desc {A K} (lt : K -> K -> bool) (key : A -> K) (l : list A) : list A :=
  fold_left (fun acc x => insert_desc lt key x acc) l [].

(** [quality_order.get(x["quality"], 0)] *)
Definition quality_order (c : cost_info) : Z :=
  match get "quality" c with
  | Some (CV (VStr q)) =>
      if (q =? "Ultra")%string then 4
      else if (q =? "Premium")%string then 3
      else if (q =? "High")%string then 2
      else if (q =? "Good")%string then 1
      else 0
  | _ => 0
  end.

(** The sort key [x["efficiency_score"]]. *)
Definition efficiency_of (c : cost_info) : Q :=
  match get "efficiency_score" c with
  | Some (CV (VFloat q)) => q
  | _ => 0
  end.

(** Tuple comparison [a < b] for the keys of the [premium] order. *)
Definition pair_lt (a b : Z * Q) : bool :=
  (fst a <? fst b) || ((fst a =? fst b) && Qlt_bool (snd a) (snd b)).

(** The dict that [get_model_recommendations] returns. *)
Record recommendation : Type := {
  recommendations : list cost_info;
  reason : string;
  total_options : nat;
  budget_limit : option Q;
  quality_preference : string
}.

(** [get_model_recommendations(self, duration=5, budget_limit=None,
    quality_preference="balanced")].  [if budget_limit:] is false for [None]
    and for [0.0]. *)
Definition get_model_recommendations (duration : pyval) (budget_limit_ : option Q)
  (quality_preference_ : string) : result recommendation :=
  bind (compare_models duration) (fun comparisons =>
  let comparisons :=
    match budget_limit_ with
    | Some b =>
        if Qeq_bool b 0 then comparisons
        else filter (fun c => Qle_bool (total_cost_of c) b) comparisons
    | None => comparisons
    end in
  let '(recommendations_, reason_) :=
    if (quality_preference_ =? "budget")%string then
      (firstn 3 (sort_by total_cost_of comparisons), "Lowest cost options")
    else if (quality_preference_ =? "premium")%string then
      (firstn 3 (sort_desc pair_lt
                   (fun x => (quality_order x, (- total_cost_of x)%Q)) comparisons),
       "Highest quality options")
    else
      (firstn 3 (sort_desc Qlt_bool efficiency_of comparisons),
       "Best value for money") in
  ret {| recommendations := recommendations_; reason := reason_;
         total_options := List.length comparisons;
         budget_limit := budget_limit_;
         quality_preference := quality_preference_ |}).

End CostCalculator.

(** ** batch_processor.py: [BatchJob] *)

Module BatchJob.

(** The dataclass.  [output_paths] is annotated [Dict[str, str]]; it is kept
    as a dict of values like the other dicts. *)
Record t : Type := {
  id : string;
  image_path : string;
  prompt : string;
  model : string;
  parameters : dict;
  priority : Z;
  status : string;
  created_at : string;
  started_at : option string;
  completed_at : option string;
  result : option dict;
  error_message : option string;
  retry_count : Z;
  max_retries : Z;
  estimated_cost : Q;
  output_paths : option dict
}.

(** Field assignments [self.f = v]. *)
Definition set_status (v : string) (j : t) : t :=
  {| id := id j; image_path := image_path j; prompt := prompt j; model := model j;
     parameters := parameters j; priority := priority j; status := v;
     created_at := created_at j; started_at := started_at j;
     completed_at := completed_at j; result := result j;
     error_message := error_message j; retry_count := retry_count j;
     max_retries := max_retries j; estimated_cost := estimated_cost j;
     output_paths := output_paths j |}.

Definition set_created_at (v : string) (j : t) : t :=
  {| id := id j; image_path := image_path j; prompt := prompt j; model := model j;
     parameters := parameters j; priority := priority j; status := status j;
     created_at := v; started_at := started_at j;
     completed_at := completed_at j; result := result j;
     error_message := error_message j; retry_count := retry_count j;
     max_retries := max_retries j; estimated_cost := estimated_cost j;
     output_paths := output_paths j |}.

Definition set_started_at (v : option string) (j : t) : t :=
  {| id := id j; image_path := image_path j; prompt := prompt j; model := model j;
     parameters := parameters j; priority := priority j; status := status j;
     created_at := created_at j; started_at := v;
     completed_at := completed_at j; result := result j;
     error_message := error_message j; retry_count := retry_count j;
     max_retries := max_retries j; estimated_cost := estimated_cost j;
     output_paths := output_paths j |}.

Definition set_completed_at (v : option string) (j : t) : t :=
  {| id := id j; image_path := image_path j; prompt := prompt j; model := model j;
     parameters := parameters j; priority := priority j; status := status j;
     created_at := created_at j; started_at := started_at j;
     completed_at := v; result := result j;
     error_message := error_message j; retry_count := retry_count j;
     max_retries := max_retries j; estimated_cost := estimated_cost j;
     output_paths := output_paths j |}.

Definition set_result (v : option dict) (j : t) : t :=
  {| id := id j; image_path := image_path j; prompt := prompt j; model := model j;
     parameters := parameters j; priority := priority j; status := status j;
     created_at := created_at j; started_at := started_at j;
     completed_at := completed_at j; result := v;
     error_message := error_message j; retry_count := retry_count j;
     max_retries := max_retries j; estimated_cost := estimated_cost j;
     output_paths := output_paths j |}.

Definition set_error_message (v : option string) (j : t) : t :=
  {| id := id j; image_path := image_path j; prompt := prompt j; model := model j;
     parameters := parameters j; priority := priority j; status := status j;
     created_at := created_at j; started_at := started_at j;
     completed_at := completed_at j; result := result j;
     error_message := v; retry_count := retry_count j;
     max_retries := max_retries j; estimated_cost := estimated_cost j;
     output_paths := output_paths j |}.

Definition set_retry_count (v : Z) (j : t) : t :=
  {| id := id j; image_path := image_path j; prompt := prompt j; model := model j;
     parameters := parameters j; priority := priority j; status := status j;
     created_at := created_at j; started_at := started_at j;
     completed_at := completed_at j; result := result j;
     error_message := error_message j; retry_count := v;
     max_retries := max_retries j; estimated_cost := estimated_cost j;
     output_paths := output_paths j |}.

Definition set_output_paths (v : option dict) (j : t) : t :=
  {| id := id j; image_path := image_path j; prompt := prompt j; model := model j;
     parameters := parameters j; priority := priority j; status := status j;
     created_at := created_at j; started_at := started_at j;
     completed_at := completed_at j; result := result j;
     error_message := error_message j; retry_count := retry_count j;
     max_retries := max_retries j; estimated_cost := estimated_cost j;
     output_paths := v |}.

(** [__post_init__]: an empty [created_at] becomes the current time. *)
Definition __post_init__ (now : string) (j : t) : t :=
  if negb (truthy (created_at j)) then set_created_at now j else j.

(** [start(self)] *)
Definition start (now : string) (j : t) : t :=
  set_started_at (Some now) (set_status "processing" j).

(** [complete(self, result, output_paths=None)]: [output_paths] is stored
    only when it is given and not empty. *)
Definition complete (now : string) (res : dict) (paths : option dict) (j : t) : t :=
  let j := set_status "completed" j in
  let j := set_completed_at (Some now) j in
  let j := set_result (Some res) j in
  match paths with
  | Some (_ :: _) => set_output_paths paths j
  | _ => j
  end.

(** [fail(self, error_message)] *)
Definition fail (now : string) (msg : string) (j : t) : t :=
  set_error_message (Some msg) (set_completed_at (Some now) (set_status "failed" j)).

(** [cancel(self)] *)
Definition cancel (now : string) (j : t) : t :=
  set_completed_at (Some now) (set_status "cancelled" j).

(** [can_retry(self)] *)
Definition can_retry (j : t) : bool :=
  (status j =? "failed")%string && (retry_count j <? max_retries j).

(** [retry(self)] *)
Definition retry (j : t) : t :=
  if can_retry j then
    let j := set_retry_count (retry_count j + 1) j in
    let j := set_status "pending" j in
    let j := set_started_at None j in
    let j := set_completed_at None j in
    set_error_message None j
  else j.

(** A terminal state of the design: [completed], [cancelled], or [failed]
    with the retries used up. *)
Definition terminal (j : t) : bool :=
  (status j =? "completed")%string || (status j =? "cancelled")%string
  || ((status j =? "failed")%string && (retry_count j =? max_retries j)).

End BatchJob.

(** ** The JSON ledger file

    [json.dump] and [json.load] are modelled on the lexical tokens of the
    JSON text: a file is the list of tokens written to it so far. *)

Module Json.

Inductive token : Type :=
| TNull
| TTrue
| TFalse
| TInt (z : Z)
| TFloat (q : Q)
| TString (s : string)
| TLBrace
| TRBrace
| TLBracket
| TRBracket
| TComma
| TColon.

(** The elements of a list or the members of an object, comma separated. *)
Fixpoint join_items {A} (f : A -> list token) (l : list A) : list token :=
  match l with
  | [] => []
  | x :: l' =>
      match l' with
      | [] => f x
      | _ :: _ => f x ++ TComma :: join_items f l'
      end
  end.

(** The chunks that [json.dump] writes for a value. *)
Fixpoint dumps (v : pyval) : list token :=
  match v with
  | VNone => [TNull]
  | VBool true => [TTrue]
  | VBool false => [TFalse]
  | VInt z => [TInt z]
  | VFloat q => [TFloat q]
  | VStr s => [TString s]
  | VList l => TLBracket :: join_items dumps l ++ [TRBracket]
  | VDict d =>
      TLBrace
        :: join_items (fun kv => TString (fst kv) :: TColon :: dumps (snd kv)) d
        ++ [TRBrace]
  end.

(** [dict(pairs)]: a repeated key keeps its first position and its last
    value. *)
Definition of_pairs (pairs : list (string * pyval)) : dict :=
  fold_left (fun acc kv => set (fst kv) (snd kv) acc) pairs [].

(** A recursive descent parser; [fuel] bounds the nesting of calls. *)
Fixpoint parse_value (fuel : nat) (ts : list token) : option (pyval * list token) :=
  match fuel with
  | O => None
  | S fuel =>
      match ts with
      | TNull :: r => Some (VNone, r)
      | TTrue :: r => Some (VBool true, r)
      | TFalse :: r => Some (VBool false, r)
      | TInt z :: r => Some (VInt z, r)
      | TFloat q :: r => Some (VFloat q, r)
      | TString s :: r => Some (VStr s, r)
      | TLBracket :: TRBracket :: r => Some (VList [], r)
      | TLBracket :: r =>
          match parse_items fuel r with
          | Some (vs, r') => Some (VList vs, r')
          | None => None
          end
      | TLBrace :: TRBrace :: r => Some (VDict [], r)
      | TLBrace :: r =>
          match parse_members fuel r with
          | Some (d, r') => Some (VDict (of_pairs d), r')
          | None => None
          end
      | _ => None
      end
  end
with parse_items (fuel : nat) (ts : list token) : option (list pyval * list token) :=
  match fuel with
  | O => None
  | S fuel =>
      match parse_value fuel ts with
      | Some (v, TComma :: r) =>
          match parse_items fuel r with
          | Some (vs, r') => Some (v :: vs, r')
          | None => None
          end
      | Some (v, TRBracket :: r) => Some ([v], r)
      | _ => None
      end
  end
with parse_members (fuel : nat) (ts : list token)
  : option (list (string * pyval) * list token) :=
  match fuel with
  | O => None
  | S fuel =>
      match ts with
      | TString k :: TColon :: r =>
          match parse_value fuel r with
          | Some (v, TComma :: r') =>
              match parse_members fuel r' with
              | Some (d, r'') => Some ((k, v) :: d, r'')
              | None => None
              end
          | Some (v, TRBrace :: r') => Some ([(k, v)], r')
          | _ => None
          end
      | _ => None
      end
  end.

(** [json.load]: the whole text must be one value; [None] stands for
    [JSONDecodeError]. *)
Definition loads (ts : list token) : option pyval :=
  match parse_value (S (List.length ts)) ts with
  | Some (v, []) => Some v
  | _ => None
  end.

(** Keys of a Python dict are pairwise distinct. *)
Fixpoint nodup_keys {V} (d : list (string * V)) : bool :=
  match d with
  | [] => true
  | (k, _) :: d' => negb (contains k d') && nodup_keys d'
  end.

(** The values that stand for Python objects: every dict in them has
    distinct keys. *)
Fixpoint wf (v : pyval) : bool :=
  match v with
  | VList l => forallb wf l
  | VDict d => nodup_keys d && forallb (fun kv => wf (snd kv)) d
  | _ => true
  end.

End Json.

(** ** The file system

    A path that exists maps to the tokens of its content.  Directories and
    [mkdir] are not modelled. *)

Module FS.

Definition file : Type := list Json.token.
Definition fs : Type := list (string * file).

(** [Path(p).exists()] *)
Definition path_exists (p : string) (w : fs) : bool := contains p w.

(** The calls on files: [open(p, 'w')], [f.write(chunk)], leaving the [with]
    block, and [os.replace(src, dst)]. *)
Inductive op : Type :=
| Open_w (p : string)
| Write (p : string) (chunk : Json.token)
| Close (p : string)
| Replace (src dst : string).

Definition path_of (o : op) : string :=
  match o with
  | Open_w p | Write p _ | Close p => p
  | Replace _ dst => dst
  end.

Definition is_replace (o : op) : bool :=
  match o with
  | Replace _ _ => true
  | _ => false
  end.

(** The effect of one call: opening for writing creates or truncates the
    file, a write appends to it. *)
Definition run_op (w : fs) (o : op) : fs :=
  match o with
  | Open_w p => set p [] w
  | Write p chunk => set p (get_default p [] w ++ [chunk])%list w
  | Close _ => w
  | Replace src dst =>
      match get src w with
      | Some content => del src (set dst content w)
      | None => w
      end
  end.

Definition run_ops (w : fs) (ops : list op) : fs := fold_left run_op ops w.

End FS.

Import FS.

(** ** batch_processor.py: [BatchProcessor] *)

Module Stats.

(** [self.stats]: a dict with these seven keys, the counters ints and the
    other three floats. *)
Record t : Type := {
  total_jobs : Z;
  completed_jobs : Z;
  failed_jobs : Z;
  cancelled_jobs : Z;
  total_cost : Q;
  total_processing_time : Q;
  average_job_time : Q
}.

Definition zero : t :=
  {| total_jobs := 0; completed_jobs := 0; failed_jobs := 0; cancelled_jobs := 0;
     total_cost := 0; total_processing_time := 0; average_job_time := 0 |}.

Definition to_dict (s : t) : dict :=
  [ ("total_jobs", VInt (total_jobs s));
    ("completed_jobs", VInt (completed_jobs s));
    ("failed_jobs", VInt (failed_jobs s));
    ("cancelled_jobs", VInt (cancelled_jobs s));
    ("total_cost", VFloat (total_cost s));
    ("total_processing_time", VFloat (total_processing_time s));
    ("average_job_time", VFloat (average_job_time s)) ].

End Stats.

Module BatchProcessor.

Import BatchJob.

(** *** Reading a dataclass from a dict *)

Definition obind {A B} (m : option A) (k : A -> option B) : option B :=
  match m with
  | Some a => k a
  | None => None
  end.

Notation "x <- m ;; k" := (obind m (fun x => k))
  (at level 61, m at next level, right associativity).

Definition dec_str (v : pyval) : option string :=
  match v with VStr s => Some s | _ => None end.

Definition dec_int (v : pyval) : option Z :=
  match v with VInt z => Some z | _ => None end.

Definition dec_float (v : pyval) : option Q :=
  match v with VFloat q => Some q | VInt z => Some (inject_Z z) | _ => None end.

Definition dec_dict (v : pyval) : option dict :=
  match v with VDict d => Some d | _ => None end.

Definition dec_opt {A} (dec : pyval -> option A) (v : pyval) : option (option A) :=
  match v with
  | VNone => Some None
  | _ => option_map Some (dec v)
  end.

(** A keyword argument without default. *)
Definition required {A} (dec : pyval -> option A) (k : string) (d : dict) : option A :=
  v <- get k d ;; dec v.

(** A keyword argument with a default. *)
Definition optional {A} (dec : pyval -> option A) (k : string) (default : A) (d : dict)
  : option A :=
  match get k d with
  | Some v => dec v
  | None => Some default
  end.

Definition field_names : list string :=
  [ "id"; "image_path"; "prompt"; "model"; "parameters"; "priority"; "status";
    "created_at"; "started_at"; "completed_at"; "result"; "error_message";
    "retry_count"; "max_retries"; "estimated_cost"; "output_paths" ].

(** [BatchJob] called with the keywords of [job_data].  [None] stands for the [TypeError] of a missing
    or unexpected keyword.  The fields are typed as annotated: a value of
    another type, which Python would store as it is, is outside the model
    and is rejected here too. *)
Definition BatchJob_of_dict (now : string) (d : dict) : option BatchJob.t :=
  if forallb (fun kv => existsb (String.eqb (fst kv)) field_names) d then
    id_ <- required dec_str "id" d ;;
    image_path_ <- required dec_str "image_path" d ;;
    prompt_ <- required dec_str "prompt" d ;;
    model_ <- required dec_str "model" d ;;
    parameters_ <- required dec_dict "parameters" d ;;
    priority_ <- optional dec_int "priority" 1 d ;;
    status_ <- optional dec_str "status" "pending" d ;;
    created_at_ <- optional dec_str "created_at" "" d ;;
    started_at_ <- optional (dec_opt dec_str) "started_at" None d ;;
    completed_at_ <- optional (dec_opt dec_str) "completed_at" None d ;;
    result_ <- optional (dec_opt dec_dict) "result" None d ;;
    error_message_ <- optional (dec_opt dec_str) "error_message" None d ;;
    retry_count_ <- optional dec_int "retry_count" 0 d ;;
    max_retries_ <- optional dec_int "max_retries" 2 d ;;
    estimated_cost_ <- optional dec_float "estimated_cost" 0%Q d ;;
    output_paths_ <- optional (dec_opt dec_dict) "output_paths" None d ;;
    Some (__post_init__ now
            {| id := id_; image_path := image_path_; prompt := prompt_;
               model := model_; parameters := parameters_; priority := priority_;
               status := status_; created_at := created_at_;
               started_at := started_at_; completed_at := completed_at_;
               result := result_; error_message := error_message_;
               retry_count := retry_count_; max_retries := max_retries_;
               estimated_cost := estimated_cost_; output_paths := output_paths_ |})
  else None.

Definition enc_opt {A} (enc : A -> pyval) (o : option A) : pyval :=
  match o with
  | Some a => enc a
  | None => VNone
  end.

(** [dataclasses.asdict(job)] *)
Definition asdict (j : BatchJob.t) : dict :=
  [ ("id", VStr (id j));
    ("image_path", VStr (image_path j));
    ("prompt", VStr (prompt j));
    ("model", VStr (model j));
    ("parameters", VDict (parameters j));
    ("priority", VInt (priority j));
    ("status", VStr (status j));
    ("created_at", VStr (created_at j));
    ("started_at", enc_opt VStr (started_at j));
    ("completed_at", enc_opt VStr (completed_at j));
    ("result", enc_opt VDict (result j));
    ("error_message", enc_opt VStr (error_message j));
    ("retry_count", VInt (retry_count j));
    ("max_retries", VInt (max_retries j));
    ("estimated_cost", VFloat (estimated_cost j));
    ("output_paths", enc_opt VDict (output_paths j)) ].

(** *** The processor

    Job objects are shared between the three lists and the running tasks,
    so they live in [heap] and the lists hold references (positions in
    [heap]).  [active_jobs] maps a job id to the position of its task in the
    task table of the current run. *)
Record t : Type := {
  max_concurrent : Z;
  save_progress : bool;
  heap : list BatchJob.t;
  jobs : list nat;
  completed_jobs : list nat;
  failed_jobs : list nat;
  active_jobs : list (string * nat);
  stats : Stats.t
}.

Definition with_heap (v : list BatchJob.t) (p : t) : t :=
  {| max_concurrent := max_concurrent p; save_progress := save_progress p;
     heap := v; jobs := jobs p; completed_jobs := completed_jobs p;
     failed_jobs := failed_jobs p; active_jobs := active_jobs p; stats := stats p |}.

Definition with_jobs (v : list nat) (p : t) : t :=
  {| max_concurrent := max_concurrent p; save_progress := save_progress p;
     heap := heap p; jobs := v; completed_jobs := completed_jobs p;
     failed_jobs := failed_jobs p; active_jobs := active_jobs p; stats := stats p |}.

Definition with_completed_jobs (v : list nat) (p : t) : t :=
  {| max_concurrent := max_concurrent p; save_progress := save_progress p;
     heap := heap p; jobs := jobs p; completed_jobs := v;
     failed_jobs := failed_jobs p; active_jobs := active_jobs p; stats := stats p |}.

Definition with_failed_jobs (v : list nat) (p : t) : t :=
  {| max_concurrent := max_concurrent p; save_progress := save_progress p;
     heap := heap p; jobs := jobs p; completed_jobs := completed_jobs p;
     failed_jobs := v; active_jobs := active_jobs p; stats := stats p |}.

Definition with_active_jobs (v : list (string * nat)) (p : t) : t :=
  {| max_concurrent := max_concurrent p; save_progress := save_progress p;
     heap := heap p; jobs := jobs p; completed_jobs := completed_jobs p;
     failed_jobs := failed_jobs p; active_jobs := v; stats := stats p |}.

Definition with_stats (v : Stats.t) (p : t) : t :=
  {| max_concurrent := max_concurrent p; save_progress := save_progress p;
     heap := heap p; jobs := jobs p; completed_jobs := completed_jobs p;
     failed_jobs := failed_jobs p; active_jobs := active_jobs p; stats := v |}.

(** The object behind a reference. *)
Definition deref (p : t) (r : nat) : option BatchJob.t := nth_error (heap p) r.

(** The objects behind a list of references, in order. *)
Definition objects (h : list BatchJob.t) (refs : list nat) : list BatchJob.t :=
  flat_map (fun r => match nth_error h r with Some j => [j] | None => [] end) refs.

(** In-place mutation of the object at [r]. *)
Fixpoint update {A} (r : nat) (f : A -> A) (h : list A) : list A :=
  match h, r with
  | [], _ => []
  | x :: h', O => f x :: h'
  | x :: h', S r' => x :: update r' f h'
  end.

Definition mutate (r : nat) (f : BatchJob.t -> BatchJob.t) (p : t) : t :=
  with_heap (update r f (heap p)) p.

(** [self.batch_file] *)
Definition batch_file : string := "data/batch_processing.json".

(** The state that [__init__] sets up before it loads the ledger. *)
Definition fresh (max_concurrent_ : Z) (save_progress_ : bool) : t :=
  {| max_concurrent := max_concurrent_; save_progress := save_progress_;
     heap := []; jobs := []; completed_jobs := []; failed_jobs := [];
     active_jobs := []; stats := Stats.zero |}.

(** *** [_load_batch_data] *)

(** What [for job_data in data.get("jobs", [])] iterates over; [None] when
    the loop raises before its first pass is complete (the value is not
    iterable, or its first element is not a mapping). *)
Definition iter_jobs (v : option pyval) : option (list pyval) :=
  match v with
  | None => Some []
  | Some (VList l) => Some l
  | Some (VDict []) => Some []
  | Some (VStr EmptyString) => Some []
  | Some _ => None
  end.

(** One pass of the loop: build the job, then file it by status. *)
Definition load_one (now : string) (job_data : pyval) (p : t) : option t :=
  match job_data with
  | VDict d =>
      job <- BatchJob_of_dict now d ;;
      let r := List.length (heap p) in
      if (status job =? "completed")%string then
        Some (with_completed_jobs (completed_jobs p ++ [r]) (with_heap (heap p ++ [job]) p))
      else if ((status job =? "failed") || (status job =? "cancelled"))%string then
        Some (with_failed_jobs (failed_jobs p ++ [r]) (with_heap (heap p ++ [job]) p))
      else
        let job :=
          if (status job =? "processing")%string
          then set_started_at None (set_status "pending" job)
          else job in
        Some (with_jobs (jobs p ++ [r]) (with_heap (heap p ++ [job]) p))
  | _ => None
  end.

(** The loop; [false] when a pass raised, which ends the loop and keeps the
    jobs loaded so far.  [now n] is the clock read while entry [n] is
    built. *)
Fixpoint load_loop (now : nat -> string) (entries : list pyval) (p : t) : t * bool :=
  match entries with
  | [] => (p, true)
  | job_data :: entries' =>
      match load_one (now (List.length (heap p))) job_data p with
      | Some p' => load_loop now entries' p'
      | None => (p, false)
      end
  end.

(** [self.stats.update(d)] for the seven keys. *)
Definition update_stats (d : dict) (s : Stats.t) : option Stats.t :=
  a <- optional dec_int "total_jobs" (Stats.total_jobs s) d ;;
  b <- optional dec_int "completed_jobs" (Stats.completed_jobs s) d ;;
  c <- optional dec_int "failed_jobs" (Stats.failed_jobs s) d ;;
  e <- optional dec_int "cancelled_jobs" (Stats.cancelled_jobs s) d ;;
  f <- optional dec_float "total_cost" (Stats.total_cost s) d ;;
  g <- optional dec_float "total_processing_time" (Stats.total_processing_time s) d ;;
  h <- optional dec_float "average_job_time" (Stats.average_job_time s) d ;;
  Some {| Stats.total_jobs := a; Stats.completed_jobs := b; Stats.failed_jobs := c;
          Stats.cancelled_jobs := e; Stats.total_cost := f;
          Stats.total_processing_time := g; Stats.average_job_time := h |}.

(** [_load_batch_data(self)]: every exception is caught and only printed. *)
Definition _load_batch_data (now : nat -> string) (w : fs) (p : t) : t :=
  match get batch_file w with
  | None => p
  | Some content =>
      match Json.loads content with
      | Some (VDict data) =>
          match iter_jobs (get "jobs" data) with
          | Some entries =>
              let (p', ok) := load_loop now entries p in
              if ok then
                match get "stats" data with
                | Some (VDict d) =>
                    match update_stats d (stats p') with
                    | Some s => with_stats s p'
                    | None => p'
                    end
                | _ => p'
                end
              else p'
          | None => p
          end
      | _ => p
      end
  end.

(** [__init__(self, max_concurrent=3, save_progress=True)] *)
Definition __init__ (now : nat -> string) (w : fs)
  (max_concurrent_ : Z) (save_progress_ : bool) : t :=
  _load_batch_data now w (fresh max_concurrent_ save_progress_).

(** *** [_save_batch_data] *)

(** The dict that is dumped. *)
Definition ledger_data (now : string) (p : t) : pyval :=
  VDict
    [ ("jobs",
       VList (map (fun j => VDict (asdict j))
                (objects (heap p) (jobs p ++ completed_jobs p ++ failed_jobs p))));
      ("stats", VDict (Stats.to_dict (stats p)));
      ("last_updated", VStr now) ].

(** [_save_batch_data(self)] as the calls it makes on the file system: the
    ledger file is opened for writing and the chunks of [json.dump] are
    written to it. *)
Definition _save_batch_data (now : string) (p : t) : list op :=
  if negb (save_progress p) then []
  else
    (Open_w batch_file
       :: map (Write batch_file) (Json.dumps (ledger_data now p)))
    ++ [Close batch_file].

Definition save (now : string) (p : t) (w : fs) : fs :=
  run_ops w (_save_batch_data now p).

(** *** [add_job] *)

(** [f"{n:03d}"] *)
Definition fmt_03d (n : nat) : string :=
  let s := str_of_int (Z.of_nat n) in
  if (n <? 10)%nat then "00" ++ s
  else if (n <? 100)%nat then "0" ++ s
  else s.

(** The tuple [(x.priority, x.created_at)] of the job behind a reference. *)
Definition sort_key (h : list BatchJob.t) (r : nat) : Z * string :=
  match nth_error h r with
  | Some j => (priority j, created_at j)
  | None => (0, "")
  end.

(** Tuple comparison [a < b]. *)
Definition key_lt (a b : Z * string) : bool :=
  (fst a <? fst b) || ((fst a =? fst b) && String.ltb (snd a) (snd b)).

(** [list.sort(key=..., reverse=True)]: descending, and elements with equal
    keys keep their order. *)
Fixpoint insert_reverse {A} (key : A -> Z * string) (x : A) (l : list A) : list A :=
  match l with
  | [] => [x]
  | y :: l' =>
      if key_lt (key y) (key x) then x :: l else y :: insert_reverse key x l'
  end.

Definition sort_reverse {A} (key : A -> Z * string) (l : list A) : list A :=
  fold_left (fun acc x => insert_reverse key x acc) l [].

(** The three readings of the clock in [add_job]: for the id, for
    [created_at], and for [last_updated] when saving. *)
Record add_clock : Type := {
  stamp : string;
  created : string;
  saved : string
}.

(** [add_job(self, image_path, prompt, model, parameters=None, priority=1)] *)
Definition add_job (clock : add_clock) (w : fs) (p : t)
  (image_path_ prompt_ model_ : string) (parameters_ : option dict) (priority_ : Z)
  : Py.result (string * t * fs) :=
  if negb (path_exists image_path_ w) then
    raise (FileNotFoundError ("Image file not found: " ++ image_path_))
  else if negb (truthy (strip prompt_)) then
    raise (ValueError "Prompt cannot be empty")
  else
    let job_id :=
      "job_" ++ stamp clock ++ "_" ++ fmt_03d (List.length (jobs p)) in
    let parameters_ :=
      match parameters_ with
      | Some ((_ :: _) as d) => d
      | _ => []
      end in
    let duration := get_default "duration" (VInt 5) parameters_ in
    bind (CostCalculator.calculate_cost model_ duration) (fun cost_info =>
    let estimated_cost_ :=
      match get "total_cost" cost_info with
      | Some (CostCalculator.CV (VFloat q)) => q
      | _ => 0%Q
      end in
    let job :=
      __post_init__ (created clock)
        {| id := job_id; image_path := image_path_; prompt := prompt_;
           model := model_; parameters := parameters_; priority := priority_;
           status := "pending"; created_at := ""; started_at := None;
           completed_at := None; result := None; error_message := None;
           retry_count := 0; max_retries := 2; estimated_cost := estimated_cost_;
           output_paths := None |} in
    let r := List.length (heap p) in
    let p := with_heap (heap p ++ [job]) p in
    let p := with_jobs (jobs p ++ [r]) p in
    let p := with_jobs (sort_reverse (sort_key (heap p)) (jobs p)) p in
    let p :=
      with_stats
        {| Stats.total_jobs := Stats.total_jobs (stats p) + 1;
           Stats.completed_jobs := Stats.completed_jobs (stats p);
           Stats.failed_jobs := Stats.failed_jobs (stats p);
           Stats.cancelled_jobs := Stats.cancelled_jobs (stats p);
           Stats.total_cost := (Stats.total_cost (stats p) + estimated_cost_)%Q;
           Stats.total_processing_time := Stats.total_processing_time (stats p);
           Stats.average_job_time := Stats.average_job_time (stats p) |} p in
    ret (job_id, p, save (saved clock) p w)).

(** *** [remove_job] *)

(** [for i, job in enumerate(self.jobs): if job.id == job_id]: the first
    position in [self.jobs] whose job has this id. *)
Fixpoint find_job (h : list BatchJob.t) (job_id : string) (refs : list nat) (i : nat)
  : option (nat * nat) :=
  match refs with
  | [] => None
  | r :: refs' =>
      match nth_error h r with
      | Some job =>
          if (id job =? job_id)%string then Some (i, r)
          else find_job h job_id refs' (S i)
      | None => find_job h job_id refs' (S i)
      end
  end.

(** [l.pop(i)] *)
Fixpoint pop {A} (i : nat) (l : list A) : list A :=
  match l, i with
  | [], _ => []
  | _ :: l', O => l'
  | x :: l', S i' => x :: pop i' l'
  end.

(** What [remove_job] returns and does: [cancelled_task] is the task on
    which [cancel()] was called, if any. *)
Record removal : Type := {
  found : bool;
  cancelled_task : option nat;
  after : t;
  files : fs
}.

(** [remove_job(self, job_id)] *)
Definition remove_job (now saved_ : string) (w : fs) (p : t) (job_id : string) : removal :=
  match find_job (heap p) job_id (jobs p) 0 with
  | Some (i, r) =>
      let processing :=
        match deref p r with
        | Some job => (status job =? "processing")%string
        | None => false
        end in
      let task := if processing then get job_id (active_jobs p) else None in
      let p :=
        match task with
        | Some _ => with_active_jobs (del job_id (active_jobs p)) p
        | None => p
        end in
      let p := mutate r (cancel now) p in
      let p := with_failed_jobs (failed_jobs p ++ [r]) (with_jobs (pop i (jobs p)) p) in
      let p :=
        with_stats
          {| Stats.total_jobs := Stats.total_jobs (stats p);
             Stats.completed_jobs := Stats.completed_jobs (stats p);
             Stats.failed_jobs := Stats.failed_jobs (stats p);
             Stats.cancelled_jobs := Stats.cancelled_jobs (stats p) + 1;
             Stats.total_cost := Stats.total_cost (stats p);
             Stats.total_processing_time := Stats.total_processing_time (stats p);
             Stats.average_job_time := Stats.average_job_time (stats p) |} p in
      {| found := true; cancelled_task := task; after := p; files := save saved_ p w |}
  | None =>
      {| found := false; cancelled_task := None; after := p; files := w |}
  end.

(** *** [clear_queue] *)

Definition has_status (h : list BatchJob.t) (s : string) (r : nat) : bool :=
  match nth_error h r with
  | Some job => (status job =? s)%string
  | None => false
  end.

(** [clear_queue(self, status_filter=None)] *)
Definition clear_queue (saved_ : string) (w : fs) (p : t) (status_filter : option string)
  : t * fs :=
  match status_filter with
  | Some (String _ _ as f) =>
      if (f =? "pending")%string then
        let p := with_jobs (filter (fun r => negb (has_status (heap p) "pending" r)) (jobs p)) p in
        (p, save saved_ p w)
      else if (f =? "failed")%string then
        let p := with_failed_jobs [] p in
        (p, save saved_ p w)
      else if (f =? "completed")%string then
        let p := with_completed_jobs [] p in
        (p, save saved_ p w)
      else (p, w)
  | _ =>
      let p := with_jobs [] p in
      let p := with_completed_jobs [] p in
      let p := with_failed_jobs [] p in
      let p := with_stats Stats.zero p in
      (p, save saved_ p w)
  end.

(** *** [process_batch]: the jobs it starts *)

(** [pending_jobs = [job for job in self.jobs if job.status == "pending"]] *)
Definition pending_jobs (p : t) : list nat :=
  filter (has_status (heap p) "pending") (jobs p).

(** *** [_process_single_job] *)

(** How the body of the [try] block ends: it returns, or it raises, before
    or after [job.complete]. *)
Inductive outcome : Type :=
| Generated (result_ paths : dict)
| Raised (completed_first : option (dict * dict)) (error_msg : string).

(** The [except] block: the job is failed and, when retries are on and
    allowed, prepared for the next attempt; the second component is
    [retry_delay = 2 ** job.retry_count] when the job is retried. *)
Definition on_exception (auto_retry : bool) (now : string) (error_msg : string)
  (job : BatchJob.t) : BatchJob.t * option Q :=
  let job := fail now error_msg job in
  if auto_retry && can_retry job then
    let job := retry job in
    (job, Some (Qpower 2 (retry_count job)))
  else (job, None).

(** The job after the [try] block has run with the given outcome; the
    delay is present when the coroutine goes on to sleep and retry. *)
Definition attempt (auto_retry : bool) (now_end : string) (o : outcome)
  (job : BatchJob.t) : BatchJob.t * option Q :=
  match o with
  | Generated result_ paths => (complete now_end result_ (Some paths) job, None)
  | Raised None error_msg => on_exception auto_retry now_end error_msg job
  | Raised (Some (result_, paths)) error_msg =>
      on_exception auto_retry now_end error_msg
        (complete now_end result_ (Some paths) job)
  end.

(** One coroutine run on its own: the semaphore value, the job, the number
    of attempts made and the delays slept. *)
Record solo : Type := {
  value : Z;
  job : BatchJob.t;
  attempts : nat;
  delays : list Q
}.

Inductive ending : Type :=
| Returned (status_ : string)
| Blocked
| Out_of_fuel.

Definition release (st : solo) : solo :=
  {| value := value st + 1; job := job st; attempts := attempts st;
     delays := delays st |}.

(** [_process_single_job(self, job, semaphore, auto_retry)] when no other
    task touches the semaphore.  [gen n] is the outcome of attempt [n];
    [now] is the clock.  [Blocked]: [acquire] never returns. *)
Fixpoint _process_single_job (fuel : nat) (auto_retry : bool) (now : nat -> string)
  (gen : nat -> outcome) (st : solo) : ending * solo :=
  match fuel with
  | O => (Out_of_fuel, st)
  | S fuel =>
      if value st <=? 0 then (Blocked, st)
      else
        let n := attempts st in
        let started := start (now (2 * n)%nat) (job st) in
        let (job', delay) := attempt auto_retry (now (2 * n + 1)%nat) (gen n) started in
        let st' :=
          {| value := value st - 1; job := job'; attempts := S n;
             delays := delays st |} in
        match delay with
        | Some d =>
            let st' :=
              {| value := value st'; job := job st'; attempts := attempts st';
                 delays := (delays st' ++ [d])%list |} in
            match _process_single_job fuel auto_retry now gen st' with
            | (Returned r, st'') => (Returned r, release st'')
            | stuck => stuck
            end
        | None => (Returned (status job'), release st')
        end
  end.

(** *** [process_batch]: the tasks and their interleaving *)

(** Where a task is suspended: waiting at [async with semaphore], inside
    the [try] block with the job started, asleep before a retry, leaving
    the [async with] blocks it is in (one per step), or finished. *)
Inductive point : Type :=
| Await_slot
| Generating
| Sleeping (retry_delay : Q)
| Leaving
| Done.

(** A task: its job, where it is, and the number of [async with] blocks it
    is inside of, each holding a slot. *)
Record task : Type := {
  job_ref : nat;
  at_ : point;
  held : nat
}.

Record state : Type := {
  proc : t;
  semaphore : Z;
  tasks : list task;
  auto_retry : bool;
  world : fs
}.

Definition with_proc (v : t) (s : state) : state :=
  {| proc := v; semaphore := semaphore s; tasks := tasks s;
     auto_retry := auto_retry s; world := world s |}.

Definition with_semaphore (v : Z) (s : state) : state :=
  {| proc := proc s; semaphore := v; tasks := tasks s;
     auto_retry := auto_retry s; world := world s |}.

Definition with_tasks (v : list task) (s : state) : state :=
  {| proc := proc s; semaphore := semaphore s; tasks := v;
     auto_retry := auto_retry s; world := world s |}.

Definition with_world (v : fs) (s : state) : state :=
  {| proc := proc s; semaphore := semaphore s; tasks := tasks s;
     auto_retry := auto_retry s; world := v |}.

(** [self.active_jobs[job.id] = task] for the tasks in order. *)
Fixpoint register (h : list BatchJob.t) (refs : list nat) (i : nat)
  (active : list (string * nat)) : list (string * nat) :=
  match refs with
  | [] => active
  | r :: refs' =>
      match nth_error h r with
      | Some job_ => register h refs' (S i) (set (id job_) i active)
      | None => register h refs' (S i) active
      end
  end.

Inductive started : Type :=
| No_jobs
| No_pending_jobs
| Invalid_limit
| Running (s : state).

(** [process_batch] up to the creation of the tasks: one task per pending
    job, in queue order, none of them started yet. *)
Definition process_batch (w : fs) (p : t) (auto_retry_ : bool) : started :=
  match jobs p with
  | [] => No_jobs
  | _ :: _ =>
      match pending_jobs p with
      | [] => No_pending_jobs
      | (_ :: _) as pending =>
          if max_concurrent p <? 0 then Invalid_limit
          else
            Running
              {| proc := with_active_jobs
                           (register (heap p) pending 0 (active_jobs p)) p;
                 semaphore := max_concurrent p;
                 tasks := map (fun r => {| job_ref := r; at_ := Await_slot; held := 0 |})
                              pending;
                 auto_retry := auto_retry_;
                 world := w |}
      end
  end.

(** What can happen next while the batch runs. *)
Inductive event : Type :=
| Acquire (i : nat) (now : string)
| Finish (i : nat) (now : string) (o : outcome)
| Wake (i : nat)
| Leave (i : nat)
| Remove (job_id : string) (now saved_ : string).

Definition set_point (v : point) (k : task) : task :=
  {| job_ref := job_ref k; at_ := v; held := held k |}.

(** [task.cancel()]: [CancelledError] is raised where the task is suspended
    and is not caught by [except Exception]. *)
Definition cancel_task (k : task) : task :=
  match at_ k with
  | Await_slot | Generating | Sleeping _ => set_point Leaving k
  | Leaving | Done => k
  end.

(** One step; [None] when the event cannot happen in this state. *)
Definition step (e : event) (s : state) : option state :=
  match e with
  | Acquire i now =>
      match nth_error (tasks s) i with
      | Some k =>
          match at_ k with
          | Await_slot =>
              if 0 <? semaphore s then
                Some (with_proc (mutate (job_ref k) (start now) (proc s))
                       (with_semaphore (semaphore s - 1)
                         (with_tasks
                            (update i (fun _ => {| job_ref := job_ref k;
                                                   at_ := Generating;
                                                   held := S (held k) |})
                               (tasks s)) s)))
              else None
          | _ => None
          end
      | None => None
      end
  | Finish i now o =>
      match nth_error (tasks s) i with
      | Some k =>
          match at_ k, deref (proc s) (job_ref k) with
          | Generating, Some job_ =>
              let (job', delay) := attempt (auto_retry s) now o job_ in
              let next :=
                match delay with
                | Some d => Sleeping d
                | None => Leaving
                end in
              Some (with_proc (mutate (job_ref k) (fun _ => job') (proc s))
                     (with_tasks (update i (set_point next) (tasks s)) s))
          | _, _ => None
          end
      | None => None
      end
  | Wake i =>
      match nth_error (tasks s) i with
      | Some k =>
          match at_ k with
          | Sleeping _ =>
              Some (with_tasks (update i (set_point Await_slot) (tasks s)) s)
          | _ => None
          end
      | None => None
      end
  | Leave i =>
      match nth_error (tasks s) i with
      | Some k =>
          match at_ k, held k with
          | Leaving, S n =>
              Some (with_semaphore (semaphore s + 1)
                     (with_tasks
                        (update i (fun _ => {| job_ref := job_ref k;
                                               at_ := Leaving;
                                               held := n |})
                           (tasks s)) s))
          | Leaving, O =>
              Some (with_tasks (update i (set_point Done) (tasks s)) s)
          | _, _ => None
          end
      | None => None
      end
  | Remove job_id now saved_ =>
      let r := remove_job now saved_ (world s) (proc s) job_id in
      let tasks' :=
        match cancelled_task r with
        | Some i => update i cancel_task (tasks s)
        | None => tasks s
        end in
      Some (with_world (files r) (with_proc (after r) (with_tasks tasks' s)))
  end.

Fixpoint run (events : list event) (s : state) : option state :=
  match events with
  | [] => Some s
  | e :: events' =>
      match step e s with
      | Some s' => run events' s'
      | None => None
      end
  end.

(** The number of job objects in status [processing]. *)
Definition processing (s : state) : nat :=
  List.length (filter (fun job_ => (status job_ =? "processing")%string) (heap (proc s))).

(** *** [add_multiple_jobs] *)






End BatchProcessor.


(** ** cost_calculator.py: budget tracking *)

Module Budget.

(** One entry of [spending_history], as [track_spending] builds it. *)
Record entry : Type := {
  timestamp : string;
  model : string;
  cost : Q;
  description : string;
  month : string
}.

(** [self.budget_data], with the keys that [_load_budget_data] sets up and
    [track_spending] keeps. *)
Record t : Type := {
  monthly_budget : Q;
  current_month_spending : Q;
  total_spending : Q;
  spending_history : list entry;
  budget_alerts : bool;
  cost_warnings : bool;
  last_reset : string
}.

(** [self.budget_file] *)
Definition budget_file : string := "data/budget_tracking.json".

Definition entry_to_dict (e : entry) : pyval :=
  VDict [ ("timestamp", VStr (timestamp e)); ("model", VStr (model e));
          ("cost", VFloat (cost e)); ("description", VStr (description e));
          ("month", VStr (month e)) ].

Definition to_dict (b : t) : pyval :=
  VDict [ ("monthly_budget", VFloat (monthly_budget b));
          ("current_month_spending", VFloat (current_month_spending b));
          ("total_spending", VFloat (total_spending b));
          ("spending_history", VList (map entry_to_dict (spending_history b)));
          ("budget_alerts", VBool (budget_alerts b));
          ("cost_warnings", VBool (cost_warnings b));
          ("last_reset", VStr (last_reset b)) ].

(** [_save_budget_data(self)] as the calls it makes on the file system. *)
Definition _save_budget_data (b : t) : list op :=
  (Open_w budget_file :: map (Write budget_file) (Json.dumps (to_dict b)))
  ++ [Close budget_file].






(** [set_monthly_budget(self, budget)] *)
Definition set_monthly_budget (w : fs) (b : t) (budget : Q) : t * fs :=
  let b' :=
    {| monthly_budget := budget;
       current_month_spending := current_month_spending b;
       total_spending := total_spending b;
       spending_history := spending_history b;
       budget_alerts := budget_alerts b;
       cost_warnings := cost_warnings b;
       last_reset := last_reset b |} in
  (b', run_ops w (_save_budget_data b')).

(** The dict of [_get_budget_status_message]. *)
Record status_message : Type := {
  message : string;
  color : string;
  icon : string
}.

(** [_get_budget_status_message(self, usage_percentage)] *)
Definition _get_budget_status_message (usage_percentage : Q) : status_message :=
  if Qle_bool 100 usage_percentage then
    {| message := "Over Budget"; color := "red"; icon := "🚨" |}
  else if Qle_bool 90 usage_percentage then
    {| message := "Budget Warning"; color := "yellow"; icon := "⚠️" |}
  else if Qle_bool 75 usage_percentage then
    {| message := "Budget Caution"; color := "yellow"; icon := "💡" |}
  else if Qle_bool 50 usage_percentage then
    {| message := "On Track"; color := "green"; icon := "✅" |}
  else
    {| message := "Well Under Budget"; color := "green"; icon := "💰" |}.

(** The loop [model_spending[model] = model_spending.get(model, 0) +
    entry["cost"]]. *)
Definition add_spending (model_spending : list (string * Q)) (e : entry)
  : list (string * Q) :=
  set (model e) (get_default (model e) 0%Q model_spending + cost e)%Q model_spending.

(** The dict that [get_budget_status] returns. *)
Record budget_status_info : Type := {
  current_month_ : string;
  monthly_budget_ : Q;
  current_spending : Q;
  remaining_budget : option Q;
  usage_percentage : Q;
  total_lifetime_spending : Q;
  model_spending : list (string * Q);
  spending_entries_this_month : nat;
  budget_status : status_message
}.

(** [get_budget_status(self)] *)
Definition get_budget_status (current_month : string) (b : t) : budget_status_info :=
  let monthly_budget := monthly_budget b in
  let current_spending :=
    if negb (last_reset b =? current_month)%string then 0%Q
    else current_month_spending b in
  let remaining_budget :=
    if Qlt_bool 0 monthly_budget then
      let left := (monthly_budget - current_spending)%Q in
      Some (if Qlt_bool 0 left then left else 0%Q)
    else None in
  let usage_percentage :=
    if Qlt_bool 0 monthly_budget
    then (current_spending / monthly_budget * 100)%Q else 0%Q in
  let this_month_history :=
    filter (fun e => (month e =? current_month)%string) (spending_history b) in
  let model_spending := fold_left add_spending this_month_history [] in
  {| current_month_ := current_month;
     monthly_budget_ := monthly_budget;
     current_spending := current_spending;
     remaining_budget := remaining_budget;
     usage_percentage := usage_percentage;
     total_lifetime_spending := total_spending b;
     model_spending :=
       CostCalculator.sort_desc Qlt_bool (fun kv => snd kv) model_spending;
     spending_entries_this_month := List.length this_month_history;
     budget_status := _get_budget_status_message usage_percentage |}.

End Budget.
(** * Sample data

    Concrete jobs, processors and ledgers on which the properties below are
    evaluated. *)

Module Sample.

Import BatchJob BatchProcessor.

(** A job as [add_job] creates it. *)
Definition job0 : BatchJob.t :=
  {| id := "job_20240101_120000_000"; image_path := "cat.png";
     prompt := "a cat on a roof"; model := "kling_21_pro";
     parameters := [("duration", VInt 5)]; priority := 1; status := "pending";
     created_at := "2024-01-01T12:00:00.000100"; started_at := None;
     completed_at := None; result := None; error_message := None;
     retry_count := 0; max_retries := 2; estimated_cost := 0.45;
     output_paths := None |}.

(** A job of a ledger that allows five retries, in its fifth attempt. *)
Definition job_five_retries : BatchJob.t :=
  {| id := "job_20240101_120000_001"; image_path := "dog.png";
     prompt := "a dog on a beach"; model := "kling_21_pro";
     parameters := []; priority := 1; status := "processing";
     created_at := "2024-01-01T12:00:01.000100";
     started_at := Some "2024-01-01T12:05:00.000100";
     completed_at := None; result := None; error_message := None;
     retry_count := 4; max_retries := 5; estimated_cost := 0.45;
     output_paths := None |}.

(** A clock and a generator that always raises. *)
Definition clock (n : nat) : string := "2024-01-01T12:10:00.000100".

Definition always_fails (n : nat) : outcome := Raised None "remote timeout".

Definition alone (value_ : Z) (j : BatchJob.t) : solo :=
  {| value := value_; job := j; attempts := 0; delays := [] |}.

(** A file system with two images and no ledger. *)
Definition images : fs := [("cat.png", []); ("dog.png", [])].

Definition clock_at (second : string) : add_clock :=
  {| stamp := "20240101_1200" ++ second;
     created := "2024-01-01T12:00:" ++ second ++ ".000100";
     saved := "2024-01-01T12:00:" ++ second ++ ".000200" |}.

(** A processor with one slot, and two jobs of priority 1 added one second
    apart: the cat first, the dog second. *)
Definition empty_queue : BatchProcessor.t := fresh 1 true.

Definition two_jobs : option (BatchProcessor.t * fs) :=
  match add_job (clock_at "00") images empty_queue
          "cat.png" "a cat on a roof" "kling_21_pro" None 1 with
  | inl (_, p1, w1) =>
      match add_job (clock_at "01") w1 p1
              "dog.png" "a dog on a beach" "kling_21_pro" None 1 with
      | inl (_, p2, w2) => Some (p2, w2)
      | inr _ => None
      end
  | inr _ => None
  end.

(** The same with the second job at priority 5. *)
Definition two_priorities : option (BatchProcessor.t * fs) :=
  match add_job (clock_at "00") images empty_queue
          "cat.png" "a cat on a roof" "kling_21_pro" None 1 with
  | inl (_, p1, w1) =>
      match add_job (clock_at "01") w1 p1
              "dog.png" "a dog on a beach" "kling_21_pro" None 5 with
      | inl (_, p2, w2) => Some (p2, w2)
      | inr _ => None
      end
  | inr _ => None
  end.

(** The image of the job that a task works on. *)
Definition image_of (s : state) (i : nat) : option string :=
  match nth_error (tasks s) i with
  | Some k => option_map image_path (deref (proc s) (job_ref k))
  | None => None
  end.

(** Parameters whose duration is the string ["5"]. *)
Definition text_duration : dict := [("duration", VStr "5")].

(** A processor in the middle of a run: one job being processed, one
    completed, one cancelled, one waiting. *)
Definition job_in (status_ : string) (n : string) (started : option string)
  (done : option string) : BatchJob.t :=
  {| id := "job_20240101_120000_00" ++ n; image_path := "cat.png";
     prompt := "a cat on a roof"; model := "kling_21_pro";
     parameters := [("duration", VInt 5); ("aspect_ratio", VStr "16:9")];
     priority := 1; status := status_;
     created_at := "2024-01-01T12:00:00.000100"; started_at := started;
     completed_at := done;
     result := if (status_ =? "completed")%string
               then Some [("video", VDict [("url", VStr "https://v/1.mp4")])]
               else None;
     error_message := None; retry_count := 0; max_retries := 2;
     estimated_cost := 0.45; output_paths := None |}.

Definition mid_run : BatchProcessor.t :=
  {| max_concurrent := 3; save_progress := true;
     heap := [ job_in "processing" "0" (Some "2024-01-01T12:01:00") None;
               job_in "completed" "1" (Some "2024-01-01T12:01:00")
                 (Some "2024-01-01T12:02:00");
               job_in "cancelled" "2" None (Some "2024-01-01T12:02:30");
               job_in "pending" "3" None None ];
     jobs := [0; 3]%nat; completed_jobs := [1%nat]; failed_jobs := [2%nat];
     active_jobs := []; stats := Stats.zero |}.

(** The processor of [two_jobs], and a run of its batch: the first task
    takes the slot, fails, sleeps and wakes up again. *)
Definition queue_of_two : BatchProcessor.t :=
  match two_jobs with
  | Some (p, _) => p
  | None => empty_queue
  end.

Definition first_fails : list event :=
  [ Acquire 0 "2024-01-01T12:01:00";
    Finish 0 "2024-01-01T12:01:30" (Raised None "remote timeout");
    Wake 0 ].




End Sample.

(** * Properties *)

Import CostCalculator BatchJob BatchProcessor.

Local Open Scope Z_scope.

(** ** Cost calculation *)

Lemma lt_int (x y : Z) : Py.lt (VInt x) (VInt y) = ret (x <? y).
Proof. reflexivity. Qed.

Lemma min_int (d m : Z) : Py.min (VInt d) (VInt m) = ret (VInt (Z.min d m)).
Proof.
  unfold Py.min. rewrite lt_int. cbn [bind ret].
  destruct (Z.ltb_spec m d) as [Hlt | Hge].
  - now rewrite Z.min_r by lia.
  - now rewrite Z.min_l by lia.
Qed.

(** The seconds a model charges for a duration [x]. *)
Definition charged (info : model_info) (x : Q) : Q :=
  if Qlt_bool (inject_Z (max_duration info)) x
  then inject_Z (max_duration info) else x.

Lemma Qlt_bool_inject (a b : Z) :
  Qlt_bool (inject_Z a) (inject_Z b) = (a <? b).
Proof.
  unfold Qlt_bool, Qle_bool. cbn. rewrite !Z.mul_1_r.
  destruct (Z.leb_spec b a), (Z.ltb_spec a b); try reflexivity; lia.
Qed.

(** C10, as stated, at the model ["kling_21_pro"] with the duration given
    as the string ["5"], as [add_job] passes it on from
    [parameters = {"duration": "5"}]: no cost is returned; the comparison
    with the model's limit raises [TypeError]. *)
Lemma calculate_cost_text_duration_raises :
  contains "kling_21_pro" model_pricing = true
  /\ calculate_cost "kling_21_pro" (VStr "5") = raise TypeError.
Proof. split; reflexivity. Qed.

(** C10, amended.  For a model of the pricing table and a duration that is a
    number (an int, a float or a bool), [calculate_cost] returns a dict
    whose [total_cost] is [cost_per_second * min(duration, max_duration)],
    whose [duration] is the model's limit when the duration exceeds it and
    the duration as given otherwise, whose [duration_warning] is a string
    exactly when the duration exceeds the limit and [None] otherwise, and
    which has no [error] entry; for an int duration [d] these are
    [cost_per_second * min(d, max_duration)] and the int
    [min(d, max_duration)].  For a duration that is not a number it raises
    [TypeError].  For any other model and any duration value it returns (and
    does not raise) a dict with an [error] entry, [cost] 0.0 and no
    [total_cost]. *)
Theorem calculate_cost_total (model_ : string) (duration : pyval) :
  match get model_ model_pricing with
  | Some info =>
      match as_number duration with
      | Some x =>
          let exceeds := Qlt_bool (inject_Z (max_duration info)) x in
          let warning :=
            VStr ("Duration capped at " ++ str_of_int (max_duration info)
                  ++ "s (model limit)") in
          exists r,
            calculate_cost model_ duration = ret r
            /\ get "total_cost" r
               = Some (CV (VFloat (cost_per_second info * charged info x)))
            /\ get "duration" r
               = Some (CV (if exceeds then VInt (max_duration info) else duration))
            /\ get "duration_warning" r
               = Some (CV (if exceeds then warning else VNone))
            /\ get "error" r = None
            /\ forall d : Z,
                 duration = VInt d ->
                 exceeds = (max_duration info <? d)
                 /\ get "total_cost" r
                    = Some (CV (VFloat (cost_per_second info
                                        * inject_Z (Z.min d (max_duration info)))))
                 /\ get "duration" r
                    = Some (CV (VInt (Z.min d (max_duration info))))
      | None => calculate_cost model_ duration = raise TypeError
      end
  | None =>
      exists r,
        calculate_cost model_ duration = ret r
        /\ get "error" r = Some (CV (VStr ("Unknown model: " ++ model_)))
        /\ get "cost" r = Some (CV (VFloat 0))
        /\ get "total_cost" r = None
  end.
Proof.
  unfold calculate_cost, charged.
  destruct (get model_ model_pricing) as [info |].
  - destruct duration as [| b | d | f | s | l | dd]; cbn [as_number];
      try reflexivity; cbv zeta.
    + unfold Py.min, gt, Py.lt. cbn [as_number bind ret].
      destruct (Qlt_bool (inject_Z (max_duration info))
                  (inject_Z (if b then 1 else 0)));
        cbn [float_mul as_number bind ret]; eexists;
        (split; [reflexivity |]); repeat (split; [reflexivity |]);
        intros d Hd; discriminate Hd.
    + rewrite Qlt_bool_inject, min_int. unfold gt. rewrite lt_int.
      cbn [bind ret float_mul as_number].
      eexists. split; [reflexivity |].
      assert (Hmin : Z.min d (max_duration info)
                     = if max_duration info <? d then max_duration info else d).
      { destruct (Z.ltb_spec (max_duration info) d); lia. }
      rewrite Hmin.
      split; [destruct (max_duration info <? d); reflexivity |].
      split; [destruct (max_duration info <? d); reflexivity |].
      split; [reflexivity |]. split; [reflexivity |].
      intros d' Hd. injection Hd as <-. rewrite Hmin. repeat split; reflexivity.
    + unfold Py.min, gt, Py.lt. cbn [as_number bind ret].
      destruct (Qlt_bool (inject_Z (max_duration info)) f);
        cbn [float_mul as_number bind ret]; eexists;
        (split; [reflexivity |]); repeat (split; [reflexivity |]);
        intros d Hd; discriminate Hd.
  - eexists. split; [reflexivity |]. repeat split; reflexivity.
Qed.

(** ** Retries *)

Lemma retry_count_start now j : retry_count (start now j) = retry_count j.
Proof. reflexivity. Qed.

Lemma retry_count_fail now msg j : retry_count (fail now msg j) = retry_count j.
Proof. reflexivity. Qed.

Lemma retry_count_cancel now j : retry_count (cancel now j) = retry_count j.
Proof. reflexivity. Qed.

Lemma retry_count_complete now res paths j :
  retry_count (complete now res paths j) = retry_count j.
Proof. unfold complete. destruct paths as [[| ? ?] |]; reflexivity. Qed.

Lemma max_retries_complete now res paths j :
  max_retries (complete now res paths j) = max_retries j.
Proof. unfold complete. destruct paths as [[| ? ?] |]; reflexivity. Qed.

Lemma max_retries_retry j : max_retries (retry j) = max_retries j.
Proof. unfold retry. destruct (can_retry j); reflexivity. Qed.

Lemma retry_bounded j :
  retry_count j <= max_retries j -> retry_count (retry j) <= max_retries (retry j).
Proof.
  intros H. unfold retry, can_retry.
  destruct (status j =? "failed")%string; cbn [andb]; [| exact H].
  destruct (Z.ltb_spec (retry_count j) (max_retries j)); cbn; lia.
Qed.

(** The [except] block with retries on, on a job that can still be retried. *)
Lemma on_exception_retry now msg j :
  retry_count j < max_retries j ->
  on_exception true now msg j
  = (set_error_message None
       (set_completed_at None
          (set_started_at None
             (set_status "pending"
                (set_retry_count (retry_count j + 1) (fail now msg j))))),
     Some (Qpower 2 (retry_count j + 1))).
Proof.
  intros H. unfold on_exception, retry, can_retry. cbn.
  destruct (Z.ltb_spec (retry_count j) (max_retries j)); [reflexivity | lia].
Qed.

(** The [except] block on a job that has used its retries. *)
Lemma on_exception_give_up b now msg j :
  max_retries j <= retry_count j ->
  on_exception b now msg j = (fail now msg j, None).
Proof.
  intros H. unfold on_exception, can_retry. cbn.
  destruct (Z.ltb_spec (retry_count j) (max_retries j)); [lia |].
  now rewrite andb_false_r.
Qed.

Lemma on_exception_no_auto_retry now msg j :
  on_exception false now msg j = (fail now msg j, None).
Proof. reflexivity. Qed.

(** The retry counter stays within [max_retries] under every method of a
    job and under one pass of the [try]/[except] blocks. *)
Lemma attempt_bounded auto now o j :
  retry_count j <= max_retries j ->
  retry_count (fst (attempt auto now o j)) <= max_retries (fst (attempt auto now o j)).
Proof.
  intros H.
  assert (Hexc : forall now msg j0, retry_count j0 <= max_retries j0 ->
            retry_count (fst (on_exception auto now msg j0))
            <= max_retries (fst (on_exception auto now msg j0))).
  { intros now0 msg j0 H0. unfold on_exception.
    destruct (auto && can_retry (fail now0 msg j0)); cbn [fst].
    - now apply retry_bounded.
    - exact H0. }
  destruct o as [res paths | [[res paths] |] msg]; cbn [attempt fst].
  - now rewrite retry_count_complete, max_retries_complete.
  - apply Hexc. now rewrite retry_count_complete, max_retries_complete.
  - now apply Hexc.
Qed.

(** A run in which every attempt raises, with retries on and a free slot at
    every [acquire]. *)
Lemma failing_run (k : nat) :
  forall fuel now gen st,
    (forall n, exists c msg, gen n = Raised c msg) ->
    Z.of_nat k = max_retries (job st) - retry_count (job st) ->
    Z.of_nat k < value st ->
    (k < fuel)%nat ->
    exists j',
      _process_single_job fuel true now gen st
      = (Returned "failed",
         {| value := value st; job := j'; attempts := attempts st + k + 1;
            delays := delays st
                      ++ map (fun i => Qpower 2 (retry_count (job st) + Z.of_nat i))
                           (seq 1 k) |})
      /\ status j' = "failed"
      /\ retry_count j' = max_retries (job st)
      /\ max_retries j' = max_retries (job st).
Proof.
  induction k as [| k IH]; intros fuel now gen st Hgen Hk Hv Hf.
  - destruct fuel as [| fuel]; [lia |]. cbn [_process_single_job].
    destruct (Z.leb_spec (value st) 0); [lia |].
    destruct (Hgen (attempts st)) as (c & msg & ->).
    assert (Hc : forall j0, retry_count j0 = retry_count (job st) ->
                   max_retries j0 = max_retries (job st) ->
                   on_exception true (now (2 * attempts st + 1)%nat) msg j0
                   = (fail (now (2 * attempts st + 1)%nat) msg j0, None)).
    { intros j0 H1 H2. apply on_exception_give_up. lia. }
    destruct c as [[res paths] |]; cbn [attempt];
      rewrite Hc by (rewrite ?retry_count_complete, ?max_retries_complete; reflexivity);
      eexists; (split; [unfold release; cbn; do 2 f_equal;
                        [lia | lia | now rewrite app_nil_r] |]);
      cbn; try destruct paths; cbn; repeat split; lia.
  - destruct fuel as [| fuel]; [lia |]. cbn [_process_single_job].
    destruct (Z.leb_spec (value st) 0); [lia |].
    destruct (Hgen (attempts st)) as (c & msg & ->).
    set (t1 := now (2 * attempts st + 1)%nat).
    set (j_started := start (now (2 * attempts st)%nat) (job st)).
    assert (Hc : forall j0, retry_count j0 = retry_count (job st) ->
                   max_retries j0 = max_retries (job st) ->
                   exists j1, on_exception true t1 msg j0
                              = (j1, Some (Qpower 2 (retry_count (job st) + 1)))
                              /\ retry_count j1 = retry_count (job st) + 1
                              /\ max_retries j1 = max_retries (job st)).
    { intros j0 H1 H2. rewrite on_exception_retry by lia.
      rewrite H1. eexists. split; [reflexivity |]. cbn. lia. }
    assert (Hatt : exists j1, attempt true t1 (Raised c msg) j_started
                              = (j1, Some (Qpower 2 (retry_count (job st) + 1)))
                              /\ retry_count j1 = retry_count (job st) + 1
                              /\ max_retries j1 = max_retries (job st)).
    { destruct c as [[res paths] |]; cbn [attempt]; apply Hc;
        rewrite ?retry_count_complete, ?max_retries_complete; reflexivity. }
    destruct Hatt as (j1 & -> & Hrc & Hmax).
    cbn [value job attempts delays].
    edestruct (IH fuel now gen) as (j' & Hrun & Hs & Hr & Hm);
      [exact Hgen | | | | rewrite Hrun].
    + cbn [job]. lia.
    + cbn [value]. lia.
    + lia.
    + exists j'. cbn [job value attempts delays] in *. split.
      * unfold release; cbn. do 2 f_equal; [lia | lia |].
        rewrite <- app_assoc. f_equal. rewrite Hrc.
        change (seq 1 (S k)) with (1%nat :: seq 2 k).
        rewrite <- (seq_shift k 1), map_map.
        apply (f_equal2 cons); [reflexivity |].
        apply map_ext. intros i. f_equal. lia.
      * repeat split; lia || assumption.
Qed.

Lemma retry_terminal_noop j :
  status j = "failed" -> retry_count j = max_retries j ->
  terminal j = true /\ can_retry j = false /\ retry j = j.
Proof.
  intros Hs Hr. unfold terminal, retry, can_retry. rewrite Hs, Hr.
  rewrite Z.ltb_irrefl, Z.eqb_refl. now cbn.
Qed.

(** A failure that is retried: the counter grows by one and the delay is
    two to the power of the new counter. *)
Lemma on_exception_retried auto now msg j j' d :
  on_exception auto now msg j = (j', Some d) ->
  retry_count j < max_retries j
  /\ retry_count j' = retry_count j + 1
  /\ max_retries j' = max_retries j
  /\ status j' = "pending"
  /\ d = Qpower 2 (retry_count j').
Proof.
  unfold on_exception, retry. intros H.
  destruct (auto && can_retry (fail now msg j)) eqn:E; [| discriminate].
  apply andb_prop in E as [_ E]. rewrite E in H.
  unfold can_retry in E. cbn in E. apply Z.ltb_lt in E.
  injection H as <- <-. cbn. repeat split. exact E.
Qed.

(** C7, as stated, at a job that allows five retries: the failure of its
    fifth attempt is retried after 32 seconds, more than the 30 second cap
    of the design. *)
Lemma retry_delay_exceeds_cap :
  snd (on_exception true "2024-01-01T12:06:00" "remote timeout" Sample.job_five_retries)
  = Some (Qpower 2 5)
  /\ ~ (Qpower 2 5 <= 30)%Q.
Proof.
  split; [reflexivity |]. intros H. apply H. reflexivity.
Qed.

(** C7, amended. When the [except] block retries a job, [retry_count] is
    incremented by one and the delay slept before the next attempt is
    [2 ** retry_count] seconds for the new [retry_count].  No cap is
    applied: the delay is at most [2 ** max_retries], and it is within 30
    seconds whenever [max_retries] is at most 4, as for the default 2. *)
Theorem retry_delay_doubles auto now msg j j' d :
  on_exception auto now msg j = (j', Some d) ->
  retry_count j' = retry_count j + 1
  /\ status j' = "pending"
  /\ d = Qpower 2 (retry_count j')
  /\ (d <= Qpower 2 (max_retries j))%Q
  /\ (max_retries j <= 4 -> (d <= 30)%Q).
Proof.
  intros H. apply on_exception_retried in H as (Hlt & Hrc & Hmax & Hs & ->).
  repeat split; try assumption.
  - apply Qpower_le_compat_l; [lia | discriminate].
  - intros H4. apply Qle_trans with (Qpower 2 4); [| discriminate].
    apply Qpower_le_compat_l; [lia | discriminate].
Qed.

Lemma retry_delay_doubles_witness :
  exists j',
    on_exception true "2024-01-01T12:06:00" "remote timeout"
      (start "2024-01-01T12:05:00" Sample.job0)
    = (j', Some (Qpower 2 1))
    /\ retry_count j' = 1
    /\ (Qpower 2 1 <= 30)%Q.
Proof.
  eexists. split; [vm_compute; reflexivity |].
  pose proof (retry_delay_doubles true "2024-01-01T12:06:00" "remote timeout"
                (start "2024-01-01T12:05:00" Sample.job0) _ _ eq_refl)
    as (Hrc & _ & _ & _ & H30).
  split; [exact Hrc |]. apply H30. cbn. lia.
Defined.

(** C2, as stated, at a run with [auto_retry] off: the job fails once, is
    attempted once and not [max_retries + 1 = 3] times, and is left
    [failed] with retries unused. *)
Lemma failing_job_without_auto_retry :
  let r := _process_single_job 5 false Sample.clock Sample.always_fails
             (Sample.alone 3 Sample.job0) in
  fst r = Returned "failed"
  /\ attempts (snd r) = 1%nat
  /\ max_retries (job (snd r)) = 2
  /\ retry_count (job (snd r)) = 0
  /\ terminal (job (snd r)) = false.
Proof. cbn. repeat split. Qed.

(** The recursive call of a retry waits for a second slot while the first
    is still held: with one slot the coroutine never returns, the job stays
    [pending] after one attempt. *)
Lemma retry_blocks_on_single_slot (fuel : nat) :
  let r := _process_single_job (S (S fuel)) true Sample.clock Sample.always_fails
             (Sample.alone 1 Sample.job0) in
  fst r = Blocked
  /\ attempts (snd r) = 1%nat
  /\ status (job (snd r)) = "pending".
Proof. cbn. repeat split. Qed.

(** C2, amended. (1) [retry_count <= max_retries] is kept by every method
    of a job and by a pass through the [try]/[except] blocks.  (2) With
    [auto_retry] on, a job with [retry_count <= max_retries] whose every
    attempt raises, and whose task finds a free slot at each [acquire], is
    attempted [max_retries - retry_count + 1] times, the coroutine returns
    [failed], and the job ends [failed] with [retry_count = max_retries]:
    it is terminal, [can_retry] is false and [retry] leaves it unchanged.
    (3) With [auto_retry] off it is attempted once. *)
Theorem retry_bound (now : nat -> string) (gen : nat -> outcome) (st : solo)
  (fuel : nat) :
  retry_count (job st) <= max_retries (job st) ->
  (forall n, exists c msg, gen n = Raised c msg) ->
  max_retries (job st) - retry_count (job st) < value st ->
  (Z.to_nat (max_retries (job st) - retry_count (job st)) < fuel)%nat ->
  (forall t msg o auto,
      retry_count (start t (job st)) <= max_retries (start t (job st))
      /\ retry_count (fail t msg (job st)) <= max_retries (fail t msg (job st))
      /\ retry_count (cancel t (job st)) <= max_retries (cancel t (job st))
      /\ retry_count (retry (job st)) <= max_retries (retry (job st))
      /\ retry_count (fst (attempt auto t o (job st)))
         <= max_retries (fst (attempt auto t o (job st))))
  /\ (let r := _process_single_job fuel true now gen st in
      fst r = Returned "failed"
      /\ Z.of_nat (attempts (snd r))
         = Z.of_nat (attempts st) + max_retries (job st) - retry_count (job st) + 1
      /\ status (job (snd r)) = "failed"
      /\ retry_count (job (snd r)) = max_retries (job st)
      /\ max_retries (job (snd r)) = max_retries (job st)
      /\ terminal (job (snd r)) = true
      /\ can_retry (job (snd r)) = false
      /\ retry (job (snd r)) = job (snd r)
      /\ value (snd r) = value st)
  /\ (let r := _process_single_job fuel false now gen st in
      fst r = Returned "failed"
      /\ attempts (snd r) = S (attempts st)
      /\ status (job (snd r)) = "failed").
Proof.
  intros Hle Hgen Hv Hf. split; [| split].
  - intros t msg o auto. repeat split; try exact Hle.
    + now apply retry_bounded.
    + now apply attempt_bounded.
  - destruct (failing_run (Z.to_nat (max_retries (job st) - retry_count (job st)))
                fuel now gen st Hgen) as (j' & Hrun & Hs & Hr & Hm); try lia.
    cbv zeta. rewrite Hrun. cbn [fst snd job attempts value].
    destruct (retry_terminal_noop j' Hs) as (Ht & Hc & Hn); [lia |].
    repeat split; try assumption. lia.
  - destruct fuel as [| fuel]; [lia |]. cbn [_process_single_job].
    destruct (Z.leb_spec (value st) 0); [lia |].
    destruct (Hgen (attempts st)) as ([[res paths] |] & msg & ->);
      cbn [attempt]; rewrite on_exception_no_auto_retry;
      cbn; repeat split.
Qed.

Lemma retry_bound_witness :
  let r := _process_single_job 3 true Sample.clock Sample.always_fails
             (Sample.alone 3 Sample.job0) in
  fst r = Returned "failed"
  /\ attempts (snd r) = 3%nat
  /\ status (job (snd r)) = "failed"
  /\ retry_count (job (snd r)) = 2.
Proof.
  assert (Hgen : forall n : nat, exists c msg, Sample.always_fails n = Raised c msg).
  { intros n. exists None, "remote timeout". reflexivity. }
  pose proof (retry_bound Sample.clock Sample.always_fails (Sample.alone 3 Sample.job0) 3
                ltac:(cbn; lia) Hgen ltac:(cbn; lia) ltac:(cbn; lia))
    as (_ & (H1 & H2 & H3 & H4 & _) & _).
  cbv zeta. repeat split; assumption || (apply Nat2Z.inj; rewrite H2; reflexivity).
Defined.

(** ** Queue order *)

(** C3 at two jobs of equal priority: the queue that [add_job] keeps holds
    the job created later first, and with one slot the task of the later
    job is the one admitted; the task of the earlier job cannot acquire.
    With different priorities the higher one is first. *)
Theorem equal_priority_later_job_first :
  match Sample.two_jobs with
  | Some (p, w) =>
      map created_at (objects (heap p) (jobs p))
      = ["2024-01-01T12:00:01.000100"; "2024-01-01T12:00:00.000100"]
      /\ map priority (objects (heap p) (jobs p)) = [1; 1]
      /\ match process_batch w p true with
         | Running s =>
             Sample.image_of s 0 = Some "dog.png"
             /\ match step (Acquire 0 "2024-01-01T12:01:00") s with
                | Some s' =>
                    map status (heap (proc s')) = ["pending"; "processing"]
                    /\ step (Acquire 1 "2024-01-01T12:01:00") s' = None
                | None => False
                end
         | _ => False
         end
  | None => False
  end
  /\ match Sample.two_priorities with
     | Some (p, w) => map priority (objects (heap p) (jobs p)) = [5; 1]
     | None => False
     end.
Proof. vm_compute. repeat split. Qed.

(** ** Adding a job *)

Fixpoint all_space (s : string) : bool :=
  match s with
  | EmptyString => true
  | String c s' => isspace c && all_space s'
  end.

Lemma lstrip_empty s : truthy (lstrip s) = false <-> all_space s = true.
Proof.
  induction s as [| c s IH]; cbn; [tauto |].
  destruct (isspace c); cbn; [exact IH |]. split; discriminate.
Qed.

Lemma rev_string_all_space s acc :
  all_space (rev_string s acc) = all_space s && all_space acc.
Proof.
  revert acc. induction s as [| c s IH]; intros acc; cbn; [reflexivity |].
  rewrite IH. cbn. destruct (isspace c), (all_space s); reflexivity.
Qed.

Lemma rev_string_empty s acc :
  truthy (rev_string s acc) = truthy s || truthy acc.
Proof.
  revert acc. induction s as [| c s IH]; intros acc; cbn; [reflexivity |].
  rewrite IH. cbn. now rewrite orb_true_r.
Qed.

Lemma all_space_lstrip s : all_space (lstrip s) = all_space s.
Proof.
  induction s as [| c s IH]; cbn; [reflexivity |].
  destruct (isspace c) eqn:E; cbn; [exact IH | now rewrite E].
Qed.

(** [not prompt.strip()] holds exactly for the prompts made of whitespace
    only, the empty prompt among them. *)
Lemma strip_empty s : truthy (strip s) = false <-> all_space s = true.
Proof.
  unfold strip. rewrite rev_string_empty. cbn. rewrite orb_false_r.
  rewrite lstrip_empty, rev_string_all_space, all_space_lstrip.
  cbn. now rewrite andb_true_r.
Qed.

Definition numeric (v : pyval) : bool :=
  match as_number v with
  | Some _ => true
  | None => false
  end.

Lemma lt_numeric a b :
  numeric a = true -> numeric b = true -> exists c, Py.lt a b = ret c.
Proof.
  unfold numeric, Py.lt. intros Ha Hb.
  destruct (as_number a) eqn:Ea; [| discriminate].
  destruct (as_number b) eqn:Eb; [| discriminate].
  destruct a; try discriminate; destruct b; try discriminate;
    cbn in *; eexists; reflexivity.
Qed.

Lemma lt_not_numeric m v :
  numeric v = false -> Py.lt (VInt m) v = raise TypeError.
Proof.
  unfold numeric, Py.lt. destruct v; cbn; try discriminate; reflexivity.
Qed.

(** For a model of the table the calculator returns exactly when the
    duration is a number. *)
Lemma calculate_cost_known model_ info duration :
  get model_ model_pricing = Some info ->
  if numeric duration
  then exists r q, calculate_cost model_ duration = ret r
                   /\ get "total_cost" r = Some (CV (VFloat q))
  else calculate_cost model_ duration = raise TypeError.
Proof.
  intros Hm. unfold calculate_cost. rewrite Hm.
  destruct (numeric duration) eqn:En.
  - destruct (lt_numeric (VInt (max_duration info)) duration eq_refl En) as [c Hc].
    unfold Py.min, gt. rewrite Hc. cbn [bind ret].
    assert (Hn : numeric (if c then VInt (max_duration info) else duration) = true)
      by (destruct c; [reflexivity | exact En]).
    unfold float_mul. unfold numeric in Hn.
    destruct (as_number (if c then VInt (max_duration info) else duration));
      [| discriminate].
    cbn [bind ret]. do 2 eexists. split; reflexivity.
  - unfold Py.min. rewrite lt_not_numeric by exact En. reflexivity.
Qed.

Lemma calculate_cost_unknown model_ duration :
  get model_ model_pricing = None ->
  exists r, calculate_cost model_ duration = ret r /\ get "total_cost" r = None.
Proof.
  intros Hm. unfold calculate_cost. rewrite Hm. eexists. split; reflexivity.
Qed.

Lemma insert_reverse_In {A} (key : A -> Z * string) x y l :
  In x (insert_reverse key y l) <-> y = x \/ In x l.
Proof.
  induction l as [| z l IH]; cbn; [tauto |].
  destruct (key_lt (key z) (key y)); cbn; [tauto |]. rewrite IH. tauto.
Qed.

Lemma fold_insert_In {A} (key : A -> Z * string) x l acc :
  In x (fold_left (fun acc y => insert_reverse key y acc) l acc)
  <-> In x l \/ In x acc.
Proof.
  revert acc. induction l as [| y l IH]; intros acc; cbn; [tauto |].
  rewrite IH, insert_reverse_In. tauto.
Qed.

(** Sorting keeps the elements. *)
Lemma sort_reverse_In {A} (key : A -> Z * string) x l :
  In x (sort_reverse key l) <-> In x l.
Proof. unfold sort_reverse. rewrite fold_insert_In. cbn. tauto. Qed.

(** The job that [add_job] builds. *)
Definition new_job (clock : add_clock) (n : nat) (image_path_ prompt_ model_ : string)
  (parameters_ : dict) (priority_ : Z) (cost : Q) : BatchJob.t :=
  {| id := "job_" ++ stamp clock ++ "_" ++ fmt_03d n; image_path := image_path_;
     prompt := prompt_; model := model_; parameters := parameters_;
     priority := priority_; status := "pending";
     created_at := created clock;
     started_at := None; completed_at := None; result := None;
     error_message := None; retry_count := 0; max_retries := 2;
     estimated_cost := cost; output_paths := None |}.

(** [parameters or {}] and the cost that [add_job] reads from the
    calculator's answer. *)
Definition given (parameters_ : option dict) : dict :=
  match parameters_ with
  | Some d => d
  | None => []
  end.

Definition cost_of (info : cost_info) : Q :=
  match get "total_cost" info with
  | Some (CV (VFloat q)) => q
  | _ => 0%Q
  end.

(** C8, as stated, at a call with an existing image, a prompt that is not
    empty and the duration given as the string ["5"]: no job id is
    returned; the comparison with the model's limit raises [TypeError]. *)
Lemma add_job_text_duration_raises :
  path_exists "cat.png" Sample.images = true
  /\ truthy (strip "a cat on a roof") = true
  /\ add_job (Sample.clock_at "00") Sample.images Sample.empty_queue
       "cat.png" "a cat on a roof" "kling_21_pro" (Some Sample.text_duration) 1
     = raise TypeError.
Proof. repeat split. Qed.

Lemma truthy_strip s : truthy (strip s) = negb (all_space s).
Proof.
  destruct (all_space s) eqn:E.
  - now apply strip_empty.
  - destruct (truthy (strip s)) eqn:T; [reflexivity |].
    apply strip_empty in T. congruence.
Qed.

(** C8, amended. [add_job] raises [FileNotFoundError] when the image path
    does not exist and [ValueError] when it exists and the prompt is empty
    or made of whitespace only; these are the only validation errors, and
    nothing is changed and no id is returned.  When the input is valid, the
    model is in the pricing table and the [duration] parameter (default 5)
    is not a number, the cost calculation raises [TypeError], again before
    anything is changed.  In every other case [add_job] returns the id of a
    new job with status [pending] and [estimated_cost] read from the cost
    calculator's answer (0.0 without [total_cost]); the job is queued, the
    statistics count it, and the ledger is saved. *)
Theorem add_job_outcome (clock : add_clock) (w : fs) (p : BatchProcessor.t)
  (image_path_ prompt_ model_ : string) (parameters_ : option dict) (priority_ : Z) :
  let duration := get_default "duration" (VInt 5) (given parameters_) in
  let call := add_job clock w p image_path_ prompt_ model_ parameters_ priority_ in
  if negb (path_exists image_path_ w) then
    call = raise (FileNotFoundError ("Image file not found: " ++ image_path_))
  else if all_space prompt_ then
    call = raise (ValueError "Prompt cannot be empty")
  else if contains model_ model_pricing && negb (numeric duration) then
    call = raise TypeError
  else
    exists info p',
      calculate_cost model_ duration = ret info
      /\ let job_ := new_job clock (List.length (jobs p)) image_path_ prompt_ model_
                       (given parameters_) priority_ (cost_of info) in
         call = ret (id job_, p', save (saved clock) p' w)
         /\ status job_ = "pending"
         /\ heap p' = (heap p ++ [job_])%list
         /\ (forall r, In r (jobs p') <-> (r = List.length (heap p) \/ In r (jobs p)))
         /\ completed_jobs p' = completed_jobs p
         /\ failed_jobs p' = failed_jobs p
         /\ Stats.total_jobs (stats p') = Stats.total_jobs (stats p) + 1
         /\ Stats.total_cost (stats p')
            = (Stats.total_cost (stats p) + cost_of info)%Q.
Proof.
  cbv zeta. unfold add_job.
  destruct (path_exists image_path_ w); cbn [negb]; [| reflexivity].
  rewrite truthy_strip, negb_involutive.
  destruct (all_space prompt_); [reflexivity |].
  replace (match parameters_ with Some ((_ :: _) as d) => d | _ => [] end)
    with (given parameters_) by (destruct parameters_ as [[| ? ?] |]; reflexivity).
  set (duration := get_default "duration" (VInt 5) (given parameters_)).
  unfold contains.
  destruct (get model_ model_pricing) as [minfo |] eqn:Hm.
  - pose proof (calculate_cost_known model_ minfo duration Hm) as Hc.
    destruct (numeric duration); cbn [negb andb].
    + destruct Hc as (r & q & Hr & Hq). rewrite Hr. cbn [bind ret].
      exists r. eexists. split; [reflexivity |].
      cbv zeta. fold (cost_of r). split; [reflexivity |].
      cbn -[sort_reverse]. split; [reflexivity | split; [reflexivity | split; [| repeat split]]].
      intros r0. rewrite sort_reverse_In, in_app_iff. cbn. intuition.
    + rewrite Hc. reflexivity.
  - destruct (calculate_cost_unknown model_ duration Hm) as (r & Hr & Hq).
    rewrite Hr. cbn [bind ret andb].
    exists r. eexists. split; [reflexivity |].
    cbv zeta. fold (cost_of r). split; [reflexivity |].
    cbn -[sort_reverse]. split; [reflexivity | split; [reflexivity | split; [| repeat split]]].
    intros r0. rewrite sort_reverse_In, in_app_iff. cbn. intuition.
Qed.

(** ** The JSON text *)

Section Pyval_induction.

Variable P : pyval -> Prop.
Hypothesis P_none : P VNone.
Hypothesis P_bool : forall b, P (VBool b).
Hypothesis P_int : forall z, P (VInt z).
Hypothesis P_float : forall q, P (VFloat q).
Hypothesis P_str : forall s, P (VStr s).
Hypothesis P_list : forall l, Forall P l -> P (VList l).
Hypothesis P_dict : forall d, Forall (fun kv => P (snd kv)) d -> P (VDict d).

Fixpoint pyval_nested_ind (v : pyval) : P v :=
  match v with
  | VNone => P_none
  | VBool b => P_bool b
  | VInt z => P_int z
  | VFloat q => P_float q
  | VStr s => P_str s
  | VList l =>
      P_list l
        ((fix go (l : list pyval) : Forall P l :=
            match l with
            | [] => Forall_nil P
            | x :: l' => Forall_cons x (pyval_nested_ind x) (go l')
            end) l)
  | VDict d =>
      P_dict d
        ((fix go (d : list (string * pyval)) : Forall (fun kv => P (snd kv)) d :=
            match d with
            | [] => Forall_nil _
            | kv :: d' => Forall_cons kv (pyval_nested_ind (snd kv)) (go d')
            end) d)
  end.

End Pyval_induction.

(** A token that can begin a value. *)
Definition value_start (t : Json.token) : bool :=
  match t with
  | Json.TRBrace | Json.TRBracket | Json.TComma | Json.TColon => false
  | _ => true
  end.

Lemma dumps_head v :
  exists t r, Json.dumps v = t :: r /\ value_start t = true.
Proof.
  destruct v as [| [] | | | | |]; cbn; do 2 eexists; split; reflexivity.
Qed.

Lemma dumps_length v : (1 <= List.length (Json.dumps v))%nat.
Proof. destruct (dumps_head v) as (t & r & -> & _). cbn. lia. Qed.

Lemma parse_open_list fuel t r :
  value_start t = true ->
  Json.parse_value (S fuel) (Json.TLBracket :: t :: r)
  = match Json.parse_items fuel (t :: r) with
    | Some (vs, r') => Some (VList vs, r')
    | None => None
    end.
Proof. destruct t; try discriminate; reflexivity. Qed.

Lemma parse_open_dict fuel t r :
  value_start t = true ->
  Json.parse_value (S fuel) (Json.TLBrace :: t :: r)
  = match Json.parse_members fuel (t :: r) with
    | Some (d, r') => Some (VDict (Json.of_pairs d), r')
    | None => None
    end.
Proof. destruct t; try discriminate; reflexivity. Qed.

(** What the parser owes for a value: its tokens, followed by anything, are
    read back as the value. *)
Definition reads_back (v : pyval) : Prop :=
  forall fuel rest,
    (List.length (Json.dumps v) <= fuel)%nat ->
    Json.parse_value fuel (Json.dumps v ++ rest) = Some (v, rest).

Lemma parse_items_join l :
  l <> [] -> Forall reads_back l ->
  forall fuel rest,
    (List.length (Json.join_items Json.dumps l) + 1 <= fuel)%nat ->
    Json.parse_items fuel (Json.join_items Json.dumps l ++ Json.TRBracket :: rest)
    = Some (l, rest).
Proof.
  induction l as [| x l IH]; [congruence |]. intros _ Hall fuel rest Hf.
  inversion Hall as [| ? ? Hx Hl]; subst.
  destruct fuel as [| fuel]; [lia |].
  destruct l as [| y l].
  - cbn [Json.join_items] in *. cbn [Json.parse_items].
    rewrite Hx by lia. reflexivity.
  - change (Json.join_items Json.dumps (x :: y :: l))
      with (Json.dumps x ++ Json.TComma :: Json.join_items Json.dumps (y :: l))%list in *.
    rewrite length_app in Hf. cbn [List.length] in Hf.
    pose proof (dumps_length x).
    rewrite <- app_assoc, <- app_comm_cons. cbn [Json.parse_items].
    rewrite Hx by lia. cbv beta iota.
    rewrite (IH ltac:(congruence) Hl fuel rest) by lia. reflexivity.
Qed.

Definition member_tokens (kv : string * pyval) : list Json.token :=
  Json.TString (fst kv) :: Json.TColon :: Json.dumps (snd kv).

Lemma parse_members_join d :
  d <> [] -> Forall (fun kv => reads_back (snd kv)) d ->
  forall fuel rest,
    (List.length (Json.join_items member_tokens d) + 1 <= fuel)%nat ->
    Json.parse_members fuel (Json.join_items member_tokens d ++ Json.TRBrace :: rest)
    = Some (d, rest).
Proof.
  induction d as [| [k x] d IH]; [congruence |]. intros _ Hall fuel rest Hf.
  inversion Hall as [| ? ? Hx Hl]; subst. cbn [snd] in Hx.
  destruct fuel as [| fuel]; [lia |].
  destruct d as [| y d].
  - cbn [Json.join_items] in *. unfold member_tokens in *. cbn [fst snd] in *.
    rewrite <- !app_comm_cons. cbn [Json.parse_members]. cbn [List.length] in Hf.
    rewrite Hx by lia. reflexivity.
  - change (Json.join_items member_tokens ((k, x) :: y :: d))
      with (member_tokens (k, x) ++ Json.TComma :: Json.join_items member_tokens (y :: d))%list in *.
    unfold member_tokens at 1 in Hf. unfold member_tokens at 1.
    cbn [fst snd] in *.
    rewrite length_app in Hf. cbn [List.length] in Hf.
    rewrite <- app_assoc, <- !app_comm_cons.
    cbn [Json.parse_members].
    rewrite Hx by lia. cbv beta iota.
    rewrite (IH ltac:(congruence) Hl fuel rest) by lia. reflexivity.
Qed.

Lemma get_app {V} k (a b : list (string * V)) :
  get k (a ++ b) = match get k a with Some v => Some v | None => get k b end.
Proof.
  induction a as [| [k' v'] a IH]; cbn; [reflexivity |].
  destruct (k' =? k)%string; [reflexivity | exact IH].
Qed.

Lemma set_fresh {V} k (v : V) d :
  contains k d = false -> Py.set k v d = (d ++ [(k, v)])%list.
Proof.
  unfold contains. induction d as [| [k' v'] d IH]; cbn; [reflexivity |].
  destruct (k' =? k)%string; [discriminate |]. intros H. now rewrite IH.
Qed.

Lemma contains_In {V} (d : list (string * V)) kv :
  In kv d -> contains (fst kv) d = true.
Proof.
  unfold contains. induction d as [| [k' v'] d IH]; cbn; [tauto |].
  intros [<- | H]; cbn.
  - now rewrite String.eqb_refl.
  - destruct (k' =? fst kv)%string; [reflexivity | now apply IH].
Qed.

Lemma of_pairs_from (d acc : list (string * pyval)) :
  Json.nodup_keys d = true ->
  Forall (fun kv => contains (fst kv) acc = false) d ->
  fold_left (fun acc kv => Py.set (fst kv) (snd kv) acc) d acc = (acc ++ d)%list.
Proof.
  revert acc. induction d as [| [k v] d IH]; intros acc Hnd Hfresh; cbn.
  - now rewrite app_nil_r.
  - cbn in Hnd. apply andb_prop in Hnd as [Hk Hnd].
    apply negb_true_iff in Hk.
    inversion Hfresh as [| ? ? Hkacc Hrest]; subst. cbn in Hkacc.
    rewrite set_fresh by exact Hkacc.
    rewrite IH; [now rewrite <- app_assoc | exact Hnd |].
    rewrite Forall_forall in *. intros kv Hin.
    specialize (Hrest kv Hin). unfold contains in *.
    rewrite get_app. destruct (get (fst kv) acc); [discriminate |]. cbn.
    destruct (String.eqb_spec k (fst kv)) as [-> | _]; [| reflexivity].
    pose proof (contains_In d kv Hin) as Hc. unfold contains in Hc.
    destruct (get (fst kv) d); discriminate.
Qed.

(** A dict is what [dict(pairs)] builds from its own items. *)
Lemma of_pairs_nodup d : Json.nodup_keys d = true -> Json.of_pairs d = d.
Proof.
  intros H. unfold Json.of_pairs. rewrite of_pairs_from; [reflexivity | exact H |].
  apply Forall_forall. reflexivity.
Qed.

Lemma join_items_head {A} (f : A -> list Json.token) l :
  l <> [] ->
  (forall x, exists t r, f x = t :: r /\ value_start t = true) ->
  exists t r, Json.join_items f l = t :: r /\ value_start t = true.
Proof.
  intros Hl Hf. destruct l as [| x l]; [congruence |].
  destruct (Hf x) as (t & r & Hx & Ht).
  destruct l; cbn [Json.join_items]; rewrite Hx; do 2 eexists; split;
    try exact Ht; reflexivity.
Qed.

(** Every value is read back from its tokens. *)
Lemma parse_value_dumps v : Json.wf v = true -> reads_back v.
Proof.
  induction v as [| b | z | q | s | l IH | d IH] using pyval_nested_ind;
    intros Hwf fuel rest Hf;
    try (destruct fuel as [| fuel]; [cbn in Hf; lia | reflexivity]).
  - destruct b; (destruct fuel as [| fuel]; [cbn in Hf; lia | reflexivity]).
  - cbn [Json.wf] in Hwf.
    assert (Hall : Forall reads_back l).
    { rewrite forallb_forall in Hwf. rewrite Forall_forall in *.
      intros x Hx. apply IH; auto. }
    cbn [Json.dumps] in *. cbn [List.length] in Hf. rewrite length_app in Hf.
    cbn [List.length] in Hf.
    destruct fuel as [| fuel]; [lia |].
    destruct l as [| x l]; [reflexivity |].
    destruct (join_items_head Json.dumps (x :: l)) as (t & r & Hj & Ht);
      [congruence | apply dumps_head |].
    pose proof (parse_items_join (x :: l) ltac:(congruence) Hall fuel rest
                  ltac:(lia)) as Hp.
    rewrite <- app_comm_cons, <- app_assoc.
    change ([Json.TRBracket] ++ rest)%list with (Json.TRBracket :: rest).
    rewrite Hj in *. rewrite <- app_comm_cons in *.
    rewrite parse_open_list by exact Ht. now rewrite Hp.
  - cbn [Json.wf] in Hwf. apply andb_prop in Hwf as [Hnd Hwf].
    assert (Hall : Forall (fun kv => reads_back (snd kv)) d).
    { rewrite forallb_forall in Hwf. rewrite Forall_forall in *.
      intros x Hx. apply IH; auto. }
    change (Json.dumps (VDict d))
      with (Json.TLBrace :: Json.join_items member_tokens d ++ [Json.TRBrace])%list in *.
    cbn [List.length] in Hf. rewrite length_app in Hf. cbn [List.length] in Hf.
    destruct fuel as [| fuel]; [lia |].
    destruct d as [| x d]; [reflexivity |].
    destruct (join_items_head member_tokens (x :: d)) as (t & r & Hj & Ht);
      [congruence | intros kv; do 2 eexists; split; reflexivity |].
    pose proof (parse_members_join (x :: d) ltac:(congruence) Hall fuel rest
                  ltac:(lia)) as Hp.
    rewrite <- app_comm_cons, <- app_assoc.
    change ([Json.TRBrace] ++ rest)%list with (Json.TRBrace :: rest).
    rewrite Hj in *. rewrite <- app_comm_cons in *.
    rewrite parse_open_dict by exact Ht. rewrite Hp.
    now rewrite of_pairs_nodup.
Qed.

(** [json.load] after [json.dump] gives the value back. *)
Lemma loads_dumps v : Json.wf v = true -> Json.loads (Json.dumps v) = Some v.
Proof.
  intros Hwf. unfold Json.loads.
  pose proof (parse_value_dumps v Hwf (S (List.length (Json.dumps v))) []
                ltac:(lia)) as H.
  rewrite app_nil_r in H. now rewrite H.
Qed.

(** ** Loading the ledger *)

(** What loading does to a job: a job found [processing] is made [pending]
    again and its start time is dropped. *)
Definition reset (j : BatchJob.t) : BatchJob.t :=
  if (status j =? "processing")%string
  then set_started_at None (set_status "pending" j)
  else j.

Definition is_completed (j : BatchJob.t) : bool := (status j =? "completed")%string.

Definition is_failed (j : BatchJob.t) : bool :=
  ((status j =? "failed") || (status j =? "cancelled"))%string.

Definition is_queued (j : BatchJob.t) : bool :=
  negb (is_completed j) && negb (is_failed j).

(** The references [base], [base + 1], ... of the jobs that satisfy [f]. *)
Fixpoint refs_where (f : BatchJob.t -> bool) (base : nat) (js : list BatchJob.t)
  : list nat :=
  match js with
  | [] => []
  | j :: js' => (if f j then [base] else []) ++ refs_where f (S base) js'
  end.

(** A job as the constructor leaves it: [created_at] is not empty. *)
Definition stamped (j : BatchJob.t) : bool := truthy (created_at j).

Lemma post_init_stamped now j : stamped j = true -> __post_init__ now j = j.
Proof. unfold stamped, __post_init__. now intros ->. Qed.

(** Building a job from the dict of a job gives the job back. *)
Lemma of_dict_asdict now j :
  BatchJob_of_dict now (asdict j) = Some (__post_init__ now j).
Proof.
  destruct j as [i ip pr mo pa prio st ca sa co re em rc mr ec op].
  destruct sa, co, re, em, op; reflexivity.
Qed.

Lemma load_one_asdict now j p :
  stamped j = true ->
  load_one now (VDict (asdict j)) p
  = Some {| max_concurrent := max_concurrent p; save_progress := save_progress p;
            heap := heap p ++ [reset j];
            jobs := jobs p ++ (if is_queued j then [List.length (heap p)] else []);
            completed_jobs :=
              completed_jobs p ++ (if is_completed j then [List.length (heap p)] else []);
            failed_jobs :=
              failed_jobs p ++ (if is_failed j then [List.length (heap p)] else []);
            active_jobs := active_jobs p; stats := stats p |}.
Proof.
  intros Hs. unfold load_one. rewrite of_dict_asdict, post_init_stamped by exact Hs.
  cbn [obind]. unfold is_queued, is_completed, is_failed, reset.
  destruct p as [mc sp h js cs fs0 aj st]. cbn.
  destruct (status j =? "completed")%string eqn:Ec; cbn.
  - apply String.eqb_eq in Ec. rewrite Ec. cbn. now rewrite !app_nil_r.
  - destruct ((status j =? "failed") || (status j =? "cancelled"))%string eqn:Ef; cbn.
    + assert (Hp : (status j =? "processing")%string = false).
      { apply orb_prop in Ef as [E | E]; apply String.eqb_eq in E; now rewrite E. }
      rewrite Hp. now rewrite !app_nil_r.
    + now rewrite !app_nil_r.
Qed.

Lemma load_loop_asdict js :
  forall now p,
    forallb stamped js = true ->
    load_loop now (map (fun j => VDict (asdict j)) js) p
    = ({| max_concurrent := max_concurrent p; save_progress := save_progress p;
          heap := heap p ++ map reset js;
          jobs := jobs p ++ refs_where is_queued (List.length (heap p)) js;
          completed_jobs :=
            completed_jobs p ++ refs_where is_completed (List.length (heap p)) js;
          failed_jobs :=
            failed_jobs p ++ refs_where is_failed (List.length (heap p)) js;
          active_jobs := active_jobs p; stats := stats p |}, true).
Proof.
  induction js as [| j js IH]; intros now p Hs.
  - cbn. rewrite !app_nil_r. now destruct p.
  - cbn [forallb] in Hs. apply andb_prop in Hs as [Hj Hs].
    cbn [map load_loop]. rewrite load_one_asdict by exact Hj.
    rewrite IH by exact Hs. cbn [heap jobs completed_jobs failed_jobs
                                 max_concurrent save_progress active_jobs stats].
    rewrite length_app. cbn [List.length]. rewrite Nat.add_1_r.
    cbn [refs_where map]. now rewrite <- !app_assoc.
Qed.

Lemma objects_app h refs1 refs2 :
  objects h (refs1 ++ refs2) = (objects h refs1 ++ objects h refs2)%list.
Proof. unfold objects. apply flat_map_app. Qed.

Lemma objects_refs_where (g : BatchJob.t -> BatchJob.t) f js :
  forall pre,
    objects (pre ++ map g js) (refs_where f (List.length pre) js)
    = map g (filter f js).
Proof.
  induction js as [| j js IH]; intros pre; [reflexivity |].
  cbn [refs_where map filter]. rewrite objects_app.
  replace (pre ++ g j :: map g js)%list with ((pre ++ [g j]) ++ map g js)%list
    by now rewrite <- app_assoc.
  replace (S (List.length pre)) with (List.length (pre ++ [g j]))
    by (rewrite length_app; cbn; lia).
  rewrite IH. destruct (f j); [| reflexivity].
  cbn [objects flat_map]. rewrite app_nil_r.
  rewrite <- (app_assoc pre). cbn [List.app].
  rewrite nth_error_app2 by lia. now rewrite Nat.sub_diag.
Qed.

(** ** Saving the ledger *)

Lemma get_set_same {V} k (v : V) d : get k (Py.set k v d) = Some v.
Proof.
  induction d as [| [k' v'] d IH]; cbn.
  - now rewrite String.eqb_refl.
  - destruct (k' =? k)%string eqn:E; cbn; [now rewrite String.eqb_refl |].
    now rewrite E.
Qed.

Lemma get_set_other {V} k k' (v : V) d :
  k <> k' -> get k' (Py.set k v d) = get k' d.
Proof.
  intros Hne. induction d as [| [k0 v0] d IH]; cbn.
  - destruct (String.eqb_spec k k'); [contradiction | reflexivity].
  - destruct (String.eqb_spec k0 k) as [-> | Hk]; cbn.
    + destruct (String.eqb_spec k k'); [contradiction | reflexivity].
    + destruct (k0 =? k')%string; [reflexivity | exact IH].
Qed.

(** Writing chunks to an open file appends them and touches no other
    path. *)
Lemma run_writes f ts :
  forall w content,
    get f w = Some content ->
    get f (run_ops w (map (Write f) ts)) = Some (content ++ ts)%list
    /\ forall k, k <> f -> get k (run_ops w (map (Write f) ts)) = get k w.
Proof.
  unfold run_ops.
  induction ts as [| c ts IH]; intros w content Hw; cbn [map fold_left].
  - rewrite app_nil_r. auto.
  - change (run_op w (Write f c))
      with (Py.set f (get_default f [] w ++ [c])%list w).
    assert (Hd : get_default f [] w = content).
    { unfold get_default. unfold file in *. now rewrite Hw. }
    rewrite Hd.
    destruct (IH (Py.set f (content ++ [c])%list w) (content ++ [c])%list
                (get_set_same _ _ _)) as [H1 H2].
    split.
    + rewrite H1. now rewrite <- app_assoc.
    + intros k Hk. rewrite H2 by exact Hk. apply get_set_other. congruence.
Qed.

Lemma run_ops_app w ops1 ops2 :
  run_ops w (ops1 ++ ops2) = run_ops (run_ops w ops1) ops2.
Proof. unfold run_ops. apply fold_left_app. Qed.

(** After a complete save the ledger file holds the dump of the ledger and
    every other path is as before. *)
Lemma save_content now p w :
  save_progress p = true ->
  get batch_file (save now p w) = Some (Json.dumps (ledger_data now p))
  /\ forall k, k <> batch_file -> get k (save now p w) = get k w.
Proof.
  intros Hs. unfold save, _save_batch_data. rewrite Hs. cbn [negb].
  rewrite run_ops_app. cbn [List.app].
  change (run_ops w (Open_w batch_file :: ?ops))
    with (run_ops (Py.set batch_file [] w) ops).
  destruct (run_writes batch_file (Json.dumps (ledger_data now p))
              (Py.set batch_file [] w) [] (get_set_same _ _ _)) as [H1 H2].
  cbn [run_ops fold_left run_op]. split.
  - exact H1.
  - intros k Hk. rewrite H2 by exact Hk. apply get_set_other. congruence.
Qed.

(** ** Saving and loading again *)

(** The dicts of a job stand for Python dicts. *)
Definition wf_job (j : BatchJob.t) : bool :=
  Json.wf (VDict (parameters j))
  && Json.wf (enc_opt VDict (result j))
  && Json.wf (enc_opt VDict (output_paths j)).

Lemma wf_asdict j : wf_job j = true -> Json.wf (VDict (asdict j)) = true.
Proof.
  unfold wf_job. intros H.
  apply andb_prop in H as [H H3]. apply andb_prop in H as [H1 H2].
  destruct j as [i ip pr mo pa prio st ca sa co re em rc mr ec op].
  destruct sa, co, em, re, op; cbn in *; rewrite ?H1, ?H2, ?H3; reflexivity.
Qed.

Lemma wf_ledger now p :
  forallb wf_job (objects (heap p) (jobs p ++ completed_jobs p ++ failed_jobs p)) = true ->
  Json.wf (ledger_data now p) = true.
Proof.
  intros H. unfold ledger_data.
  set (all := objects (heap p) (jobs p ++ completed_jobs p ++ failed_jobs p)) in *.
  cbn [Json.wf Json.nodup_keys forallb snd].
  replace (forallb Json.wf (map (fun j => VDict (asdict j)) all)) with true.
  - destruct (stats p); reflexivity.
  - symmetry. rewrite forallb_forall in *. intros v Hv.
    apply in_map_iff in Hv as (j & <- & Hj). apply wf_asdict. now apply H.
Qed.

Lemma update_stats_to_dict s s0 : update_stats (Stats.to_dict s) s0 = Some s.
Proof. destruct s. reflexivity. Qed.

Lemma reset_not_processing f l :
  (forall j, f j = true -> (status j =? "processing")%string = false) ->
  map reset (filter f l) = filter f l.
Proof.
  intros Hf. induction l as [| j l IH]; [reflexivity |]. cbn [filter].
  destruct (f j) eqn:E; [| exact IH]. cbn [map]. rewrite IH.
  unfold reset. now rewrite (Hf j E).
Qed.

(** Saving a ledger and starting a new processor on the file gives the
    jobs back, filed by status: the queue holds the jobs that were neither
    completed nor failed nor cancelled, those found [processing] made
    [pending] with no start time and all others unchanged; the completed and
    the failed or cancelled jobs are unchanged in their lists; the
    statistics are those saved. *)
Theorem ledger_round_trip (now : string) (clock : nat -> string)
  (p : BatchProcessor.t) (w : fs) (mc : Z) (sp : bool) :
  save_progress p = true ->
  forallb stamped (objects (heap p) (jobs p ++ completed_jobs p ++ failed_jobs p)) = true ->
  forallb wf_job (objects (heap p) (jobs p ++ completed_jobs p ++ failed_jobs p)) = true ->
  let all := objects (heap p) (jobs p ++ completed_jobs p ++ failed_jobs p) in
  let p' := __init__ clock (save now p w) mc sp in
  objects (heap p') (jobs p') = map reset (filter is_queued all)
  /\ objects (heap p') (completed_jobs p') = filter is_completed all
  /\ objects (heap p') (failed_jobs p') = filter is_failed all
  /\ heap p' = map reset all
  /\ stats p' = stats p
  /\ max_concurrent p' = mc /\ save_progress p' = sp /\ active_jobs p' = [].
Proof.
  intros Hsave Hst Hwf all p'. subst p'.
  unfold __init__, _load_batch_data.
  destruct (save_content now p w Hsave) as [Hfile _].
  unfold file, fs in *. rewrite Hfile.
  rewrite loads_dumps by now apply wf_ledger.
  unfold ledger_data. fold all.
  cbn [get String.eqb Ascii.eqb Bool.eqb iter_jobs].
  rewrite load_loop_asdict by exact Hst.
  rewrite update_stats_to_dict.
  cbn [heap jobs completed_jobs failed_jobs stats fresh with_stats
         max_concurrent save_progress active_jobs List.app List.length].
  change (map reset all) with ([] ++ map reset all)%list.
  change 0%nat with (@List.length BatchJob.t []).
  rewrite !objects_refs_where.
  repeat split.
  - rewrite (reset_not_processing is_completed); [reflexivity |].
    unfold is_completed. intros j E. apply String.eqb_eq in E. now rewrite E.
  - rewrite (reset_not_processing is_failed); [reflexivity |].
    unfold is_failed. intros j E.
    apply orb_prop in E as [E | E]; apply String.eqb_eq in E; now rewrite E.
Qed.

Lemma ledger_round_trip_witness :
  let p' := __init__ Sample.clock (save "2024-01-01T12:03:00" Sample.mid_run Sample.images)
              3 true in
  map status (objects (heap p') (jobs p')) = ["pending"; "pending"]
  /\ map started_at (objects (heap p') (jobs p')) = [None; None]
  /\ map status (objects (heap p') (completed_jobs p')) = ["completed"]
  /\ map status (objects (heap p') (failed_jobs p')) = ["cancelled"].
Proof.
  pose proof (ledger_round_trip "2024-01-01T12:03:00" Sample.clock Sample.mid_run
                Sample.images 3 true eq_refl eq_refl eq_refl)
    as (H1 & H2 & H3 & _).
  cbv zeta in *. rewrite H1, H2, H3. repeat split.
Defined.

(** ** What a new processor holds, whatever the file *)

Definition in_range (p : BatchProcessor.t) (refs : list nat) : Prop :=
  Forall (fun r => (r < List.length (heap p))%nat) refs.

(** The lists are filed by status and no job is [processing]. *)
Definition filed (p : BatchProcessor.t) : Prop :=
  in_range p (jobs p) /\ in_range p (completed_jobs p) /\ in_range p (failed_jobs p)
  /\ forallb is_queued (objects (heap p) (jobs p)) = true
  /\ forallb is_completed (objects (heap p) (completed_jobs p)) = true
  /\ forallb is_failed (objects (heap p) (failed_jobs p)) = true
  /\ forallb (fun j => negb (status j =? "processing")%string) (heap p) = true.

Lemma objects_snoc_old (h : list BatchJob.t) j refs :
  Forall (fun r => (r < List.length h)%nat) refs ->
  objects (h ++ [j]) refs = objects h refs.
Proof.
  induction 1 as [| r refs Hr _ IH]; [reflexivity |].
  cbn [objects flat_map]. unfold objects in IH. rewrite IH.
  now rewrite nth_error_app1 by exact Hr.
Qed.

Lemma objects_snoc_new (h : list BatchJob.t) j :
  objects (h ++ [j]) [List.length h] = [j].
Proof.
  cbn [objects flat_map]. rewrite nth_error_app2 by lia.
  now rewrite Nat.sub_diag.
Qed.

Lemma in_range_snoc (h : list BatchJob.t) j refs :
  Forall (fun r => (r < List.length h)%nat) refs ->
  Forall (fun r => (r < List.length (h ++ [j]))%nat) refs.
Proof.
  intros H. eapply Forall_impl; [| exact H]. cbn. intros r Hr.
  rewrite length_app. cbn. lia.
Qed.

Lemma in_range_new (h : list BatchJob.t) j refs :
  Forall (fun r => (r < List.length h)%nat) refs ->
  Forall (fun r => (r < List.length (h ++ [j]))%nat) (refs ++ [List.length h]).
Proof.
  intros H. apply Forall_app. split; [now apply in_range_snoc |].
  constructor; [| constructor]. rewrite length_app. cbn. lia.
Qed.

Lemma forallb_snoc {A} (f : A -> bool) l x :
  forallb f (l ++ [x]) = forallb f l && f x.
Proof. rewrite forallb_app. cbn. now rewrite andb_true_r. Qed.

Lemma load_one_filed now e p p' :
  filed p -> load_one now e p = Some p' -> filed p'.
Proof.
  unfold filed, in_range. intros (Rj & Rc & Rf & Hj & Hc & Hf & Hp) H.
  destruct e as [| | | | | | d]; try discriminate. cbn [load_one] in H.
  destruct (BatchJob_of_dict now d) as [j |]; [| discriminate]. cbn [obind] in H.
  destruct (status j =? "completed")%string eqn:Ec.
  - injection H as <-. cbn [heap jobs completed_jobs failed_jobs with_heap
                              with_completed_jobs].
    rewrite objects_app, objects_snoc_new, !objects_snoc_old by assumption.
    rewrite !forallb_snoc, Hj, Hc, Hf, Hp. unfold is_completed. rewrite Ec.
    apply String.eqb_eq in Ec. rewrite Ec.
    repeat split; auto using in_range_snoc, in_range_new.
  - destruct ((status j =? "failed") || (status j =? "cancelled"))%string eqn:Ef.
    + injection H as <-. cbn [heap jobs completed_jobs failed_jobs with_heap
                                with_failed_jobs].
      rewrite objects_app, objects_snoc_new, !objects_snoc_old by assumption.
      rewrite !forallb_snoc, Hj, Hc, Hf, Hp. unfold is_failed. rewrite Ef.
      assert (Hn : (status j =? "processing")%string = false).
      { apply orb_prop in Ef as [E | E]; apply String.eqb_eq in E; now rewrite E. }
      rewrite Hn. repeat split; auto using in_range_snoc, in_range_new.
    + injection H as <-. cbn [heap jobs completed_jobs failed_jobs with_heap
                                with_jobs].
      rewrite objects_app, objects_snoc_new, !objects_snoc_old by assumption.
      rewrite !forallb_snoc, Hj, Hc, Hf, Hp. unfold is_queued, is_completed, is_failed.
      destruct (status j =? "processing")%string eqn:Ep.
      * cbn. repeat split; auto using in_range_snoc, in_range_new.
      * rewrite Ec, Ef, Ep. cbn. repeat split; auto using in_range_snoc, in_range_new.
Qed.

Lemma load_loop_filed entries :
  forall now p, filed p -> filed (fst (load_loop now entries p)).
Proof.
  induction entries as [| e entries IH]; intros now p Hp; [exact Hp |].
  cbn [load_loop].
  destruct (load_one (now (List.length (heap p))) e p) as [p' |] eqn:E.
  - apply IH. eapply load_one_filed; eassumption.
  - exact Hp.
Qed.

Lemma filed_with_stats s p : filed p -> filed (with_stats s p).
Proof. now destruct p. Qed.

Lemma load_filed now w p : filed p -> filed (_load_batch_data now w p).
Proof.
  intros Hp. unfold _load_batch_data.
  destruct (get batch_file w) as [content |]; [| exact Hp].
  destruct (Json.loads content) as [[| | | | | | data] |]; try exact Hp.
  destruct (iter_jobs (get "jobs" data)) as [entries |]; [| exact Hp].
  pose proof (load_loop_filed entries now p Hp) as H.
  destruct (load_loop now entries p) as [p' ok]. cbn [fst] in H.
  destruct ok; [| exact H].
  destruct (get "stats" data) as [[| | | | | | d] |]; try exact H.
  destruct (update_stats d (stats p')); [now apply filed_with_stats | exact H].
Qed.

(** Whatever the ledger file holds (nothing, an unreadable text, jobs in
    any status), a new processor has no job in status [processing]; its
    queue holds no completed, failed or cancelled job, [completed_jobs] only
    completed ones and [failed_jobs] only failed or cancelled ones. *)
Theorem new_processor_filed (clock : nat -> string) (w : fs) (mc : Z) (sp : bool) :
  let p := __init__ clock w mc sp in
  forallb (fun j => negb (status j =? "processing")%string) (heap p) = true
  /\ forallb is_queued (objects (heap p) (jobs p)) = true
  /\ forallb is_completed (objects (heap p) (completed_jobs p)) = true
  /\ forallb is_failed (objects (heap p) (failed_jobs p)) = true.
Proof.
  cbv zeta. unfold __init__.
  assert (H0 : filed (fresh mc sp)).
  { unfold filed, in_range. cbn. repeat split; constructor. }
  destruct (load_filed clock w _ H0) as (_ & _ & _ & Hj & Hc & Hf & Hp).
  auto.
Qed.

(** ** A save that is interrupted *)

Lemma run_closes f w k : run_ops w (firstn k [Close f]) = w.
Proof. destruct k as [| [| k]]; reflexivity. Qed.

(** The state of the files after the first [k + 1] calls of a save. *)
Lemma save_prefix (now : string) (p : BatchProcessor.t) (w : fs) (k : nat) :
  save_progress p = true ->
  get batch_file (run_ops w (firstn (S k) (_save_batch_data now p)))
  = Some (firstn k (Json.dumps (ledger_data now p)))
  /\ forall path, path <> batch_file ->
       get path (run_ops w (firstn (S k) (_save_batch_data now p))) = get path w.
Proof.
  intros Hs. unfold _save_batch_data. rewrite Hs. cbn [negb].
  set (ts := Json.dumps (ledger_data now p)). clearbody ts.
  cbn [List.app firstn]. rewrite firstn_app, firstn_map, length_map.
  change (run_ops w (Open_w batch_file :: ?ops))
    with (run_ops (Py.set batch_file [] w) ops).
  rewrite run_ops_app, run_closes.
  destruct (run_writes batch_file (firstn k ts) (Py.set batch_file [] w) []
              (get_set_same _ _ _)) as [H1 H2].
  split; [exact H1 |].
  intros path Hp. rewrite H2 by exact Hp. apply get_set_other. congruence.
Qed.

(** [_save_batch_data] writes the ledger file in place: every call it makes
    is on the ledger file and none is a replace; after its first [k + 1]
    calls the ledger file holds the first [k] chunks of the new dump (the
    previous content is gone from the first call on), and no other path has
    changed. *)
Theorem save_writes_in_place (now : string) (p : BatchProcessor.t) (w : fs) (k : nat) :
  save_progress p = true ->
  let ops := _save_batch_data now p in
  forallb (fun o => (path_of o =? batch_file)%string && negb (is_replace o)) ops = true
  /\ get batch_file (run_ops w (firstn (S k) ops))
     = Some (firstn k (Json.dumps (ledger_data now p)))
  /\ forall path, path <> batch_file ->
       get path (run_ops w (firstn (S k) ops)) = get path w.
Proof.
  intros Hs. cbv zeta. split; [| now apply save_prefix].
  unfold _save_batch_data. rewrite Hs. cbn [negb].
  set (ts := Json.dumps (ledger_data now p)). clearbody ts.
  cbn [List.app forallb path_of is_replace]. rewrite forallb_app.
  cbn. rewrite andb_true_r.
  induction ts as [| c ts IH]; [reflexivity | exact IH].
Qed.

Lemma save_writes_in_place_witness :
  get batch_file
    (run_ops [(batch_file, [Json.TLBrace; Json.TRBrace])]
       (firstn 1 (_save_batch_data "2024-01-01T12:03:00" Sample.mid_run)))
  = Some [].
Proof.
  exact (proj1 (proj2 (save_writes_in_place "2024-01-01T12:03:00" Sample.mid_run
                         [(batch_file, [Json.TLBrace; Json.TRBrace])] 0 eq_refl))).
Defined.

(** ** A ledger file that was cut short *)

Lemma parse_items_nil fuel : Json.parse_items fuel [] = None.
Proof. destruct fuel as [| [| fuel]]; reflexivity. Qed.

Lemma parse_members_nil fuel : Json.parse_members fuel [] = None.
Proof. destruct fuel; reflexivity. Qed.

(** More fuel does not change what the parser reads. *)
Lemma parse_more_fuel_step fuel :
  (forall ts r, Json.parse_value fuel ts = Some r ->
                Json.parse_value (S fuel) ts = Some r)
  /\ (forall ts r, Json.parse_items fuel ts = Some r ->
                   Json.parse_items (S fuel) ts = Some r)
  /\ (forall ts r, Json.parse_members fuel ts = Some r ->
                   Json.parse_members (S fuel) ts = Some r).
Proof.
  induction fuel as [| fuel (IHv & IHi & IHm)].
  - repeat split; intros ts r H; discriminate H.
  - split; [| split]; intros ts r H.
    + destruct ts as [| t ts]; [discriminate H |].
      destruct t; try exact H.
      * destruct ts as [| t2 ts2].
        { cbn [Json.parse_value] in H. rewrite parse_members_nil in H. discriminate H. }
        destruct t2; try exact H;
          cbn [Json.parse_value] in H |- *;
          match type of H with
          | match ?e with _ => _ end = _ =>
              destruct e as [[d r'] |] eqn:E; [| discriminate H];
              rewrite (IHm _ _ E); exact H
          end.
      * destruct ts as [| t2 ts2].
        { cbn [Json.parse_value] in H. rewrite parse_items_nil in H. discriminate H. }
        destruct t2; try exact H;
          cbn [Json.parse_value] in H |- *;
          match type of H with
          | match ?e with _ => _ end = _ =>
              destruct e as [[d r'] |] eqn:E; [| discriminate H];
              rewrite (IHi _ _ E); exact H
          end.
    + cbn [Json.parse_items] in H.
      change (Json.parse_items (S (S fuel)) ts)
        with (match Json.parse_value (S fuel) ts with
              | Some (v, Json.TComma :: r0) =>
                  match Json.parse_items (S fuel) r0 with
                  | Some (vs, r') => Some (v :: vs, r')
                  | None => None
                  end
              | Some (v, Json.TRBracket :: r0) => Some ([v], r0)
              | _ => None
              end).
      destruct (Json.parse_value fuel ts) as [[v rest] |] eqn:Ev; [| discriminate H].
      rewrite (IHv _ _ Ev).
      destruct rest as [| t rest]; [discriminate H |].
      destruct t; try discriminate H; [exact H |].
      destruct (Json.parse_items fuel rest) as [[vs r'] |] eqn:Ei; [| discriminate H].
      now rewrite (IHi _ _ Ei).
    + destruct ts as [| t ts]; [discriminate H |].
      destruct t; try discriminate H.
      destruct ts as [| t2 ts2]; [discriminate H |].
      destruct t2; try discriminate H.
      cbn [Json.parse_members] in H.
      change (Json.parse_members (S (S fuel)) (Json.TString s :: Json.TColon :: ts2))
        with (match Json.parse_value (S fuel) ts2 with
              | Some (v, Json.TComma :: r0) =>
                  match Json.parse_members (S fuel) r0 with
                  | Some (d, r'') => Some ((s, v) :: d, r'')
                  | None => None
                  end
              | Some (v, Json.TRBrace :: r0) => Some ([(s, v)], r0)
              | _ => None
              end).
      destruct (Json.parse_value fuel ts2) as [[v rest] |] eqn:Ev; [| discriminate H].
      rewrite (IHv _ _ Ev).
      destruct rest as [| t rest]; [discriminate H |].
      destruct t; try discriminate H; [exact H |].
      destruct (Json.parse_members fuel rest) as [[vs r'] |] eqn:Ei; [| discriminate H].
      now rewrite (IHm _ _ Ei).
Qed.

Lemma parse_more_fuel fuel fuel' ts r :
  (fuel <= fuel')%nat ->
  Json.parse_value fuel ts = Some r -> Json.parse_value fuel' ts = Some r.
Proof.
  induction 1 as [| fuel' _ IH]; [auto |].
  intros H. apply parse_more_fuel_step. auto.
Qed.

(** The parser looks only at the tokens it consumes: what follows them is
    handed back untouched. *)
Lemma parse_extend fuel :
  (forall ts v r s, Json.parse_value fuel ts = Some (v, r) ->
                    Json.parse_value fuel (ts ++ s) = Some (v, r ++ s)%list)
  /\ (forall ts v r s, Json.parse_items fuel ts = Some (v, r) ->
                       Json.parse_items fuel (ts ++ s) = Some (v, r ++ s)%list)
  /\ (forall ts v r s, Json.parse_members fuel ts = Some (v, r) ->
                       Json.parse_members fuel (ts ++ s) = Some (v, r ++ s)%list).
Proof.
  induction fuel as [| fuel (IHv & IHi & IHm)].
  - repeat split; intros ts v r s H; discriminate H.
  - split; [| split]; intros ts v r s H.
    + destruct ts as [| t ts]; [discriminate H |].
      destruct t; try discriminate H;
        try (cbn [Json.parse_value] in H; injection H as <- <-; reflexivity).
      * destruct ts as [| t2 ts2].
        { cbn [Json.parse_value] in H. rewrite parse_members_nil in H. discriminate H. }
        rewrite <- !app_comm_cons.
        destruct t2; try discriminate H;
          try (cbn [Json.parse_value] in H; injection H as <- <-; reflexivity);
          cbn [Json.parse_value] in H |- *;
          match type of H with
          | match ?e with _ => _ end = _ =>
              destruct e as [[d r'] |] eqn:E; [| discriminate H];
              rewrite app_comm_cons, (IHm _ _ _ s E);
              injection H as <- <-; reflexivity
          end.
      * destruct ts as [| t2 ts2].
        { cbn [Json.parse_value] in H. rewrite parse_items_nil in H. discriminate H. }
        rewrite <- !app_comm_cons.
        destruct t2; try discriminate H;
          try (cbn [Json.parse_value] in H; injection H as <- <-; reflexivity);
          cbn [Json.parse_value] in H |- *;
          match type of H with
          | match ?e with _ => _ end = _ =>
              destruct e as [[d r'] |] eqn:E; [| discriminate H];
              rewrite app_comm_cons, (IHi _ _ _ s E);
              injection H as <- <-; reflexivity
          end.
    + cbn [Json.parse_items] in H |- *.
      destruct (Json.parse_value fuel ts) as [[v0 rest] |] eqn:Ev; [| discriminate H].
      rewrite (IHv _ _ _ s Ev).
      destruct rest as [| t rest]; [discriminate H |].
      rewrite <- app_comm_cons.
      destruct t; try discriminate H.
      * injection H as <- <-. reflexivity.
      * destruct (Json.parse_items fuel rest) as [[vs r'] |] eqn:Ei; [| discriminate H].
        rewrite (IHi _ _ _ s Ei). injection H as <- <-. reflexivity.
    + destruct ts as [| t ts]; [discriminate H |].
      destruct t; try discriminate H.
      destruct ts as [| t2 ts2]; [discriminate H |].
      destruct t2; try discriminate H.
      rewrite <- !app_comm_cons.
      cbn [Json.parse_members] in H |- *.
      destruct (Json.parse_value fuel ts2) as [[v0 rest] |] eqn:Ev; [| discriminate H].
      rewrite (IHv _ _ _ s Ev).
      destruct rest as [| t rest]; [discriminate H |].
      rewrite <- app_comm_cons.
      destruct t; try discriminate H.
      * injection H as <- <-. reflexivity.
      * destruct (Json.parse_members fuel rest) as [[vs r'] |] eqn:Ei; [| discriminate H].
        rewrite (IHm _ _ _ s Ei). injection H as <- <-. reflexivity.
Qed.

(** No proper beginning of a dump is a JSON text: [json.load] fails on the
    first [k] chunks of a dump of more than [k] chunks. *)
Lemma loads_truncated v k :
  Json.wf v = true ->
  (k < List.length (Json.dumps v))%nat ->
  Json.loads (firstn k (Json.dumps v)) = None.
Proof.
  intros Hwf Hk. unfold Json.loads.
  destruct (Json.parse_value (S (List.length (firstn k (Json.dumps v))))
              (firstn k (Json.dumps v))) as [[v' [| t r]] |] eqn:E; try reflexivity.
  exfalso.
  set (fuel := S (List.length (Json.dumps v))).
  assert (E' : Json.parse_value fuel (firstn k (Json.dumps v)) = Some (v', [])).
  { eapply parse_more_fuel; [| exact E]. subst fuel. rewrite length_firstn. lia. }
  apply (proj1 (parse_extend fuel)) with (s := skipn k (Json.dumps v)) in E'.
  rewrite firstn_skipn in E'. cbn [List.app] in E'.
  pose proof (parse_value_dumps v Hwf fuel [] ltac:(subst fuel; lia)) as Hfull.
  rewrite app_nil_r in Hfull. rewrite Hfull in E'.
  injection E' as _ Hskip.
  apply (f_equal (@List.length _)) in Hskip. rewrite length_skipn in Hskip.
  cbn in Hskip. lia.
Qed.

(** A processor started on the file that an interrupted save left behind
    is empty: the first [k + 1] file calls of a save that needs more leave
    a text that [json.load] rejects, the exception is caught, and no job of
    the ledger, old or new, is loaded. *)
Theorem interrupted_save_loses_ledger (now : string) (clock : nat -> string)
  (p : BatchProcessor.t) (w : fs) (k : nat) (mc : Z) (sp : bool) :
  save_progress p = true ->
  forallb wf_job (objects (heap p) (jobs p ++ completed_jobs p ++ failed_jobs p)) = true ->
  (k < List.length (Json.dumps (ledger_data now p)))%nat ->
  __init__ clock (run_ops w (firstn (S k) (_save_batch_data now p))) mc sp
  = fresh mc sp.
Proof.
  intros Hs Hwf Hk. unfold __init__, _load_batch_data.
  destruct (save_prefix now p w k Hs) as (Hfile & _).
  unfold file, fs in *. rewrite Hfile.
  now rewrite loads_truncated by (try apply wf_ledger; assumption).
Qed.

Lemma interrupted_save_loses_ledger_witness :
  __init__ Sample.clock
    (run_ops (save "2024-01-01T12:02:00" Sample.mid_run Sample.images)
       (firstn 11 (_save_batch_data "2024-01-01T12:03:00" Sample.mid_run)))
    3 true
  = fresh 3 true.
Proof.
  apply (interrupted_save_loses_ledger "2024-01-01T12:03:00" Sample.clock
           Sample.mid_run _ 10 3 true eq_refl eq_refl).
  vm_compute. lia.
Defined.

(** ** Removing a job *)

Lemma nth_error_update_eq {A} r (f : A -> A) h :
  nth_error (update r f h) r = option_map f (nth_error h r).
Proof.
  revert r. induction h as [| x h IH]; intros [| r]; cbn; auto.
Qed.

Lemma nth_error_update_ne {A} r r' (f : A -> A) h :
  r <> r' -> nth_error (update r f h) r' = nth_error h r'.
Proof.
  revert r r'. induction h as [| x h IH]; intros [| r] [| r'] H; cbn; auto.
  congruence.
Qed.

Lemma length_update {A} r (f : A -> A) h :
  List.length (update r f h) = List.length h.
Proof. revert r. induction h as [| x h IH]; intros [| r]; cbn; auto. Qed.

Lemma length_pop {A} i (l : list A) :
  (i < List.length l)%nat -> S (List.length (pop i l)) = List.length l.
Proof.
  revert i. induction l as [| x l IH]; intros [| i] H; cbn in *; try lia.
  rewrite IH; lia.
Qed.

(** What the search of [remove_job] finds: the first position of the queue
    whose job has the id. *)
Lemma find_job_some h job_id refs :
  forall base i r,
    find_job h job_id refs base = Some (i, r) ->
    (base <= i)%nat
    /\ nth_error refs (i - base) = Some r
    /\ option_map id (nth_error h r) = Some job_id
    /\ forall k, (k < i - base)%nat ->
         match nth_error refs k with
         | Some r' => option_map id (nth_error h r') <> Some job_id
         | None => True
         end.
Proof.
  induction refs as [| r0 refs IH]; intros base i r H; [discriminate H |].
  cbn [find_job] in H.
  assert (Hrec : find_job h job_id refs (S base) = Some (i, r) ->
                 option_map id (nth_error h r0) <> Some job_id ->
                 (base <= i)%nat
                 /\ nth_error (r0 :: refs) (i - base) = Some r
                 /\ option_map id (nth_error h r) = Some job_id
                 /\ forall k, (k < i - base)%nat ->
                      match nth_error (r0 :: refs) k with
                      | Some r' => option_map id (nth_error h r') <> Some job_id
                      | None => True
                      end).
  { intros Hf Hne. destruct (IH _ _ _ Hf) as (Hle & Hn & Hid & Hfirst).
    replace (i - base)%nat with (S (i - S base)) by lia.
    repeat split; [lia | exact Hn | exact Hid |].
    intros [| k] Hk; cbn; [exact Hne | apply Hfirst; lia]. }
  destruct (nth_error h r0) as [j |] eqn:Ej.
  - destruct (String.eqb_spec (id j) job_id) as [Hid | Hne].
    + injection H as <- <-. rewrite Nat.sub_diag. cbn. rewrite Ej. cbn.
      repeat split; [lia | now rewrite Hid | intros k Hk; lia].
    + apply Hrec; [exact H |]. cbn. congruence.
  - apply Hrec; [exact H |]. cbn. discriminate.
Qed.

Lemma find_job_none h job_id refs :
  forall base,
    find_job h job_id refs base = None <->
    forall j, In j (objects h refs) -> id j <> job_id.
Proof.
  induction refs as [| r0 refs IH]; intros base; cbn [find_job objects flat_map].
  - split; [intros _ j [] | reflexivity].
  - fold (objects h refs).
    destruct (nth_error h r0) as [j0 |].
    + destruct (String.eqb_spec (id j0) job_id) as [Hid | Hne].
      * split; [discriminate |]. intros H. exfalso. apply (H j0); cbn; auto.
      * rewrite IH. cbn. split.
        -- intros H j [<- | Hj]; auto.
        -- intros H j Hj. apply H. auto.
    + rewrite IH. reflexivity.
Qed.

(** [remove_job] with an id that no job of the queue has: it answers
    [False], nothing is changed and nothing is written, whatever the other
    lists hold. *)
Theorem remove_job_unknown (now saved_ : string) (w : fs) (p : BatchProcessor.t)
  (job_id : string) :
  (forall j, In j (objects (heap p) (jobs p)) -> id j <> job_id) ->
  remove_job now saved_ w p job_id
  = {| found := false; cancelled_task := None; after := p; files := w |}.
Proof.
  intros H. unfold remove_job.
  now rewrite (proj2 (find_job_none (heap p) job_id (jobs p) 0)).
Qed.

Lemma remove_job_unknown_witness :
  found (remove_job "2024-01-01T12:04:00" "2024-01-01T12:04:01" Sample.images
           Sample.mid_run "job_20240101_120000_001") = false.
Proof.
  rewrite remove_job_unknown; [reflexivity |].
  intros j [<- | [<- | []]]; discriminate.
Defined.

(** [remove_job] with the id of a queued job: the first such job of the
    queue gets status [cancelled] and the removal time as [completed_at],
    whatever its status was; it moves from the queue to the end of
    [failed_jobs]; no other job object changes; [cancelled_jobs] is counted
    up by one; and the task is cancelled only when the job was
    [processing]. *)
Theorem remove_job_cancels (now saved_ : string) (w : fs) (p : BatchProcessor.t)
  (job_id : string) (i r : nat) :
  find_job (heap p) job_id (jobs p) 0 = Some (i, r) ->
  let res := remove_job now saved_ w p job_id in
  nth_error (jobs p) i = Some r
  /\ option_map id (deref p r) = Some job_id
  /\ found res = true
  /\ deref (after res) r = option_map (cancel now) (deref p r)
  /\ option_map status (deref (after res) r) = Some "cancelled"
  /\ (forall r', r' <> r -> deref (after res) r' = deref p r')
  /\ jobs (after res) = pop i (jobs p)
  /\ S (List.length (jobs (after res))) = List.length (jobs p)
  /\ failed_jobs (after res) = (failed_jobs p ++ [r])%list
  /\ completed_jobs (after res) = completed_jobs p
  /\ Stats.cancelled_jobs (stats (after res)) = Stats.cancelled_jobs (stats p) + 1
  /\ (cancelled_task res <> None ->
      option_map status (deref p r) = Some "processing").
Proof.
  intros Hf. cbv zeta. unfold remove_job. rewrite Hf.
  destruct (find_job_some _ _ _ _ _ _ Hf) as (_ & Hn & Hid & _).
  rewrite Nat.sub_0_r in Hn. unfold deref in *.
  destruct (nth_error (heap p) r) as [j |] eqn:Ej; [| discriminate Hid].
  cbn [found after cancelled_task].
  set (p1 := match (if (status j =? "processing")%string
                    then get job_id (active_jobs p) else None) with
             | Some _ => with_active_jobs (del job_id (active_jobs p)) p
             | None => p
             end).
  assert (Hh : heap p1 = heap p /\ jobs p1 = jobs p
               /\ failed_jobs p1 = failed_jobs p
               /\ completed_jobs p1 = completed_jobs p /\ stats p1 = stats p).
  { subst p1. destruct (status j =? "processing")%string; [| auto].
    destruct (get job_id (active_jobs p)); auto. }
  destruct Hh as (Hh & Hj & Hfl & Hc & Hst).
  cbn [mutate with_heap with_jobs with_failed_jobs with_stats heap jobs
         failed_jobs completed_jobs stats Stats.cancelled_jobs].
  rewrite Hh, Hj, Hfl, Hc, Hst, nth_error_update_eq, Ej.
  repeat split; try reflexivity.
  - exact Hn.
  - exact Hid.
  - intros r' Hr. apply nth_error_update_ne. congruence.
  - apply length_pop. apply nth_error_Some. congruence.
  - destruct (status j =? "processing")%string eqn:E.
    + intros _. apply String.eqb_eq in E. cbn. now rewrite E.
    + intros H. now contradiction H.
Qed.

Lemma remove_job_cancels_witness :
  option_map status
    (deref (after (remove_job "2024-01-01T12:04:00" "2024-01-01T12:04:01" Sample.images
                     Sample.mid_run "job_20240101_120000_003")) 3)
  = Some "cancelled".
Proof.
  exact (proj1 (proj2 (proj2 (proj2 (proj2
           (remove_job_cancels "2024-01-01T12:04:00" "2024-01-01T12:04:01"
              Sample.images Sample.mid_run "job_20240101_120000_003" 1 3 eq_refl)))))).
Defined.

(** ** Clearing the queue *)

Lemma objects_cons h r refs :
  objects h (r :: refs)
  = (match nth_error h r with Some j => [j] | None => [] end ++ objects h refs)%list.
Proof. reflexivity. Qed.

Lemma objects_filter_status h s refs :
  objects h (filter (fun r => negb (has_status h s r)) refs)
  = filter (fun j => negb (status j =? s)%string) (objects h refs).
Proof.
  induction refs as [| r refs IH]; [reflexivity |].
  rewrite objects_cons, filter_app. cbn [filter]. unfold has_status at 1.
  destruct (nth_error h r) as [j |] eqn:E.
  - cbn [filter]. destruct (status j =? s)%string; cbn [negb List.app].
    + exact IH.
    + rewrite objects_cons, E, IH. reflexivity.
  - cbn [negb filter List.app]. rewrite objects_cons, E. exact IH.
Qed.

(** [clear_queue] never changes a job object and never adds a job to a
    list.  Without a filter (or with the empty one) the three lists are
    emptied and the statistics reset.  With ["pending"] exactly the pending
    jobs leave the queue, the others stay in order ([processing] ones
    included); with ["failed"] or ["completed"] that list is emptied; the
    statistics are kept in these three cases.  Any other filter, the status
    ["cancelled"] among them, changes nothing and writes nothing. *)
Theorem clear_queue_effect (saved_ : string) (w : fs) (p : BatchProcessor.t)
  (status_filter : option string) :
  let p' := fst (clear_queue saved_ w p status_filter) in
  let w' := snd (clear_queue saved_ w p status_filter) in
  heap p' = heap p
  /\ incl (jobs p') (jobs p)
  /\ incl (completed_jobs p') (completed_jobs p)
  /\ incl (failed_jobs p') (failed_jobs p)
  /\ match status_filter with
     | None | Some EmptyString =>
         jobs p' = [] /\ completed_jobs p' = [] /\ failed_jobs p' = []
         /\ stats p' = Stats.zero /\ w' = save saved_ p' w
     | Some f =>
         if (f =? "pending")%string then
           objects (heap p') (jobs p')
           = filter (fun j => negb (status j =? "pending")%string)
               (objects (heap p) (jobs p))
           /\ completed_jobs p' = completed_jobs p
           /\ failed_jobs p' = failed_jobs p
           /\ stats p' = stats p /\ w' = save saved_ p' w
         else if (f =? "failed")%string then
           failed_jobs p' = [] /\ jobs p' = jobs p
           /\ completed_jobs p' = completed_jobs p
           /\ stats p' = stats p /\ w' = save saved_ p' w
         else if (f =? "completed")%string then
           completed_jobs p' = [] /\ jobs p' = jobs p
           /\ failed_jobs p' = failed_jobs p
           /\ stats p' = stats p /\ w' = save saved_ p' w
         else p' = p /\ w' = w
     end.
Proof.
  cbv zeta. unfold clear_queue.
  destruct status_filter as [[| c f] |].
  - cbn. repeat split; try apply incl_nil_l.
  - destruct (String c f =? "pending")%string.
    + cbn [fst snd heap jobs completed_jobs failed_jobs stats with_jobs].
      repeat split; try apply incl_refl.
      * intros r Hr. apply filter_In in Hr. tauto.
      * apply objects_filter_status.
    + destruct (String c f =? "failed")%string.
      * cbn. repeat split; try apply incl_refl. apply incl_nil_l.
      * destruct (String c f =? "completed")%string.
        -- cbn. repeat split; try apply incl_refl. apply incl_nil_l.
        -- cbn. repeat split; apply incl_refl.
  - cbn. repeat split; try apply incl_nil_l.
Qed.

(** ** The order of the queue *)












(** ** The running batch *)

(** The slots held by all the tasks. *)
Definition total_held (ks : list task) : nat :=
  fold_right (fun k acc => (held k + acc)%nat) 0%nat ks.

Definition is_processing (j : BatchJob.t) : bool := (status j =? "processing")%string.

Definition is_generating (k : task) : bool :=
  match at_ k with
  | Generating => true
  | _ => false
  end.

(** Jobs of the queue that are different objects have different ids. *)
Definition unique_ids (p : BatchProcessor.t) : Prop :=
  forall r1 r2 j1 j2,
    In r1 (jobs p) -> In r2 (jobs p) ->
    deref p r1 = Some j1 -> deref p r2 = Some j2 ->
    id j1 = id j2 -> r1 = r2.

(** What holds of a running batch with limit [n]. *)
Record invariant (n : Z) (s : state) : Prop := {
  inv_value : 0 <= semaphore s;
  inv_slots : semaphore s + Z.of_nat (total_held (tasks s)) = n;
  inv_held : Forall (fun k => is_generating k = true -> (1 <= held k)%nat) (tasks s);
  inv_owner : forall r j,
      nth_error (heap (proc s)) r = Some j -> is_processing j = true ->
      exists k, In k (tasks s) /\ job_ref k = r /\ is_generating k = true;
  inv_refs : NoDup (map job_ref (tasks s));
  inv_active : forall job_id i,
      In (job_id, i) (active_jobs (proc s)) ->
      exists k j, nth_error (tasks s) i = Some k
                  /\ nth_error (heap (proc s)) (job_ref k) = Some j
                  /\ id j = job_id;
  inv_ids : forall i1 i2 k1 k2 j1 j2,
      nth_error (tasks s) i1 = Some k1 -> nth_error (tasks s) i2 = Some k2 ->
      nth_error (heap (proc s)) (job_ref k1) = Some j1 ->
      nth_error (heap (proc s)) (job_ref k2) = Some j2 ->
      id j1 = id j2 -> i1 = i2
}.

Lemma filter_positions {A} (f : A -> bool) (l : list A) :
  forall pre,
    List.length (filter f l)
    = List.length
        (filter (fun i => match nth_error (pre ++ l) i with
                          | Some x => f x
                          | None => false
                          end)
           (seq (List.length pre) (List.length l))).
Proof.
  induction l as [| x l IH]; intros pre; [reflexivity |].
  cbn [List.length seq filter].
  rewrite nth_error_app2 by lia. rewrite Nat.sub_diag. cbn [nth_error].
  specialize (IH (pre ++ [x])%list).
  rewrite <- app_assoc in IH. cbn [List.app] in IH.
  rewrite length_app in IH. cbn [List.length] in IH. rewrite Nat.add_1_r in IH.
  destruct (f x); cbn [List.length]; now rewrite IH.
Qed.

Lemma generating_held ks :
  Forall (fun k => is_generating k = true -> (1 <= held k)%nat) ks ->
  (List.length (filter is_generating ks) <= total_held ks)%nat.
Proof.
  induction 1 as [| k ks Hk _ IH]; cbn [filter total_held fold_right List.length];
    [lia |].
  fold (total_held ks).
  destruct (is_generating k); cbn [List.length]; [specialize (Hk eq_refl) |]; lia.
Qed.

(** Under the invariant the jobs in [processing] are at most as many as
    the slots held. *)
Lemma processing_le_held n s :
  invariant n s -> (processing s <= total_held (tasks s))%nat.
Proof.
  intros I. unfold processing. fold is_processing.
  rewrite (filter_positions is_processing (heap (proc s)) []).
  cbn [List.app List.length].
  set (P := filter _ (seq 0 (List.length (heap (proc s))))).
  apply Nat.le_trans with (List.length (filter is_generating (tasks s)));
    [| apply generating_held, (inv_held _ _ I)].
  rewrite <- (length_map job_ref).
  apply NoDup_incl_length.
  - apply NoDup_filter, seq_NoDup.
  - intros r Hr. subst P. apply filter_In in Hr as [_ Hr].
    destruct (nth_error (heap (proc s)) r) as [j |] eqn:E; [| discriminate].
    destruct (inv_owner _ _ I r j E Hr) as (k & Hk & <- & Hg).
    apply in_map. apply filter_In. auto.
Qed.

Lemma update_none {A} r (f : A -> A) h :
  nth_error h r = None -> update r f h = h.
Proof.
  revert r. induction h as [| x h IH]; intros [| r] H; cbn in *; try congruence.
  now rewrite IH.
Qed.

Lemma map_update {A B} (g : A -> B) i (f : A -> A) l k :
  nth_error l i = Some k -> g (f k) = g k -> map g (update i f l) = map g l.
Proof.
  revert i. induction l as [| x l IH]; intros [| i] H Hg; cbn in *; try congruence.
  now rewrite (IH i).
Qed.

Lemma total_held_update i g ks k :
  nth_error ks i = Some k ->
  (total_held (update i g ks) + held k = total_held ks + held (g k))%nat.
Proof.
  revert i. induction ks as [| x ks IH]; intros [| i] H; cbn in *; try congruence.
  - injection H as ->. lia.
  - specialize (IH i H). fold (total_held ks) in *.
    fold (total_held (update i g ks)) in *. lia.
Qed.

Lemma Forall_update {A} (P : A -> Prop) i g l :
  Forall P l -> (forall k, nth_error l i = Some k -> P (g k)) ->
  Forall P (update i g l).
Proof.
  intros H. revert i. induction H as [| x l Hx Hl IH]; intros [| i] Hg; cbn;
    constructor; auto.
Qed.

Lemma In_update_other {A B} (proj : A -> B) i g l k k' :
  nth_error l i = Some k -> In k' l -> proj k' <> proj k -> In k' (update i g l).
Proof.
  intros Hi Hin Hne. apply In_nth_error in Hin as [i' Hi'].
  apply nth_error_In with i'. rewrite nth_error_update_ne; [exact Hi' |].
  intros ->. congruence.
Qed.

Lemma nth_error_same_map {A B} (g : A -> B) l l' i k' :
  map g l' = map g l -> nth_error l' i = Some k' ->
  exists k, nth_error l i = Some k /\ g k = g k'.
Proof.
  intros Hm Hi.
  assert (H : nth_error (map g l) i = Some (g k')).
  { rewrite <- Hm. now apply map_nth_error. }
  rewrite nth_error_map in H.
  destruct (nth_error l i) as [k |]; [| discriminate H].
  exists k. split; [reflexivity |]. now injection H.
Qed.

(** The part of the invariant that only depends on which job a task works
    on, on the ids of the jobs, and on the entries of [active_jobs]. *)
Lemma invariant_next n s s' :
  invariant n s ->
  map job_ref (tasks s') = map job_ref (tasks s) ->
  (forall r, option_map id (nth_error (heap (proc s')) r)
             = option_map id (nth_error (heap (proc s)) r)) ->
  incl (active_jobs (proc s')) (active_jobs (proc s)) ->
  0 <= semaphore s' ->
  semaphore s' + Z.of_nat (total_held (tasks s')) = n ->
  Forall (fun k => is_generating k = true -> (1 <= held k)%nat) (tasks s') ->
  (forall r j,
      nth_error (heap (proc s')) r = Some j -> is_processing j = true ->
      exists k, In k (tasks s') /\ job_ref k = r /\ is_generating k = true) ->
  invariant n s'.
Proof.
  intros I Hrefs Hids Hact Hv Hs Hh Ho.
  assert (Hback : forall i k' j',
             nth_error (tasks s') i = Some k' ->
             nth_error (heap (proc s')) (job_ref k') = Some j' ->
             exists k j, nth_error (tasks s) i = Some k
                         /\ nth_error (heap (proc s)) (job_ref k) = Some j
                         /\ id j = id j').
  { intros i k' j' Hi Hj.
    destruct (nth_error_same_map job_ref _ _ _ _ Hrefs Hi) as (k & Hk & Hr).
    pose proof (Hids (job_ref k')) as Hid. rewrite Hj in Hid.
    destruct (nth_error (heap (proc s)) (job_ref k')) as [j |] eqn:Ej;
      [| discriminate Hid].
    exists k, j. rewrite Hr. repeat split; auto. cbn in Hid. congruence. }
  constructor; auto.
  - rewrite Hrefs. apply (inv_refs _ _ I).
  - intros job_id i Hin. apply Hact in Hin.
    destruct (inv_active _ _ I job_id i Hin) as (k & j & Hk & Hj & Hid).
    assert (Hk' : exists k', nth_error (tasks s') i = Some k' /\ job_ref k' = job_ref k).
    { symmetry in Hrefs.
      destruct (nth_error_same_map job_ref _ _ _ _ Hrefs Hk) as (k' & Hk' & Hr).
      eauto. }
    destruct Hk' as (k' & Hk' & Hr).
    pose proof (Hids (job_ref k)) as Hid'. rewrite Hj in Hid'.
    destruct (nth_error (heap (proc s')) (job_ref k)) as [j' |] eqn:Ej';
      [| discriminate Hid'].
    exists k', j'. rewrite Hr. repeat split; auto. cbn in Hid'. congruence.
  - intros i1 i2 k1 k2 j1 j2 H1 H2 Hj1 Hj2 Hid.
    destruct (Hback _ _ _ H1 Hj1) as (k1' & j1' & A1 & B1 & C1).
    destruct (Hback _ _ _ H2 Hj2) as (k2' & j2' & A2 & B2 & C2).
    apply (inv_ids _ _ I i1 i2 k1' k2' j1' j2'); auto. congruence.
Qed.

Lemma same_ids_update r f (h : list BatchJob.t) :
  (forall j, nth_error h r = Some j -> id (f j) = id j) ->
  forall r', option_map id (nth_error (update r f h) r')
             = option_map id (nth_error h r').
Proof.
  intros Hf r'. destruct (Nat.eq_dec r r') as [<- | Hne].
  - rewrite nth_error_update_eq. destruct (nth_error h r) as [j |]; [| reflexivity].
    cbn. now rewrite Hf.
  - now rewrite nth_error_update_ne.
Qed.

Lemma id_complete now res paths j : id (complete now res paths j) = id j.
Proof. unfold complete. destruct paths as [[| ? ?] |]; reflexivity. Qed.

Lemma status_complete now res paths j :
  status (complete now res paths j) = "completed".
Proof. unfold complete. destruct paths as [[| ? ?] |]; reflexivity. Qed.

Lemma on_exception_result auto now msg j :
  id (fst (on_exception auto now msg j)) = id j
  /\ is_processing (fst (on_exception auto now msg j)) = false.
Proof.
  unfold on_exception, retry.
  destruct (auto && can_retry (fail now msg j)) eqn:E; [| split; reflexivity].
  apply andb_prop in E as [_ E]. rewrite E. split; reflexivity.
Qed.

(** After the [try] block the job is never [processing], and it is the
    same job. *)
Lemma attempt_result auto now o j :
  id (fst (attempt auto now o j)) = id j
  /\ is_processing (fst (attempt auto now o j)) = false.
Proof.
  destruct o as [res paths | [[res paths] |] msg]; cbn [attempt fst].
  - rewrite id_complete. unfold is_processing. now rewrite status_complete.
  - destruct (on_exception_result auto now msg (complete now res (Some paths) j))
      as [H1 H2].
    rewrite H1, id_complete. auto.
  - apply on_exception_result.
Qed.

Lemma is_generating_set_point v k :
  is_generating (set_point v k) = match v with Generating => true | _ => false end.
Proof. reflexivity. Qed.

(** A task that is not generating stays an owner of nothing: changing it to
    another point that is not generating keeps the owners. *)
Lemma owners_kept (ks : list task) i g k (h : list BatchJob.t) :
  nth_error ks i = Some k ->
  is_generating k = false ->
  job_ref (g k) = job_ref k ->
  (forall r j, nth_error h r = Some j -> is_processing j = true ->
     exists k0, In k0 ks /\ job_ref k0 = r /\ is_generating k0 = true) ->
  forall r j, nth_error h r = Some j -> is_processing j = true ->
    exists k0, In k0 (update i g ks) /\ job_ref k0 = r /\ is_generating k0 = true.
Proof.
  intros Hk Hg Hr Ho r j Hj Hp.
  destruct (Ho r j Hj Hp) as (k0 & Hin & Hr0 & Hg0).
  exists k0. repeat split; auto.
  apply In_nth_error in Hin as [i0 Hi0].
  apply nth_error_In with i0. rewrite nth_error_update_ne; [exact Hi0 |].
  intros ->. congruence.
Qed.

Lemma step_acquire n s s' i now :
  invariant n s -> step (Acquire i now) s = Some s' -> invariant n s'.
Proof.
  intros I H. cbn [step] in H.
  destruct (nth_error (tasks s) i) as [k |] eqn:Ek; [| discriminate H].
  destruct (at_ k) eqn:Ea; try discriminate H.
  destruct (Z.ltb_spec 0 (semaphore s)) as [Hv |]; [| discriminate H].
  injection H as <-.
  apply invariant_next with s; auto;
    cbn [proc tasks semaphore with_proc with_semaphore with_tasks mutate
           with_heap heap active_jobs].
  - now apply map_update with k.
  - apply same_ids_update. reflexivity.
  - apply incl_refl.
  - lia.
  - pose proof (total_held_update i
                  (fun _ => {| job_ref := job_ref k; at_ := Generating;
                               held := S (held k) |}) _ _ Ek) as Ht.
    cbn [held] in Ht. pose proof (inv_slots _ _ I). lia.
  - apply Forall_update; [apply (inv_held _ _ I) |]. intros k0 _ _. cbn. lia.
  - intros r j Hj Hp. destruct (Nat.eq_dec (job_ref k) r) as [<- | Hne].
    + exists {| job_ref := job_ref k; at_ := Generating; held := S (held k) |}.
      repeat split. apply nth_error_In with i.
      rewrite nth_error_update_eq, Ek. reflexivity.
    + rewrite nth_error_update_ne in Hj by exact Hne.
      destruct (inv_owner _ _ I r j Hj Hp) as (k0 & Hin & Hr0 & Hg0).
      exists k0. repeat split; auto.
      apply (In_update_other job_ref) with k; auto. congruence.
Qed.

Lemma step_finish n s s' i now o :
  invariant n s -> step (Finish i now o) s = Some s' -> invariant n s'.
Proof.
  intros I H. cbn [step] in H.
  destruct (nth_error (tasks s) i) as [k |] eqn:Ek; [| discriminate H].
  destruct (at_ k) eqn:Ea; try discriminate H.
  unfold deref in H.
  destruct (nth_error (heap (proc s)) (job_ref k)) as [j0 |] eqn:Ej; [| discriminate H].
  destruct (attempt_result (auto_retry s) now o j0) as [Hid Hnp].
  destruct (attempt (auto_retry s) now o j0) as [job' delay].
  cbn [fst] in *. injection H as <-.
  set (next := match delay with Some d => Sleeping d | None => Leaving end).
  assert (Hnext : is_generating (set_point next k) = false)
    by (subst next; destruct delay; reflexivity).
  apply invariant_next with s; auto;
    cbn [proc tasks semaphore with_proc with_semaphore with_tasks mutate
           with_heap heap active_jobs].
  - now apply map_update with k.
  - apply same_ids_update. intros j Hj. congruence.
  - apply incl_refl.
  - apply (inv_value _ _ I).
  - pose proof (total_held_update i (set_point next) _ _ Ek) as Ht.
    cbn [held set_point] in Ht. pose proof (inv_slots _ _ I). lia.
  - apply Forall_update; [apply (inv_held _ _ I) |]. intros k0 Hk0.
    assert (k0 = k) by congruence. subst k0. rewrite Hnext. discriminate.
  - intros r j Hj Hp. destruct (Nat.eq_dec (job_ref k) r) as [<- | Hne].
    + rewrite nth_error_update_eq, Ej in Hj. cbn in Hj. congruence.
    + rewrite nth_error_update_ne in Hj by exact Hne.
      destruct (inv_owner _ _ I r j Hj Hp) as (k0 & Hin & Hr0 & Hg0).
      exists k0. repeat split; auto.
      apply (In_update_other job_ref) with k; auto. congruence.
Qed.

Lemma step_wake n s s' i :
  invariant n s -> step (Wake i) s = Some s' -> invariant n s'.
Proof.
  intros I H. cbn [step] in H.
  destruct (nth_error (tasks s) i) as [k |] eqn:Ek; [| discriminate H].
  destruct (at_ k) eqn:Ea; try discriminate H.
  injection H as <-.
  assert (Hk : is_generating k = false) by (unfold is_generating; now rewrite Ea).
  apply invariant_next with s; auto;
    cbn [proc tasks semaphore with_proc with_semaphore with_tasks].
  - now apply map_update with k.
  - apply incl_refl.
  - apply (inv_value _ _ I).
  - pose proof (total_held_update i (set_point Await_slot) _ _ Ek) as Ht.
    cbn [held set_point] in Ht. pose proof (inv_slots _ _ I). lia.
  - apply Forall_update; [apply (inv_held _ _ I) |]. intros k0 _. discriminate.
  - apply owners_kept with k; auto. apply (inv_owner _ _ I).
Qed.

Lemma step_leave n s s' i :
  invariant n s -> step (Leave i) s = Some s' -> invariant n s'.
Proof.
  intros I H. cbn [step] in H.
  destruct (nth_error (tasks s) i) as [k |] eqn:Ek; [| discriminate H].
  destruct (at_ k) eqn:Ea; try discriminate H.
  assert (Hk : is_generating k = false) by (unfold is_generating; now rewrite Ea).
  pose proof (inv_slots _ _ I) as Hs. pose proof (inv_value _ _ I) as Hv.
  destruct (held k) as [| m] eqn:Eh; injection H as <-.
  - apply invariant_next with s; auto;
      cbn [proc tasks semaphore with_proc with_semaphore with_tasks].
    + now apply map_update with k.
    + apply incl_refl.
    + pose proof (total_held_update i (set_point Done) _ _ Ek) as Ht.
      cbn [held set_point] in Ht. lia.
    + apply Forall_update; [apply (inv_held _ _ I) |]. intros k0 _. discriminate.
    + apply owners_kept with k; auto. apply (inv_owner _ _ I).
  - apply invariant_next with s; auto;
      cbn [proc tasks semaphore with_proc with_semaphore with_tasks].
    + now apply map_update with k.
    + apply incl_refl.
    + lia.
    + pose proof (total_held_update i
                    (fun _ => {| job_ref := job_ref k; at_ := Leaving; held := m |})
                    _ _ Ek) as Ht.
      cbn [held] in Ht. lia.
    + apply Forall_update; [apply (inv_held _ _ I) |]. intros k0 _. discriminate.
    + apply owners_kept with k; auto. apply (inv_owner _ _ I).
Qed.

Lemma get_In {V} k (v : V) d : get k d = Some v -> In (k, v) d.
Proof.
  induction d as [| [k' v'] d IH]; cbn; [discriminate |].
  destruct (String.eqb_spec k' k) as [-> | _].
  - intros H. injection H as ->. auto.
  - auto.
Qed.

Lemma incl_del {V} k (d : list (string * V)) : incl (del k d) d.
Proof.
  induction d as [| [k' v'] d IH]; cbn; [apply incl_refl |].
  destruct (k' =? k)%string.
  - apply incl_tl, incl_refl.
  - intros x [<- | Hx]; [now left | right; now apply IH].
Qed.

Lemma In_set {V} k (v : V) d x : In x (Py.set k v d) -> x = (k, v) \/ In x d.
Proof.
  induction d as [| [k' v'] d IH]; cbn.
  - intros [<- | []]. auto.
  - destruct (k' =? k)%string; cbn.
    + intros [<- | H]; auto.
    + intros [<- | H]; auto. destruct (IH H); auto.
Qed.

Lemma cancel_task_facts k :
  job_ref (cancel_task k) = job_ref k
  /\ held (cancel_task k) = held k
  /\ is_generating (cancel_task k) = false.
Proof.
  unfold cancel_task, is_generating. destruct (at_ k) eqn:E; cbn; rewrite ?E; auto.
Qed.

Lemma step_remove n s s' job_id now saved_ :
  invariant n s -> step (Remove job_id now saved_) s = Some s' -> invariant n s'.
Proof.
  intros I H. cbn [step] in H. injection H as <-.
  unfold remove_job.
  destruct (find_job (heap (proc s)) job_id (jobs (proc s)) 0) as [[idx r0] |] eqn:Ef.
  - destruct (find_job_some _ _ _ _ _ _ Ef) as (_ & _ & Hid0 & _).
    unfold deref.
    destruct (nth_error (heap (proc s)) r0) as [j0 |] eqn:Ej0; [| discriminate Hid0].
    cbn in Hid0. injection Hid0 as Hid0.
    cbn [cancelled_task after files].
    set (task_ := if (status j0 =? "processing")%string
                  then get job_id (active_jobs (proc s)) else None).
    set (p1 := match task_ with
               | Some _ => with_active_jobs (del job_id (active_jobs (proc s))) (proc s)
               | None => proc s
               end).
    assert (Hp1 : heap p1 = heap (proc s)
                  /\ incl (active_jobs p1) (active_jobs (proc s))).
    { subst p1. destruct task_; cbn; split; auto using incl_refl, incl_del. }
    destruct Hp1 as [Hh1 Ha1].
    assert (Htask : forall ti, task_ = Some ti ->
               exists kt, nth_error (tasks s) ti = Some kt /\ job_ref kt = r0).
    { intros ti Ht. subst task_.
      destruct (status j0 =? "processing")%string eqn:Ep; [| discriminate Ht].
      apply get_In in Ht.
      destruct (inv_active _ _ I _ _ Ht) as (kt & jt & Hkt & Hjt & Hidt).
      destruct (inv_owner _ _ I r0 j0 Ej0 Ep) as (ko & Hin & Hro & _).
      apply In_nth_error in Hin as [io Hio].
      assert (io = ti).
      { apply (inv_ids _ _ I io ti ko kt j0 jt); auto; congruence. }
      subst io. exists kt. split; [exact Hkt | congruence]. }
    apply invariant_next with s;
      cbn [proc tasks semaphore with_proc with_semaphore with_tasks with_world
             mutate with_heap with_jobs with_failed_jobs with_stats heap active_jobs].
    + exact I.
    + destruct task_ as [ti |]; [| reflexivity].
      destruct (Htask ti eq_refl) as (kt & Hkt & _).
      apply map_update with kt; [exact Hkt | apply cancel_task_facts].
    + rewrite Hh1. apply same_ids_update. reflexivity.
    + exact Ha1.
    + apply (inv_value _ _ I).
    + pose proof (inv_slots _ _ I) as Hs.
      destruct task_ as [ti |]; [| exact Hs].
      destruct (Htask ti eq_refl) as (kt & Hkt & _).
      pose proof (total_held_update ti cancel_task _ _ Hkt) as Ht.
      destruct (cancel_task_facts kt) as (_ & Hheld & _). lia.
    + destruct task_ as [ti |]; [| apply (inv_held _ _ I)].
      apply Forall_update; [apply (inv_held _ _ I) |]. intros k0 _.
      destruct (cancel_task_facts k0) as (_ & _ & ->). discriminate.
    + rewrite Hh1. intros r j Hj Hp.
      destruct (Nat.eq_dec r0 r) as [<- | Hne].
      { rewrite nth_error_update_eq, Ej0 in Hj. cbn in Hj.
        injection Hj as <-. discriminate Hp. }
      rewrite nth_error_update_ne in Hj by exact Hne.
      destruct (inv_owner _ _ I r j Hj Hp) as (k0 & Hin & Hr0 & Hg0).
      exists k0. repeat split; auto.
      destruct task_ as [ti |]; [| exact Hin].
      destruct (Htask ti eq_refl) as (kt & Hkt & Hrt).
      apply (In_update_other job_ref) with kt; auto. congruence.
  - cbn [cancelled_task after files].
    apply invariant_next with s; auto using incl_refl;
      try apply (inv_value _ _ I); try apply (inv_slots _ _ I);
      try apply (inv_held _ _ I); try apply (inv_owner _ _ I).
Qed.

Lemma step_invariant n e s s' :
  invariant n s -> step e s = Some s' -> invariant n s'.
Proof.
  destruct e; eauto using step_acquire, step_finish, step_wake, step_leave,
    step_remove.
Qed.

Lemma run_invariant n events :
  forall s s', invariant n s -> run events s = Some s' -> invariant n s'.
Proof.
  induction events as [| e events IH]; intros s s' I H; cbn [run] in H.
  - now injection H as <-.
  - destruct (step e s) as [s1 |] eqn:E; [| discriminate H].
    eapply IH; [| exact H]. eapply step_invariant; eassumption.
Qed.

Lemma register_In h refs :
  forall base acc job_id i,
    In (job_id, i) (register h refs base acc) ->
    In (job_id, i) acc
    \/ ((base <= i)%nat
        /\ exists r j, nth_error refs (i - base) = Some r
                       /\ nth_error h r = Some j /\ id j = job_id).
Proof.
  induction refs as [| r0 refs IH]; intros base acc job_id i H; cbn [register] in H.
  - auto.
  - assert (Hlater : (S base <= i)%nat /\
                     (exists r j, nth_error refs (i - S base) = Some r
                                  /\ nth_error h r = Some j /\ id j = job_id) ->
                     (base <= i)%nat /\
                     exists r j, nth_error (r0 :: refs) (i - base) = Some r
                                 /\ nth_error h r = Some j /\ id j = job_id).
    { intros (Hle & r & j & Hn & Hj & Hid). split; [lia |].
      exists r, j. replace (i - base)%nat with (S (i - S base)) by lia. auto. }
    destruct (nth_error h r0) as [j0 |] eqn:E0.
    + destruct (IH _ _ _ _ H) as [Hin | Hl]; [| auto].
      apply In_set in Hin as [Heq | Hin]; [| auto].
      injection Heq as -> ->. right. split; [lia |].
      exists r0, j0. rewrite Nat.sub_diag. auto.
    + destruct (IH _ _ _ _ H) as [Hin | Hl]; auto.
Qed.

Lemma total_held_new refs :
  total_held (map (fun r => {| job_ref := r; at_ := Await_slot; held := 0 |}) refs)
  = 0%nat.
Proof. induction refs as [| r refs IH]; cbn; auto. Qed.

(** The invariant holds when the tasks have just been created. *)
Lemma process_batch_invariant w p auto s0 :
  NoDup (jobs p) -> unique_ids p -> active_jobs p = [] ->
  forallb (fun j => negb (is_processing j)) (heap p) = true ->
  process_batch w p auto = Running s0 ->
  invariant (max_concurrent p) s0.
Proof.
  intros Hnd Huniq Hact Hnone H. unfold process_batch in H.
  destruct (jobs p) as [| r0 rest] eqn:Ejobs; [discriminate H |].
  rewrite <- Ejobs in *. clear Ejobs r0 rest.
  destruct (pending_jobs p) as [| r0 rest] eqn:Epend; [discriminate H |].
  rewrite <- Epend in *.
  destruct (Z.ltb_spec (max_concurrent p) 0) as [| Hn]; [discriminate H |].
  injection H as <-. clear Epend r0 rest.
  assert (Hpend : NoDup (pending_jobs p)) by (apply NoDup_filter, Hnd).
  assert (Hin : forall r, In r (pending_jobs p) -> In r (jobs p)).
  { intros r Hr. apply filter_In in Hr. tauto. }
  set (mk := fun r => {| job_ref := r; at_ := Await_slot; held := 0 |}).
  assert (Htask : forall i k, nth_error (map mk (pending_jobs p)) i = Some k ->
                    nth_error (pending_jobs p) i = Some (job_ref k)).
  { intros i k Hk. rewrite nth_error_map in Hk.
    destruct (nth_error (pending_jobs p) i); [| discriminate Hk].
    now injection Hk as <-. }
  constructor; cbn [semaphore tasks proc heap active_jobs with_active_jobs].
  - exact Hn.
  - fold mk. subst mk. rewrite total_held_new. lia.
  - apply Forall_forall. intros k Hk. apply in_map_iff in Hk as (r & <- & _).
    discriminate.
  - intros r j Hj Hp. rewrite forallb_forall in Hnone.
    apply nth_error_In in Hj. apply Hnone in Hj. rewrite Hp in Hj. discriminate Hj.
  - rewrite map_map. cbn. now rewrite map_id.
  - intros job_id i Hi. rewrite Hact in Hi.
    apply register_In in Hi as [[] | (_ & r & j & Hr & Hj & Hid)].
    rewrite Nat.sub_0_r in Hr.
    exists (mk r), j. repeat split; auto. now apply map_nth_error.
  - intros i1 i2 k1 k2 j1 j2 H1 H2 Hj1 Hj2 Hid.
    apply Htask in H1, H2.
    assert (job_ref k1 = job_ref k2).
    { apply (Huniq _ _ j1 j2); auto.
      - apply Hin. eapply nth_error_In; eauto.
      - apply Hin. eapply nth_error_In; eauto. }
    apply (proj1 (NoDup_nth_error _) Hpend).
    + apply nth_error_Some. congruence.
    + congruence.
Qed.

(** While a batch runs, under any interleaving of the tasks and of calls
    of [remove_job], the jobs in [processing] never outnumber
    [max_concurrent]: the semaphore value is never negative, it and the
    slots held by the tasks add up to [max_concurrent], and every job in
    [processing] belongs to a task inside the [try] block that holds a slot.
    This is for a processor whose queue has distinct job objects with
    distinct ids, with no task registered and no job [processing] when the
    batch starts. *)
Theorem processing_bounded (w : fs) (p : BatchProcessor.t) (auto : bool)
  (s0 s : state) (events : list event) :
  NoDup (jobs p) -> unique_ids p -> active_jobs p = [] ->
  forallb (fun j => negb (is_processing j)) (heap p) = true ->
  process_batch w p auto = Running s0 ->
  run events s0 = Some s ->
  Z.of_nat (processing s) <= max_concurrent p
  /\ 0 <= semaphore s
  /\ semaphore s + Z.of_nat (total_held (tasks s)) = max_concurrent p
  /\ forall r j,
       nth_error (heap (proc s)) r = Some j -> status j = "processing" ->
       exists k, In k (tasks s) /\ job_ref k = r /\ at_ k = Generating
                 /\ (1 <= held k)%nat.
Proof.
  intros Hnd Huniq Hact Hnone Hstart Hrun.
  pose proof (process_batch_invariant _ _ _ _ Hnd Huniq Hact Hnone Hstart) as I0.
  pose proof (run_invariant _ _ _ _ I0 Hrun) as I.
  pose proof (processing_le_held _ _ I) as Hp.
  pose proof (inv_slots _ _ I) as Hs. pose proof (inv_value _ _ I) as Hv.
  repeat split; try lia.
  intros r j Hj Hst.
  destruct (inv_owner _ _ I r j Hj) as (k & Hin & Hr & Hg).
  { unfold is_processing. now rewrite Hst. }
  exists k. repeat split; auto.
  - unfold is_generating in Hg. destruct (at_ k); congruence.
  - pose proof (inv_held _ _ I) as Hh. rewrite Forall_forall in Hh. auto.
Qed.

Lemma queue_of_two_unique_ids : unique_ids Sample.queue_of_two.
Proof.
  intros r1 r2 j1 j2 H1 H2 D1 D2 Hid.
  vm_compute in H1, H2.
  destruct H1 as [<- | [<- | []]]; destruct H2 as [<- | [<- | []]]; try reflexivity;
    vm_compute in D1, D2; injection D1 as <-; injection D2 as <-;
    vm_compute in Hid; discriminate Hid.
Qed.

Lemma processing_bounded_witness :
  exists s0 s,
    process_batch Sample.images Sample.queue_of_two true = Running s0
    /\ run Sample.first_fails s0 = Some s
    /\ Z.of_nat (processing s) <= 1.
Proof.
  do 2 eexists.
  split; [vm_compute; reflexivity |]. split; [vm_compute; reflexivity |].
  refine (proj1 (processing_bounded Sample.images Sample.queue_of_two true _ _
                   Sample.first_fails _ queue_of_two_unique_ids eq_refl eq_refl _ _)).
  - vm_compute. repeat constructor; cbn; intuition discriminate.
  - vm_compute. reflexivity.
  - vm_compute. reflexivity.
Defined.

(** ** A retry waits for a second slot *)

Lemma blocked_run (k : nat) :
  forall fuel now gen st,
    (forall n, exists c msg, gen n = Raised c msg) ->
    value st = Z.of_nat k ->
    retry_count (job st) + Z.of_nat k <= max_retries (job st) ->
    (k < fuel)%nat ->
    exists j' ds,
      _process_single_job fuel true now gen st
      = (Blocked, {| value := 0; job := j'; attempts := attempts st + k;
                     delays := ds |})
      /\ retry_count j' = retry_count (job st) + Z.of_nat k
      /\ max_retries j' = max_retries (job st)
      /\ ((1 <= k)%nat -> status j' = "pending").
Proof.
  induction k as [| k IH]; intros fuel now gen st Hgen Hv Hr Hf.
  - destruct fuel as [| fuel]; [lia |]. cbn [_process_single_job].
    rewrite Hv. cbn [Z.of_nat Z.leb Z.compare].
    exists (job st), (delays st). destruct st; cbn in *. subst.
    repeat split; try lia. f_equal. f_equal. lia.
  - destruct fuel as [| fuel]; [lia |]. cbn [_process_single_job].
    destruct (Z.leb_spec (value st) 0); [lia |].
    destruct (Hgen (attempts st)) as (c & msg & ->).
    set (t1 := now (2 * attempts st + 1)%nat).
    set (j_started := start (now (2 * attempts st)%nat) (job st)).
    assert (Hatt : exists j1, attempt true t1 (Raised c msg) j_started
                              = (j1, Some (Qpower 2 (retry_count (job st) + 1)))
                              /\ retry_count j1 = retry_count (job st) + 1
                              /\ max_retries j1 = max_retries (job st)
                              /\ status j1 = "pending").
    { assert (Hc : forall j0, retry_count j0 = retry_count (job st) ->
                     max_retries j0 = max_retries (job st) ->
                     exists j1, on_exception true t1 msg j0
                                = (j1, Some (Qpower 2 (retry_count (job st) + 1)))
                                /\ retry_count j1 = retry_count (job st) + 1
                                /\ max_retries j1 = max_retries (job st)
                                /\ status j1 = "pending").
      { intros j0 H1 H2. rewrite on_exception_retry by lia.
        rewrite H1. eexists. split; [reflexivity |]. cbn. repeat split; lia. }
      destruct c as [[res paths] |]; cbn [attempt]; apply Hc;
        rewrite ?retry_count_complete, ?max_retries_complete; reflexivity. }
    destruct Hatt as (j1 & -> & Hrc & Hmax & Hst).
    cbn [value job attempts delays].
    edestruct (IH fuel now gen) as (j' & ds & Hrun & Hr' & Hm' & Hs');
      [exact Hgen | | | | rewrite Hrun].
    + cbn [value]. lia.
    + cbn [job]. lia.
    + lia.
    + cbn [job attempts] in *. exists j', ds. repeat split.
      * do 2 f_equal. lia.
      * lia.
      * lia.
      * intros _. destruct k as [| k].
        -- destruct fuel as [| fuel]; [lia |].
           cbn [_process_single_job value] in Hrun.
           replace (value st - 1 <=? 0) with true in Hrun
             by (symmetry; apply Z.leb_le; lia).
           injection Hrun as _ Hj _ _. rewrite <- Hj. exact Hst.
        -- apply Hs'. lia.
Qed.

(** With retries on, the recursive call of [_process_single_job] acquires a
    slot while the calling frames still hold theirs.  A job whose attempts
    all raise and that may be retried at least as often as there are free
    slots therefore never finishes: after one attempt per free slot the
    coroutine waits in [acquire] with the semaphore at zero and the job
    left [pending]. *)
Theorem retry_holds_its_slots (fuel : nat) (now : nat -> string)
  (gen : nat -> outcome) (st : solo) :
  (forall n, exists c msg, gen n = Raised c msg) ->
  1 <= value st ->
  retry_count (job st) + value st <= max_retries (job st) ->
  (Z.to_nat (value st) < fuel)%nat ->
  let r := _process_single_job fuel true now gen st in
  fst r = Blocked
  /\ Z.of_nat (attempts (snd r)) = Z.of_nat (attempts st) + value st
  /\ value (snd r) = 0
  /\ status (job (snd r)) = "pending"
  /\ retry_count (job (snd r)) = retry_count (job st) + value st.
Proof.
  intros Hgen Hv Hr Hf.
  destruct (blocked_run (Z.to_nat (value st)) fuel now gen st Hgen)
    as (j' & ds & Hrun & Hr' & _ & Hs'); try lia.
  cbv zeta. rewrite Hrun. cbn [fst snd value job attempts].
  repeat split; try lia. apply Hs'. lia.
Qed.

Lemma retry_holds_its_slots_witness :
  let r := _process_single_job 4 true Sample.clock Sample.always_fails
             (Sample.alone 2 Sample.job0) in
  fst r = Blocked /\ status (job (snd r)) = "pending" /\ value (snd r) = 0.
Proof.
  assert (Hgen : forall n : nat, exists c msg, Sample.always_fails n = Raised c msg).
  { intros n. exists None, "remote timeout". reflexivity. }
  pose proof (retry_holds_its_slots 4 Sample.clock Sample.always_fails
                (Sample.alone 2 Sample.job0) Hgen
                ltac:(cbn; lia) ltac:(cbn; lia) ltac:(cbn; lia))
    as (H1 & _ & H3 & H4 & _).
  cbv zeta. auto.
Defined.

(** ** What a run never changes in a job *)

(** [j'] is a later state of the job [j]: the fields set at creation are
    the same, and [retry_count] has not gone down nor, if it was within
    [max_retries], above it. *)
Definition evolves (j j' : BatchJob.t) : Prop :=
  id j' = id j /\ image_path j' = image_path j /\ prompt j' = prompt j
  /\ model j' = model j /\ parameters j' = parameters j
  /\ priority j' = priority j /\ created_at j' = created_at j
  /\ max_retries j' = max_retries j /\ estimated_cost j' = estimated_cost j
  /\ retry_count j <= retry_count j'
  /\ (retry_count j <= max_retries j -> retry_count j' <= max_retries j').

Lemma evolves_refl j : evolves j j.
Proof. unfold evolves. repeat split; auto; lia. Qed.

Lemma evolves_trans j1 j2 j3 : evolves j1 j2 -> evolves j2 j3 -> evolves j1 j3.
Proof.
  unfold evolves. intros (A1 & A2 & A3 & A4 & A5 & A6 & A7 & A8 & A9 & A10 & A11)
                         (B1 & B2 & B3 & B4 & B5 & B6 & B7 & B8 & B9 & B10 & B11).
  repeat split; try congruence; try lia.
Qed.

Lemma evolves_start now j : evolves j (start now j).
Proof. unfold evolves. cbn. repeat split; auto; lia. Qed.

Lemma evolves_cancel now j : evolves j (cancel now j).
Proof. unfold evolves. cbn. repeat split; auto; lia. Qed.

Lemma evolves_fail now msg j : evolves j (fail now msg j).
Proof. unfold evolves. cbn. repeat split; auto; lia. Qed.

Lemma evolves_complete now res paths j : evolves j (complete now res paths j).
Proof.
  unfold evolves, complete. destruct paths as [[| ? ?] |]; cbn;
    repeat split; auto; lia.
Qed.

Lemma evolves_retry j : evolves j (retry j).
Proof.
  unfold evolves, retry, can_retry.
  destruct (status j =? "failed")%string; cbn; [| repeat split; auto; lia].
  destruct (Z.ltb_spec (retry_count j) (max_retries j)); cbn;
    repeat split; auto; lia.
Qed.

Lemma evolves_on_exception auto now msg j :
  evolves j (fst (on_exception auto now msg j)).
Proof.
  unfold on_exception.
  destruct (auto && can_retry (fail now msg j)); cbn [fst].
  - eapply evolves_trans; [apply evolves_fail | apply evolves_retry].
  - apply evolves_fail.
Qed.

Lemma evolves_attempt auto now o j : evolves j (fst (attempt auto now o j)).
Proof.
  destruct o as [res paths | [[res paths] |] msg]; cbn [attempt fst].
  - apply evolves_complete.
  - eapply evolves_trans; [apply evolves_complete | apply evolves_on_exception].
  - apply evolves_on_exception.
Qed.

Definition heap_evolves (h h' : list BatchJob.t) : Prop :=
  List.length h' = List.length h
  /\ forall r j, nth_error h r = Some j ->
       exists j', nth_error h' r = Some j' /\ evolves j j'.

Lemma heap_evolves_refl h : heap_evolves h h.
Proof. split; [reflexivity |]. intros r j H. eauto using evolves_refl. Qed.

Lemma heap_evolves_trans h1 h2 h3 :
  heap_evolves h1 h2 -> heap_evolves h2 h3 -> heap_evolves h1 h3.
Proof.
  intros [L1 H1] [L2 H2]. split; [congruence |].
  intros r j Hj. destruct (H1 r j Hj) as (j' & Hj' & E1).
  destruct (H2 r j' Hj') as (j'' & Hj'' & E2).
  eauto using evolves_trans.
Qed.

Lemma heap_evolves_update r f h :
  (forall j, nth_error h r = Some j -> evolves j (f j)) ->
  heap_evolves h (update r f h).
Proof.
  intros Hf. split; [apply length_update |].
  intros r' j Hj. destruct (Nat.eq_dec r r') as [<- | Hne].
  - exists (f j). rewrite nth_error_update_eq, Hj. auto.
  - exists j. rewrite nth_error_update_ne by exact Hne. auto using evolves_refl.
Qed.

Lemma remove_job_heap now saved_ w p job_id :
  heap_evolves (heap p) (heap (after (remove_job now saved_ w p job_id))).
Proof.
  unfold remove_job.
  destruct (find_job (heap p) job_id (jobs p) 0) as [[i r] |];
    [| apply heap_evolves_refl].
  cbn [after with_stats with_failed_jobs with_jobs mutate with_heap heap].
  destruct (if match deref p r with
               | Some job0 => (status job0 =? "processing")%string
               | None => false
               end
            then get job_id (active_jobs p) else None);
    cbn [heap with_active_jobs];
    apply heap_evolves_update; intros j _; apply evolves_cancel.
Qed.

Lemma step_heap e s s' :
  step e s = Some s' -> heap_evolves (heap (proc s)) (heap (proc s')).
Proof.
  destruct e as [i now | i now o | i | i | job_id now saved_]; cbn [step]; intros H.
  - destruct (nth_error (tasks s) i) as [k |]; [| discriminate H].
    destruct (at_ k); try discriminate H.
    destruct (0 <? semaphore s); [| discriminate H]. injection H as <-.
    apply heap_evolves_update. intros j _. apply evolves_start.
  - destruct (nth_error (tasks s) i) as [k |]; [| discriminate H].
    unfold deref in H.
    destruct (at_ k); try discriminate H.
    destruct (nth_error (heap (proc s)) (job_ref k)) as [j0 |] eqn:E;
      [| discriminate H].
    pose proof (evolves_attempt (auto_retry s) now o j0) as Hev.
    destruct (attempt (auto_retry s) now o j0) as [job' delay].
    injection H as <-. apply heap_evolves_update.
    intros j Hj. assert (j = j0) by congruence. subst. exact Hev.
  - destruct (nth_error (tasks s) i) as [k |]; [| discriminate H].
    destruct (at_ k); try discriminate H. injection H as <-.
    apply heap_evolves_refl.
  - destruct (nth_error (tasks s) i) as [k |]; [| discriminate H].
    destruct (at_ k); try discriminate H.
    destruct (held k); injection H as <-; apply heap_evolves_refl.
  - injection H as <-. apply remove_job_heap.
Qed.

(** While a batch runs, under any interleaving of task steps and calls of
    [remove_job], no job object is lost, added or replaced by another: at
    every reference there is still the job with the same id, image, prompt,
    model, parameters, priority, creation time, [max_retries] and estimated
    cost; its [retry_count] has not gone down, and if it was within
    [max_retries] it still is. *)
Theorem run_keeps_jobs (events : list event) (s s' : state) :
  run events s = Some s' ->
  List.length (heap (proc s')) = List.length (heap (proc s))
  /\ forall r j,
       nth_error (heap (proc s)) r = Some j ->
       exists j', nth_error (heap (proc s')) r = Some j' /\ evolves j j'.
Proof.
  revert s. induction events as [| e events IH]; intros s H; cbn [run] in H.
  - injection H as <-. apply heap_evolves_refl.
  - destruct (step e s) as [s1 |] eqn:E; [| discriminate H].
    apply (heap_evolves_trans _ (heap (proc s1))); [eapply step_heap; eauto |].
    now apply IH.
Qed.

Lemma run_keeps_jobs_witness :
  match process_batch Sample.images Sample.queue_of_two true with
  | Running s0 =>
      match run Sample.first_fails s0 with
      | Some s => List.length (heap (proc s)) = List.length (heap (proc s0))
      | None => False
      end
  | _ => False
  end.
Proof.
  destruct (process_batch Sample.images Sample.queue_of_two true) as [| | | s0] eqn:E0;
    try (vm_compute in E0; discriminate E0).
  destruct (run Sample.first_fails s0) as [s |] eqn:E1.
  - exact (proj1 (run_keeps_jobs _ _ _ E1)).
  - vm_compute in E0. injection E0 as <-. vm_compute in E1. discriminate E1.
Defined.

(** ** Batch cost and monthly estimate *)

Lemma Qlt_bool_iff (a b : Q) : Qlt_bool a b = true <-> (a < b)%Q.
Proof.
  unfold Qlt_bool. rewrite negb_true_iff. split.
  - intros H. apply Qnot_le_lt. intros Hle. apply Qle_bool_iff in Hle. congruence.
  - intros H. destruct (Qle_bool b a) eqn:E; [| reflexivity].
    apply Qle_bool_iff in E. exfalso. exact (Qlt_not_le _ _ H E).
Qed.

(** What [calculate_cost] returns for a model of the table and a duration
    that is a number. *)
Lemma calculate_cost_value model_ info duration x :
  get model_ model_pricing = Some info ->
  as_number duration = Some x ->
  exists r q,
    calculate_cost model_ duration = ret r
    /\ contains "error" r = false
    /\ get "total_cost" r = Some (CV (VFloat q))
    /\ get "model" r = Some (CV (VStr model_))
    /\ get "quality" r = Some (CV (VStr (quality info)))
    /\ get "efficiency_score" r = Some (CV (VFloat (efficiency_score info)))
    /\ (q == cost_per_second info * charged info x)%Q.
Proof.
  intros Hm Hx. unfold calculate_cost. rewrite Hm. unfold charged.
  destruct duration as [| b | d | f | s | l | dd]; try discriminate Hx;
    cbn in Hx; injection Hx as <-.
  - unfold Py.min, gt, Py.lt. cbn [as_number bind ret].
    destruct (Qlt_bool (inject_Z (max_duration info))
                (inject_Z (if b then 1 else 0))) eqn:E;
      cbn [float_mul as_number bind ret]; do 2 eexists;
      repeat (split; [reflexivity |]); reflexivity.
  - unfold Py.min, gt, Py.lt. cbn [bind ret]. rewrite Qlt_bool_inject.
    destruct (max_duration info <? d);
      cbn [float_mul as_number bind ret]; do 2 eexists;
      repeat (split; [reflexivity |]); reflexivity.
  - unfold Py.min, gt, Py.lt. cbn [as_number bind ret].
    destruct (Qlt_bool (inject_Z (max_duration info)) f) eqn:E;
      cbn [float_mul as_number bind ret]; do 2 eexists;
      repeat (split; [reflexivity |]); reflexivity.
Qed.

Lemma calculate_cost_not_number model_ info duration :
  get model_ model_pricing = Some info ->
  as_number duration = None ->
  calculate_cost model_ duration = raise TypeError.
Proof.
  intros Hm Hx. pose proof (calculate_cost_known model_ info duration Hm) as H.
  unfold numeric in H. rewrite Hx in H. exact H.
Qed.

Lemma calculate_batch_cost_value model_ info duration x file_count :
  get model_ model_pricing = Some info ->
  as_number duration = Some x ->
  file_count <> 0 ->
  exists r single total average,
    calculate_batch_cost model_ file_count duration = inl r
    /\ get "single_file_cost" r = Some (CV (VFloat single))
    /\ get "total_cost" r = Some (CV (VFloat single))
    /\ get "total_batch_cost" r = Some (CV (VFloat total))
    /\ get "average_per_file" r = Some (CV (VFloat average))
    /\ get "file_count" r = Some (CV (VInt file_count))
    /\ (single == cost_per_second info * charged info x)%Q
    /\ (total == single * inject_Z file_count
                 * (1 - discount_rate file_count))%Q
    /\ (average == single * (1 - discount_rate file_count))%Q.
Proof.
  intros Hm Hx Hn. unfold calculate_batch_cost.
  destruct (calculate_cost_value _ _ _ _ Hm Hx)
    as (r & q & -> & Herr & Hq & _ & _ & _ & Hv).
  unfold ret. rewrite Herr. unfold item_float. rewrite Hq.
  destruct (Z.eqb_spec file_count 0) as [-> | _]; [contradiction |].
  eexists. exists q. do 2 eexists. split; [reflexivity |].
  unfold merge. cbn [fold_left fst snd].
  repeat (rewrite get_set_same
          || (rewrite get_set_other by (intros Hk; discriminate Hk))).
  do 5 (split; [eassumption || reflexivity |]).
  split; [exact Hv |]. split; [ring |].
  field. intros H0. apply Hn. unfold Qeq in H0. cbn in H0. lia.
Qed.

(** Every model of the table has a positive price and a positive limit. *)
Lemma pricing_positive model_ info :
  get model_ model_pricing = Some info ->
  (0 < cost_per_second info)%Q /\ 0 < max_duration info.
Proof.
  unfold model_pricing. cbn [get]. intros H.
  repeat match type of H with
         | (if ?c then _ else _) = _ => destruct c
         end;
    try discriminate H; injection H as <-; split; reflexivity.
Qed.

Lemma charged_positive info x :
  0 < max_duration info -> (0 < x)%Q -> (0 < charged info x)%Q.
Proof.
  intros Hmax Hx. unfold charged.
  destruct (Qlt_bool (inject_Z (max_duration info)) x); [| exact Hx].
  unfold Qlt. cbn. lia.
Qed.

(** The files paid for after the discount: strictly more for more files. *)
Lemma discounted_files_grow n m :
  1 <= n < m ->
  (inject_Z n * (1 - discount_rate n) < inject_Z m * (1 - discount_rate m))%Q.
Proof.
  intros H. unfold discount_rate.
  destruct (Z.leb_spec 10 n), (Z.leb_spec 5 n), (Z.leb_spec 10 m), (Z.leb_spec 5 m);
    try lia; unfold Qlt; cbn; lia.
Qed.

(** X: [calculate_batch_cost].  For a model that is not in the table the
    error dict of [calculate_cost] comes back unchanged, whatever the file
    count, and has no batch total.  For a model of the table a duration that
    is not a number raises [TypeError] and a file count of zero raises
    [ZeroDivisionError].  Otherwise the dict holds the cost of one file
    (under both [single_file_cost] and [total_cost]), the total
    [single * file_count * (1 - rate)] with rate 5% from 10 files, 2% from 5
    and none below, and the average [single * (1 - rate)]. *)
Theorem calculate_batch_cost_outcome (model_ : string) (file_count : Z)
  (duration : pyval) :
  match get model_ model_pricing with
  | None =>
      exists r,
        calculate_batch_cost model_ file_count duration = inl r
        /\ calculate_cost model_ duration = ret r
        /\ get "total_batch_cost" r = None
  | Some info =>
      match as_number duration with
      | None =>
          calculate_batch_cost model_ file_count duration = inr (Builtin TypeError)
      | Some x =>
          if file_count =? 0
          then calculate_batch_cost model_ file_count duration = inr ZeroDivisionError
          else
            exists r single total average,
              calculate_batch_cost model_ file_count duration = inl r
              /\ get "single_file_cost" r = Some (CV (VFloat single))
              /\ get "total_cost" r = Some (CV (VFloat single))
              /\ get "total_batch_cost" r = Some (CV (VFloat total))
              /\ get "average_per_file" r = Some (CV (VFloat average))
              /\ get "file_count" r = Some (CV (VInt file_count))
              /\ (single == cost_per_second info * charged info x)%Q
              /\ (total == single * inject_Z file_count
                           * (1 - discount_rate file_count))%Q
              /\ (average == single * (1 - discount_rate file_count))%Q
      end
  end.
Proof.
  destruct (get model_ model_pricing) as [info |] eqn:Hm.
  - destruct (as_number duration) as [x |] eqn:Hx.
    + destruct (Z.eqb_spec file_count 0) as [-> | Hn].
      * unfold calculate_batch_cost.
        destruct (calculate_cost_value _ _ _ _ Hm Hx)
          as (r & q & -> & Herr & Hq & _).
        unfold ret. rewrite Herr. unfold item_float. rewrite Hq. reflexivity.
      * exact (calculate_batch_cost_value _ _ _ _ _ Hm Hx Hn).
    + unfold calculate_batch_cost.
      rewrite (calculate_cost_not_number _ _ _ Hm Hx). reflexivity.
  - unfold calculate_batch_cost, calculate_cost. rewrite Hm.
    eexists. split; [reflexivity |]. split; reflexivity.
Qed.

(** X: the discount never makes a larger batch cheaper.  For a model of the
    table and a positive duration, the total of [calculate_batch_cost] grows
    strictly with the number of files, across the 5-file and 10-file
    thresholds too. *)
Theorem batch_cost_grows_with_files (model_ : string) (info : model_info)
  (duration : pyval) (x : Q) (n m : Z) :
  get model_ model_pricing = Some info ->
  as_number duration = Some x ->
  (0 < x)%Q ->
  1 <= n < m ->
  exists r1 r2 t1 t2,
    calculate_batch_cost model_ n duration = inl r1
    /\ calculate_batch_cost model_ m duration = inl r2
    /\ get "total_batch_cost" r1 = Some (CV (VFloat t1))
    /\ get "total_batch_cost" r2 = Some (CV (VFloat t2))
    /\ (t1 < t2)%Q.
Proof.
  intros Hm Hx Hpos Hnm.
  destruct (calculate_batch_cost_value _ _ _ _ n Hm Hx ltac:(lia))
    as (r1 & s1 & t1 & a1 & E1 & _ & _ & T1 & _ & _ & S1 & V1 & _).
  destruct (calculate_batch_cost_value _ _ _ _ m Hm Hx ltac:(lia))
    as (r2 & s2 & t2 & a2 & E2 & _ & _ & T2 & _ & _ & S2 & V2 & _).
  exists r1, r2, t1, t2. repeat (split; [assumption |]).
  destruct (pricing_positive _ _ Hm) as [Hc Hmax].
  pose proof (charged_positive info x Hmax Hpos) as Hch.
  rewrite V1, V2, S1, S2, <- !Qmult_assoc.
  apply Qmult_lt_l; [exact Hc |]. apply Qmult_lt_l; [exact Hch |].
  apply discounted_files_grow. exact Hnm.
Qed.

Lemma batch_cost_grows_with_files_witness :
  exists r1 r2 t1 t2,
    calculate_batch_cost "kling_21_standard" 9 (VInt 5) = inl r1
    /\ calculate_batch_cost "kling_21_standard" 10 (VInt 5) = inl r2
    /\ get "total_batch_cost" r1 = Some (CV (VFloat t1))
    /\ get "total_batch_cost" r2 = Some (CV (VFloat t2))
    /\ (t1 < t2)%Q.
Proof.
  refine (batch_cost_grows_with_files "kling_21_standard" _ (VInt 5) 5 9 10
            eq_refl eq_refl _ _).
  - reflexivity.
  - lia.
Defined.

(** X: [estimate_monthly_cost] reads [total_cost] from the dict of
    [calculate_cost] without looking for [error]: for a model that is not in
    the table it raises [KeyError], whatever the other arguments, where
    [calculate_batch_cost] returns the error dict and [add_job] takes a cost
    of 0.  For a model of the table and a duration that is a number the
    daily cost is the cost of one generation times [generations_per_day],
    the weekly cost 7 times and the monthly cost 30 times the daily one. *)
Theorem estimate_monthly_cost_outcome (generations_per_day : Z) (model_ : string)
  (duration : pyval) :
  match get model_ model_pricing with
  | None =>
      estimate_monthly_cost generations_per_day model_ duration
      = inr (KeyError "total_cost")
  | Some info =>
      match as_number duration with
      | None =>
          estimate_monthly_cost generations_per_day model_ duration
          = inr (Builtin TypeError)
      | Some x =>
          exists r daily,
            estimate_monthly_cost generations_per_day model_ duration = inl r
            /\ get "daily_cost" r = Some (EV (VFloat daily))
            /\ get "weekly_cost" r = Some (EV (VFloat (daily * 7)))
            /\ get "monthly_cost" r = Some (EV (VFloat (daily * 30)))
            /\ (daily == cost_per_second info * charged info x
                         * inject_Z generations_per_day)%Q
      end
  end.
Proof.
  destruct (get model_ model_pricing) as [info |] eqn:Hm.
  - destruct (as_number duration) as [x |] eqn:Hx.
    + unfold estimate_monthly_cost.
      destruct (calculate_cost_value _ _ _ _ Hm Hx)
        as (r & q & -> & _ & Hq & _ & _ & _ & Hv).
      unfold ret, item_float. rewrite Hq.
      do 2 eexists. split; [reflexivity |].
      do 3 (split; [reflexivity |]). rewrite Hv. reflexivity.
    + unfold estimate_monthly_cost.
      rewrite (calculate_cost_not_number _ _ _ Hm Hx). reflexivity.
  - unfold estimate_monthly_cost, calculate_cost. rewrite Hm. reflexivity.
Qed.

(** ** Adding several jobs *)


















(** ** Comparing the models *)

Lemma insert_by_perm {A} (key : A -> Q) x l :
  Permutation (insert_by key x l) (x :: l).
Proof.
  induction l as [| y l IH]; cbn; [reflexivity |].
  destruct (Qlt_bool (key x) (key y)); [reflexivity |].
  rewrite IH. apply perm_swap.
Qed.

Lemma sort_by_perm {A} (key : A -> Q) l : Permutation (sort_by key l) l.
Proof.
  unfold sort_by.
  assert (H : forall acc,
             Permutation (fold_left (fun acc x => insert_by key x acc) l acc)
               (acc ++ l)%list).
  { induction l as [| x l IH]; intros acc; cbn [fold_left].
    - now rewrite app_nil_r.
    - rewrite IH, insert_by_perm. apply (Permutation_middle acc l x). }
  apply (H []).
Qed.

Definition ascending {A} (key : A -> Q) : list A -> Prop :=
  StronglySorted (fun a b => (key a <= key b)%Q).

Lemma insert_by_ascending {A} (key : A -> Q) x l :
  ascending key l -> ascending key (insert_by key x l).
Proof.
  unfold ascending. induction l as [| y l IH]; intros Hs; cbn.
  - constructor; constructor.
  - inversion Hs as [| ? ? Hs' Hy]; subst.
    destruct (Qlt_bool (key x) (key y)) eqn:E.
    + apply Qlt_bool_iff in E. constructor; [exact Hs |].
      constructor; [apply Qlt_le_weak; exact E |].
      eapply Forall_impl; [| exact Hy]. cbn. intros b Hb.
      eapply Qle_trans; [apply Qlt_le_weak; exact E | exact Hb].
    + assert (Hyx : (key y <= key x)%Q).
      { apply Qnot_lt_le. intros Hlt. apply Qlt_bool_iff in Hlt. congruence. }
      constructor; [apply IH; exact Hs' |].
      eapply Permutation_Forall; [symmetry; apply insert_by_perm |].
      constructor; assumption.
Qed.

Lemma sort_by_ascending {A} (key : A -> Q) l : ascending key (sort_by key l).
Proof.
  unfold sort_by.
  assert (H : forall acc, ascending key acc ->
             ascending key (fold_left (fun acc x => insert_by key x acc) l acc)).
  { induction l as [| x l IH]; intros acc Ha; cbn [fold_left]; [exact Ha |].
    apply IH, insert_by_ascending, Ha. }
  apply H. constructor.
Qed.

(** The model an entry is about. *)
Definition model_of (c : cost_info) : string :=
  match get "model" c with
  | Some (CV (VStr s)) => s
  | _ => ""
  end.

(** An entry of the comparison for a duration [x]: the cost of its model. *)
Definition priced (x : Q) (c : cost_info) : Prop :=
  exists info,
    get (model_of c) model_pricing = Some info
    /\ (total_cost_of c == cost_per_second info * charged info x)%Q.

Lemma comparisons_of_numeric duration x keys :
  as_number duration = Some x ->
  Forall (fun k => contains k model_pricing = true) keys ->
  exists l,
    comparisons_of keys duration = ret l
    /\ map model_of l = keys
    /\ Forall (priced x) l.
Proof.
  intros Hx. induction keys as [| k keys IH]; intros Hk; cbn [comparisons_of].
  - exists []. repeat split; constructor.
  - inversion Hk as [| ? ? Hin Hk']; subst.
    unfold contains in Hin.
    destruct (get k model_pricing) as [info |] eqn:Hm; [| discriminate].
    destruct (calculate_cost_value _ _ _ _ Hm Hx)
      as (r & q & -> & Herr & Hq & Hmod & _ & _ & Hv).
    destruct (IH Hk') as (l & -> & Hl & Hp).
    cbn [bind ret]. unfold ret. rewrite Herr. exists (r :: l).
    assert (Hmo : model_of r = k) by (unfold model_of; now rewrite Hmod).
    split; [reflexivity |]. split.
    + cbn. now rewrite Hmo, Hl.
    + constructor; [| exact Hp]. exists info. rewrite Hmo. split; [exact Hm |].
      unfold total_cost_of. rewrite Hq. exact Hv.
Qed.

Lemma comparisons_of_not_number duration k keys :
  as_number duration = None ->
  contains k model_pricing = true ->
  comparisons_of (k :: keys) duration = raise TypeError.
Proof.
  intros Hx Hin. cbn [comparisons_of]. unfold contains in Hin.
  destruct (get k model_pricing) as [info |] eqn:Hm; [| discriminate].
  rewrite (calculate_cost_not_number _ _ _ Hm Hx). reflexivity.
Qed.

(** The ranking loop keeps the model and the cost of each entry and numbers
    the entries from [i + 1]. *)
Lemma add_rankings_spec l :
  forall i,
    map model_of (add_rankings i l) = map model_of l
    /\ map total_cost_of (add_rankings i l) = map total_cost_of l
    /\ forall n c, nth_error (add_rankings i l) n = Some c ->
         get "cost_rank" c = Some (CV (VInt (i + Z.of_nat n + 1))).
Proof.
  induction l as [| c0 l IH]; intros i; cbn [add_rankings map].
  - repeat split. intros [| n] c H; discriminate H.
  - destruct (IH (i + 1)) as (H1 & H2 & H3).
    repeat split.
    + f_equal; [| exact H1]. unfold model_of.
      now rewrite !get_set_other by (intros Hk; discriminate Hk).
    + f_equal; [| exact H2]. unfold total_cost_of.
      now rewrite !get_set_other by (intros Hk; discriminate Hk).
    + intros [| n] c H; cbn [nth_error] in H.
      * injection H as <-.
        rewrite !get_set_other by (intros Hk; discriminate Hk).
        rewrite get_set_same. do 3 f_equal. lia.
      * rewrite (H3 n c H). do 3 f_equal. lia.
Qed.

Lemma map_ascending {A} (key : A -> Q) l l' :
  map key l' = map key l -> ascending key l -> ascending key l'.
Proof.
  unfold ascending. revert l'.
  induction l as [| a l IH]; intros [| a' l'] Hmap Hs; try discriminate Hmap.
  - constructor.
  - cbn in Hmap. injection Hmap as Ha Hl.
    inversion Hs as [| ? ? Hs' Hall]; subst.
    constructor; [apply IH; assumption |].
    rewrite Ha. clear - Hl Hall. revert l' Hl.
    induction l as [| b l IH]; intros [| b' l'] Hl; try discriminate Hl;
      constructor; cbn in Hl; injection Hl as Hb Hl'.
    + rewrite Hb. inversion Hall; assumption.
    + apply IH; [inversion Hall; assumption | exact Hl'].
Qed.

Lemma map_priced x l l' :
  map model_of l' = map model_of l ->
  map total_cost_of l' = map total_cost_of l ->
  Forall (priced x) l -> Forall (priced x) l'.
Proof.
  revert l'. induction l as [| a l IH]; intros [| a' l'] Hm Ht Hp;
    try discriminate Hm; constructor;
    cbn in Hm, Ht; injection Hm as Hm1 Hm2; injection Ht as Ht1 Ht2;
    inversion Hp as [| ? ? Hpa Hpl]; subst.
  - destruct Hpa as (info & H1 & H2). exists info. now rewrite Hm1, Ht1.
  - apply IH; assumption.
Qed.

(** X: [compare_models].  A duration that is not a number raises
    [TypeError].  For a number, the list has one entry for each model of the
    pricing table, each with the cost of its model for that duration; the
    entries are in ascending order of cost, and the entry at position [n]
    (from 0) has [cost_rank] [n + 1]. *)
Theorem compare_models_ranked (duration : pyval) :
  match as_number duration with
  | None => compare_models duration = raise TypeError
  | Some x =>
      exists l,
        compare_models duration = ret l
        /\ Permutation (map model_of l) (map fst model_pricing)
        /\ Forall (priced x) l
        /\ ascending total_cost_of l
        /\ forall n c, nth_error l n = Some c ->
             get "cost_rank" c = Some (CV (VInt (Z.of_nat n + 1)))
  end.
Proof.
  assert (Hkeys : Forall (fun k => contains k model_pricing = true)
                    (map fst model_pricing))
    by (repeat constructor).
  destruct (as_number duration) as [x |] eqn:Hx.
  - destruct (comparisons_of_numeric duration x _ Hx Hkeys) as (l & Hl & Hm & Hp).
    unfold compare_models. rewrite Hl. cbn [bind ret].
    destruct (add_rankings_spec (sort_by total_cost_of l) 0) as (R1 & R2 & R3).
    eexists. split; [reflexivity |]. repeat split.
    + rewrite R1, <- Hm. apply Permutation_map, sort_by_perm.
    + eapply map_priced; [exact R1 | exact R2 |].
      eapply Permutation_Forall; [symmetry; apply sort_by_perm | exact Hp].
    + eapply map_ascending; [exact R2 | apply sort_by_ascending].
    + intros n c H. rewrite (R3 n c H). reflexivity.
  - unfold compare_models.
    change (map fst model_pricing)
      with ("kling_21_standard" :: List.tl (map fst model_pricing)).
    rewrite comparisons_of_not_number by (exact Hx || reflexivity). reflexivity.
Qed.

(** ** Recommendations *)

Lemma compare_models_returns duration x :
  as_number duration = Some x -> exists l, compare_models duration = ret l.
Proof.
  intros Hx.
  destruct (comparisons_of_numeric duration x (map fst model_pricing) Hx)
    as (l & Hl & _); [repeat constructor |].
  unfold compare_models. rewrite Hl. cbn [bind ret]. eexists. reflexivity.
Qed.

Lemma compare_models_raises duration :
  as_number duration = None -> compare_models duration = raise TypeError.
Proof.
  intros Hx. unfold compare_models.
  change (map fst model_pricing)
    with ("kling_21_standard" :: List.tl (map fst model_pricing)).
  rewrite comparisons_of_not_number by (exact Hx || reflexivity). reflexivity.
Qed.

Lemma insert_desc_perm {A K} (lt : K -> K -> bool) (key : A -> K) x l :
  Permutation (insert_desc lt key x l) (x :: l).
Proof.
  induction l as [| y l IH]; cbn; [reflexivity |].
  destruct (lt (key y) (key x)); [reflexivity |].
  rewrite IH. apply perm_swap.
Qed.

Lemma sort_desc_perm {A K} (lt : K -> K -> bool) (key : A -> K) l :
  Permutation (sort_desc lt key l) l.
Proof.
  unfold sort_desc.
  assert (H : forall acc,
             Permutation (fold_left (fun acc x => insert_desc lt key x acc) l acc)
               (acc ++ l)%list).
  { induction l as [| x l IH]; intros acc; cbn [fold_left].
    - now rewrite app_nil_r.
    - rewrite IH, insert_desc_perm. apply (Permutation_middle acc l x). }
  apply (H []).
Qed.

Lemma firstn_In {A} n (l : list A) x : In x (firstn n l) -> In x l.
Proof.
  revert l. induction n as [| n IH]; intros [| y l] H; cbn in *; try tauto.
  destruct H as [-> | H]; auto.
Qed.

(** The first three of a reordering of [l]. *)
Lemma first_three {A} (l l' : list A) :
  Permutation l' l ->
  List.length (firstn 3 l') = Nat.min 3 (List.length l)
  /\ forall c, In c (firstn 3 l') -> In c l.
Proof.
  intros Hp. split.
  - rewrite length_firstn, (Permutation_length Hp). reflexivity.
  - intros c Hc. eapply Permutation_in; [exact Hp |]. eapply firstn_In, Hc.
Qed.

(** The options that [get_model_recommendations] keeps for a budget. *)
Definition affordable (budget : option Q) (all : list cost_info) : list cost_info :=
  match budget with
  | Some b =>
      if Qeq_bool b 0 then all
      else filter (fun c => Qle_bool (total_cost_of c) b) all
  | None => all
  end.

(** X: [get_model_recommendations].  For a duration that is a number and any
    preference, at most three entries of [compare_models] are recommended:
    three, or all the options if there are fewer.  With a budget limit other
    than 0 the options are the entries that cost at most the limit, and every
    recommendation is one of them; a limit of 0 is read as no limit, and all
    the models are options.  A duration that is not a number raises
    [TypeError]. *)
Theorem recommendations_within_budget (duration : pyval) (budget : option Q)
  (preference : string) :
  match as_number duration with
  | None => get_model_recommendations duration budget preference = raise TypeError
  | Some x =>
      exists rec all,
        get_model_recommendations duration budget preference = ret rec
        /\ compare_models duration = ret all
        /\ total_options rec = List.length (affordable budget all)
        /\ List.length (recommendations rec) = Nat.min 3 (total_options rec)
        /\ (forall c, In c (recommendations rec) -> In c all)
        /\ match budget with
           | Some b =>
               if Qeq_bool b 0
               then total_options rec = List.length all
               else forall c, In c (recommendations rec) -> (total_cost_of c <= b)%Q
           | None => total_options rec = List.length all
           end
  end.
Proof.
  destruct (as_number duration) as [x |] eqn:Hx.
  - destruct (compare_models_returns duration x Hx) as (all & Hall).
    unfold get_model_recommendations. rewrite Hall.
    unfold bind, ret. cbv beta iota zeta. fold (affordable budget all).
    assert (Hin : forall c, In c (affordable budget all) -> In c all).
    { intros c. unfold affordable. destruct budget as [b |]; [| auto].
      destruct (Qeq_bool b 0); [auto |]. intros H. apply filter_In in H. tauto. }
    assert (Hb : forall recs,
               (forall c, In c recs -> In c (affordable budget all)) ->
               match budget with
               | Some b =>
                   if Qeq_bool b 0
                   then List.length (affordable budget all) = List.length all
                   else forall c, In c recs -> (total_cost_of c <= b)%Q
               | None => List.length (affordable budget all) = List.length all
               end).
    { intros recs Hr. unfold affordable in *. destruct budget as [b |]; [| reflexivity].
      destruct (Qeq_bool b 0); [reflexivity |].
      intros c Hc. apply Hr, filter_In in Hc. apply Qle_bool_iff. tauto. }
    destruct (preference =? "budget")%string;
      [| destruct (preference =? "premium")%string];
      match goal with
      | |- context [firstn 3 ?s] =>
          assert (Hp : Permutation s (affordable budget all))
            by (apply sort_by_perm || apply sort_desc_perm);
          destruct (first_three _ _ Hp) as [Hlen Hsub]
      end;
      unfold ret; do 2 eexists; (split; [reflexivity |]);
      cbn [recommendations total_options];
      (split; [reflexivity |]); (split; [reflexivity |]);
      (split; [exact Hlen |]); (split; [auto |]); apply Hb; exact Hsub.
  - unfold get_model_recommendations.
    rewrite (compare_models_raises duration Hx). reflexivity.
Qed.

(** ** Budget tracking *)




Definition total (l : list Q) : Q := fold_right Qplus 0%Q l.








(** ** Budget status *)

Lemma Qle_bool_false (a b : Q) : Qle_bool a b = false <-> (b < a)%Q.
Proof.
  split.
  - intros H. apply Qnot_le_lt. intros Hle. apply Qle_bool_iff in Hle. congruence.
  - intros H. destruct (Qle_bool a b) eqn:E; [| reflexivity].
    apply Qle_bool_iff in E. exfalso. exact (Qlt_not_le _ _ H E).
Qed.

(** The usage is at least 100 percent exactly when the spending has reached
    the budget. *)
Lemma usage_full (s m : Q) :
  (0 < m)%Q -> ((100 <= s / m * 100)%Q <-> (m <= s)%Q).
Proof.
  intros Hm.
  assert (Hne : ~ (m == 0)%Q) by (intros E; rewrite E in Hm; discriminate Hm).
  split; intros H.
  - apply (Qmult_le_r _ _ (100 / m)%Q).
    + apply Qlt_shift_div_l; [exact Hm |]. rewrite Qmult_0_l. reflexivity.
    + setoid_replace (m * (100 / m))%Q with 100%Q by (field; exact Hne).
      setoid_replace (s * (100 / m))%Q with (s / m * 100)%Q by (field; exact Hne).
      exact H.
  - setoid_replace (s / m * 100)%Q with (s * (100 / m))%Q by (field; exact Hne).
    setoid_replace 100%Q with (m * (100 / m))%Q at 1 by (field; exact Hne).
    apply Qmult_le_compat_r; [exact H |].
    apply Qlt_le_weak, Qlt_shift_div_l; [exact Hm |]. rewrite Qmult_0_l. reflexivity.
Qed.

(** X: [get_budget_status].  Without a positive monthly budget there is no
    remaining budget, the usage is 0 and the status is "Well Under Budget",
    whatever was spent.  With a positive budget nothing is divided by zero,
    the remaining budget is never negative, and it is 0 exactly when the
    status is "Over Budget", that is when the spending of the month has
    reached the budget.  In a month other than that of the last reset the
    spending reported is 0. *)
Theorem budget_status_consistent (current_month : string) (b : Budget.t) :
  let s := Budget.get_budget_status current_month b in
  (Budget.last_reset b <> current_month -> Budget.current_spending s = 0%Q)
  /\ (Budget.spending_entries_this_month s
      <= List.length (Budget.spending_history b))%nat
  /\ match Budget.remaining_budget s with
     | None =>
         ~ (0 < Budget.monthly_budget b)%Q
         /\ Budget.usage_percentage s = 0%Q
         /\ Budget.message (Budget.budget_status s) = "Well Under Budget"
     | Some rest =>
         (0 < Budget.monthly_budget b)%Q
         /\ (0 <= rest)%Q
         /\ ((rest == 0)%Q
             <-> Budget.message (Budget.budget_status s) = "Over Budget")
         /\ (Budget.message (Budget.budget_status s) = "Over Budget"
             <-> (Budget.monthly_budget b <= Budget.current_spending s)%Q)
     end.
Proof.
  cbv zeta. unfold Budget.get_budget_status.
  cbn [Budget.current_spending Budget.spending_entries_this_month
         Budget.remaining_budget Budget.usage_percentage Budget.budget_status].
  split.
  { intros Hne. destruct (String.eqb_spec (Budget.last_reset b) current_month);
      [contradiction | reflexivity]. }
  split; [apply filter_length_le |].
  set (spent := if negb (Budget.last_reset b =? current_month)%string
                then 0%Q else Budget.current_month_spending b).
  destruct (Qlt_bool 0 (Budget.monthly_budget b)) eqn:Hb.
  - apply Qlt_bool_iff in Hb.
    pose proof (usage_full spent _ Hb) as Hfull.
    assert (Hmsg : Budget.message
                     (Budget._get_budget_status_message
                        (spent / Budget.monthly_budget b * 100)) = "Over Budget"
                   <-> (Budget.monthly_budget b <= spent)%Q).
    { rewrite <- Hfull. unfold Budget._get_budget_status_message.
      destruct (Qle_bool 100 _) eqn:E1.
      - apply Qle_bool_iff in E1. cbn. tauto.
      - assert (Hn : ~ (100 <= spent / Budget.monthly_budget b * 100)%Q).
        { intros Hle. apply Qle_bool_iff in Hle. congruence. }
        destruct (Qle_bool 90 _); [cbn; split; [discriminate | tauto] |].
        destruct (Qle_bool 75 _); [cbn; split; [discriminate | tauto] |].
        destruct (Qle_bool 50 _); cbn; split; (discriminate || tauto). }
    split; [exact Hb |].
    destruct (Qlt_bool 0 (Budget.monthly_budget b - spent)) eqn:El.
    + apply Qlt_bool_iff in El. split; [apply Qlt_le_weak; exact El |].
      split; [| exact Hmsg]. rewrite Hmsg. split.
      * intros E0. rewrite E0 in El. discriminate El.
      * intros Hle. exfalso. apply (Qlt_not_le _ _ El).
        apply (Qplus_le_l _ _ spent). ring_simplify. exact Hle.
    + split; [apply Qle_refl |]. split; [| exact Hmsg]. rewrite Hmsg.
      split; [| reflexivity]. intros _.
      assert (Hle : (Budget.monthly_budget b - spent <= 0)%Q).
      { apply Qnot_lt_le. intros Hlt. apply Qlt_bool_iff in Hlt. congruence. }
      apply (Qplus_le_l _ _ spent) in Hle. ring_simplify in Hle. exact Hle.
  - split; [| split; reflexivity].
    intros Hlt. apply Qlt_bool_iff in Hlt. congruence.
Qed.

Lemma total_cons (x : Q) (l : list Q) : total (x :: l) = (x + total l)%Q.
Proof. reflexivity. Qed.

Lemma total_set_add (k : string) (c : Q) (d : list (string * Q)) :
  (total (map snd (Py.set k (get_default k 0%Q d + c)%Q d))
   == total (map snd d) + c)%Q.
Proof.
  unfold get_default. induction d as [| [k' v'] d IH]; cbn [Py.set get].
  - cbn. ring.
  - destruct (k' =? k)%string; cbn [map snd]; rewrite !total_cons.
    + ring.
    + rewrite IH. ring.
Qed.

Lemma total_add_spending l :
  forall acc,
    (total (map snd (fold_left Budget.add_spending l acc))
     == total (map snd acc) + total (map Budget.cost l))%Q.
Proof.
  induction l as [| e l IH]; intros acc; cbn [fold_left map].
  - change (total []) with 0%Q. ring.
  - rewrite total_cons, IH. unfold Budget.add_spending.
    rewrite total_set_add. ring.
Qed.

Lemma total_perm (l l' : list Q) : Permutation l l' -> (total l == total l')%Q.
Proof.
  induction 1 as [| x l l' _ IH | x y l | l l' l'' _ IH1 _ IH2];
    rewrite ?total_cons.
  - reflexivity.
  - rewrite IH. reflexivity.
  - ring.
  - now rewrite IH1.
Qed.

Lemma keys_set {V} (k : string) (v : V) (d : list (string * V)) :
  map fst (Py.set k v d)
  = if contains k d then map fst d else (map fst d ++ [k])%list.
Proof.
  unfold contains. induction d as [| [k' v'] d IH]; cbn [Py.set get map fst].
  - reflexivity.
  - destruct (String.eqb_spec k' k) as [-> | Hne]; cbn [map fst]; [reflexivity |].
    rewrite IH. destruct (get k d); reflexivity.
Qed.

Lemma get_none_keys {V} (k : string) (d : list (string * V)) :
  get k d = None -> ~ In k (map fst d).
Proof.
  induction d as [| [k' v'] d IH]; cbn [get map fst]; [tauto |].
  destruct (String.eqb_spec k' k) as [-> | Hne]; [discriminate |].
  intros H [E | Hin]; [contradiction | exact (IH H Hin)].
Qed.

Lemma nodup_add_spending l :
  forall acc, NoDup (map fst acc) -> NoDup (map fst (fold_left Budget.add_spending l acc)).
Proof.
  induction l as [| e l IH]; intros acc Hacc; cbn [fold_left]; [exact Hacc |].
  apply IH. unfold Budget.add_spending. rewrite keys_set. unfold contains.
  destruct (get (Budget.model e) acc) eqn:E; [exact Hacc |].
  apply get_none_keys in E.
  apply (Permutation_NoDup (l := Budget.model e :: map fst acc)).
  - apply Permutation_cons_append.
  - constructor; assumption.
Qed.

(** X: the spending by model of [get_budget_status].  Each model appears
    once, and the amounts add up to the cost of the entries of the history
    that belong to the month: what the history no longer holds is not in the
    breakdown, though it is in the spending of the month. *)
Theorem model_spending_adds_up (current_month : string) (b : Budget.t) :
  let s := Budget.get_budget_status current_month b in
  NoDup (map fst (Budget.model_spending s))
  /\ (total (map snd (Budget.model_spending s))
      == total (map Budget.cost
                  (filter (fun e => (Budget.month e =? current_month)%string)
                     (Budget.spending_history b))))%Q.
Proof.
  cbv zeta. unfold Budget.get_budget_status. cbn [Budget.model_spending].
  set (h := filter _ (Budget.spending_history b)).
  pose proof (sort_desc_perm Qlt_bool (fun kv : string * Q => snd kv)
                (fold_left Budget.add_spending h [])) as Hp.
  split.
  - apply (Permutation_NoDup (l := map fst (fold_left Budget.add_spending h []))).
    + symmetry. apply Permutation_map, Hp.
    + apply nodup_add_spending. constructor.
  - rewrite (total_perm _ _ (Permutation_map snd Hp)).
    rewrite total_add_spending. change (total (map snd [])) with 0%Q. ring.
Qed.

(** ** Terminal states *)

(** The statuses of the job objects after a run, in the order of
    creation. *)
Definition statuses_after (events : list event) (s : state) : option (list string) :=
  option_map (fun s' => map status (heap (proc s'))) (run events s).

(** C4 at the two jobs of [Sample.two_jobs] (the cat, created first, and the
    dog, whose task is the first) with one slot.  The dog job completes and
    leaves the semaphore; it is still in the queue, and [remove_job] with its
    id makes it [cancelled].  In another run the cat job is removed while it
    waits for the slot: it is [cancelled], but its task is not, and when the
    slot is free the task starts the job, which becomes [processing] and
    then [completed]. *)
Theorem terminal_status_changes :
  match Sample.two_jobs with
  | Some (p, w) =>
      map id (heap p) = ["job_20240101_120000_000"; "job_20240101_120001_001"]
      /\ match process_batch w p true with
         | Running s0 =>
             let acquire0 := Acquire 0 "2024-01-01T12:01:00" in
             let finish0 := Finish 0 "2024-01-01T12:02:00" (Generated [] []) in
             let remove_dog :=
               Remove "job_20240101_120001_001" "2024-01-01T12:03:00"
                 "2024-01-01T12:03:01" in
             let remove_cat :=
               Remove "job_20240101_120000_000" "2024-01-01T12:01:30"
                 "2024-01-01T12:01:31" in
             let acquire1 := Acquire 1 "2024-01-01T12:02:30" in
             let finish1 := Finish 1 "2024-01-01T12:03:30" (Generated [] []) in
             statuses_after [acquire0; finish0; Leave 0; Leave 0] s0
             = Some ["pending"; "completed"]
             /\ statuses_after [acquire0; finish0; Leave 0; Leave 0; remove_dog] s0
                = Some ["pending"; "cancelled"]
             /\ statuses_after [acquire0; remove_cat] s0
                = Some ["cancelled"; "processing"]
             /\ statuses_after [acquire0; remove_cat; finish0; Leave 0; acquire1] s0
                = Some ["processing"; "completed"]
             /\ statuses_after
                  [acquire0; remove_cat; finish0; Leave 0; acquire1; finish1] s0
                = Some ["completed"; "completed"]
         | _ => False
         end
  | None => False
  end.
Proof. vm_compute. repeat split. Qed.

(** ** Saving is not atomic *)



(** ** Saving and loading, field by field *)

(** [j'] is [j] as loading leaves it: every field is the same, except that
    a job saved while [processing] is [pending] with no start time. *)
Definition same_but_restarted (j j' : BatchJob.t) : Prop :=
  id j' = id j /\ image_path j' = image_path j /\ prompt j' = prompt j
  /\ model j' = model j /\ parameters j' = parameters j
  /\ priority j' = priority j /\ created_at j' = created_at j
  /\ completed_at j' = completed_at j /\ result j' = result j
  /\ error_message j' = error_message j /\ retry_count j' = retry_count j
  /\ max_retries j' = max_retries j /\ estimated_cost j' = estimated_cost j
  /\ output_paths j' = output_paths j
  /\ if (status j =? "processing")%string
     then status j' = "pending" /\ started_at j' = None
     else status j' = status j /\ started_at j' = started_at j.

Lemma same_reset j : same_but_restarted j (reset j).
Proof.
  unfold same_but_restarted, reset.
  destruct (status j =? "processing")%string; cbn; repeat split; reflexivity.
Qed.

Lemma same_map_reset l : Forall2 same_but_restarted l (map reset l).
Proof. induction l as [| j l IH]; constructor; [apply same_reset | exact IH]. Qed.

(** C9, as stated, at the ledger of [Sample.mid_run]: its first job is saved
    [processing] with a start time and is loaded [pending] without one. *)
Lemma saved_processing_job_comes_back_pending :
  let p' := __init__ Sample.clock
              (save "2024-01-01T12:03:00" Sample.mid_run Sample.images) 3 true in
  save_progress Sample.mid_run = true
  /\ option_map id (nth_error (heap p') 0)
     = option_map id (nth_error (heap Sample.mid_run) 0)
  /\ option_map status (nth_error (heap Sample.mid_run) 0) = Some "processing"
  /\ option_map started_at (nth_error (heap Sample.mid_run) 0)
     = Some (Some "2024-01-01T12:01:00")
  /\ option_map status (nth_error (heap p') 0) = Some "pending"
  /\ option_map started_at (nth_error (heap p') 0) = Some None.
Proof. vm_compute. repeat split. Qed.

(** C9, amended.  A ledger saved with [save_progress] on, whose jobs have a
    [created_at] that is not empty and dicts with distinct keys, is loaded by
    a new processor job by job, in the order queue, completed, failed: each
    job has all its fields as saved, except that a job saved [processing]
    comes back [pending] with no start time.  The jobs are filed by status:
    the queue holds those that are not completed, failed or cancelled, and
    the completed and the failed or cancelled jobs, equal to the saved ones,
    are in their lists. *)
Theorem save_load_job_fields (now : string) (clock : nat -> string)
  (p : BatchProcessor.t) (w : fs) (mc : Z) (sp : bool) :
  save_progress p = true ->
  forallb stamped (objects (heap p) (jobs p ++ completed_jobs p ++ failed_jobs p)) = true ->
  forallb wf_job (objects (heap p) (jobs p ++ completed_jobs p ++ failed_jobs p)) = true ->
  let all := objects (heap p) (jobs p ++ completed_jobs p ++ failed_jobs p) in
  let p' := __init__ clock (save now p w) mc sp in
  Forall2 same_but_restarted all (heap p')
  /\ Forall2 same_but_restarted (filter is_queued all) (objects (heap p') (jobs p'))
  /\ objects (heap p') (completed_jobs p') = filter is_completed all
  /\ objects (heap p') (failed_jobs p') = filter is_failed all.
Proof.
  intros Hsave Hst Hwf all p'. subst p'.
  unfold __init__, _load_batch_data.
  destruct (save_content now p w Hsave) as [Hfile _].
  unfold file, fs in *. rewrite Hfile.
  rewrite loads_dumps by now apply wf_ledger.
  unfold ledger_data. fold all.
  cbn [get String.eqb Ascii.eqb Bool.eqb iter_jobs].
  rewrite load_loop_asdict by exact Hst.
  rewrite update_stats_to_dict.
  cbn [heap jobs completed_jobs failed_jobs stats fresh with_stats
         max_concurrent save_progress active_jobs List.app List.length].
  split; [apply same_map_reset |].
  change (map reset all) with ([] ++ map reset all)%list.
  change 0%nat with (@List.length BatchJob.t []).
  rewrite !objects_refs_where.
  split; [apply same_map_reset |]. split.
  - rewrite (reset_not_processing is_completed); [reflexivity |].
    unfold is_completed. intros j E. apply String.eqb_eq in E. now rewrite E.
  - rewrite (reset_not_processing is_failed); [reflexivity |].
    unfold is_failed. intros j E.
    apply orb_prop in E as [E | E]; apply String.eqb_eq in E; now rewrite E.
Qed.

Lemma save_load_job_fields_witness :
  let p' := __init__ Sample.clock
              (save "2024-01-01T12:03:00" Sample.mid_run Sample.images) 3 true in
  Forall2 same_but_restarted
    (objects (heap Sample.mid_run)
       (jobs Sample.mid_run ++ completed_jobs Sample.mid_run
        ++ failed_jobs Sample.mid_run))
    (heap p').
Proof.
  exact (proj1 (save_load_job_fields "2024-01-01T12:03:00" Sample.clock Sample.mid_run
                  Sample.images 3 true eq_refl eq_refl eq_refl)).
Defined.

(** ** Restart recovery *)

(** The entries of a ledger file from which the loop of [_load_batch_data]
    builds the jobs [js], entry [n] at the clock reading [now n]. *)
Fixpoint builds (now : nat -> string) (n : nat) (entries : list pyval)
  (js : list BatchJob.t) : Prop :=
  match entries, js with
  | [], [] => True
  | VDict d :: entries', j :: js' =>
      BatchJob_of_dict (now n) d = Some j /\ builds now (S n) entries' js'
  | _, _ => False
  end.

Lemma load_one_builds now d j p :
  BatchJob_of_dict now d = Some j ->
  load_one now (VDict d) p
  = Some {| max_concurrent := max_concurrent p; save_progress := save_progress p;
            heap := heap p ++ [reset j];
            jobs := jobs p ++ (if is_queued j then [List.length (heap p)] else []);
            completed_jobs :=
              completed_jobs p ++ (if is_completed j then [List.length (heap p)] else []);
            failed_jobs :=
              failed_jobs p ++ (if is_failed j then [List.length (heap p)] else []);
            active_jobs := active_jobs p; stats := stats p |}.
Proof.
  intros Hd. unfold load_one. rewrite Hd.
  cbn [obind]. unfold is_queued, is_completed, is_failed, reset.
  destruct p as [mc sp h js cs fs0 aj st]. cbn.
  destruct (status j =? "completed")%string eqn:Ec; cbn.
  - apply String.eqb_eq in Ec. rewrite Ec. cbn. now rewrite !app_nil_r.
  - destruct ((status j =? "failed") || (status j =? "cancelled"))%string eqn:Ef; cbn.
    + assert (Hp : (status j =? "processing")%string = false).
      { apply orb_prop in Ef as [E | E]; apply String.eqb_eq in E; now rewrite E. }
      rewrite Hp. now rewrite !app_nil_r.
    + now rewrite !app_nil_r.
Qed.

Lemma load_loop_builds now entries :
  forall js p,
    builds now (List.length (heap p)) entries js ->
    load_loop now entries p
    = ({| max_concurrent := max_concurrent p; save_progress := save_progress p;
          heap := heap p ++ map reset js;
          jobs := jobs p ++ refs_where is_queued (List.length (heap p)) js;
          completed_jobs :=
            completed_jobs p ++ refs_where is_completed (List.length (heap p)) js;
          failed_jobs :=
            failed_jobs p ++ refs_where is_failed (List.length (heap p)) js;
          active_jobs := active_jobs p; stats := stats p |}, true).
Proof.
  induction entries as [| e entries IH]; intros js p Hb.
  - destruct js; [| contradiction]. cbn. rewrite !app_nil_r. now destruct p.
  - destruct e as [| | | | | | d]; try contradiction.
    destruct js as [| j js]; [contradiction |]. destruct Hb as [Hd Hb].
    cbn [load_loop]. rewrite (load_one_builds _ _ _ _ Hd).
    rewrite (IH js).
    + cbn [heap jobs completed_jobs failed_jobs
             max_concurrent save_progress active_jobs stats].
      rewrite length_app. cbn [List.length]. rewrite Nat.add_1_r.
      cbn [refs_where map]. now rewrite <- !app_assoc.
    + cbn [heap]. rewrite length_app. cbn [List.length]. now rewrite Nat.add_1_r.
Qed.

Lemma reset_each (queue : list BatchJob.t) js :
  (forall j, In j js -> (status j =? "processing")%string = true ->
     In (reset j) queue) ->
  Forall2 (fun j j' =>
             if (status j =? "processing")%string
             then j' = set_started_at None (set_status "pending" j)
                  /\ status j' = "pending" /\ started_at j' = None
                  /\ In j' queue
             else j' = j)
    js (map reset js).
Proof.
  induction js as [| j js IH]; intros Hq; cbn [map]; constructor.
  - pose proof (Hq j (or_introl eq_refl)) as Hj. unfold reset in *.
    destruct (status j =? "processing")%string; [| reflexivity].
    repeat split. apply Hj. reflexivity.
  - apply IH. intros j0 Hin. apply Hq. now right.
Qed.

(** C5.  Whatever the ledger file holds, if it is a JSON object whose
    [jobs] is a list of entries from which jobs [js] are built, a new
    processor holds these jobs in order, with no other change than this: a
    job found [processing] is [pending] with no start time, and it is in the
    queue.  A job in any other status is loaded as it is.  The queue holds
    the jobs that are not completed, failed or cancelled; the completed and
    the failed or cancelled jobs are in their lists. *)
Theorem processing_reset_on_load (clock : nat -> string) (w : fs) (mc : Z) (sp : bool)
  (content : file) (data : dict) (entries : list pyval) (js : list BatchJob.t) :
  get batch_file w = Some content ->
  Json.loads content = Some (VDict data) ->
  get "jobs" data = Some (VList entries) ->
  builds clock 0 entries js ->
  let p' := __init__ clock w mc sp in
  Forall2 (fun j j' =>
             if (status j =? "processing")%string
             then j' = set_started_at None (set_status "pending" j)
                  /\ status j' = "pending" /\ started_at j' = None
                  /\ In j' (objects (heap p') (jobs p'))
             else j' = j)
    js (heap p')
  /\ objects (heap p') (jobs p')
     = map (fun j => if (status j =? "processing")%string
                     then set_started_at None (set_status "pending" j) else j)
         (filter (fun j => negb (status j =? "completed")%string
                           && negb ((status j =? "failed")
                                    || (status j =? "cancelled"))%string) js)
  /\ objects (heap p') (completed_jobs p')
     = filter (fun j => (status j =? "completed")%string) js
  /\ objects (heap p') (failed_jobs p')
     = filter (fun j => ((status j =? "failed") || (status j =? "cancelled"))%string) js.
Proof.
  intros Hfile Hload Hjobs Hb. cbv zeta.
  assert (Hp : exists st,
             __init__ clock w mc sp
             = {| max_concurrent := mc; save_progress := sp;
                  heap := map reset js;
                  jobs := refs_where is_queued 0 js;
                  completed_jobs := refs_where is_completed 0 js;
                  failed_jobs := refs_where is_failed 0 js;
                  active_jobs := []; stats := st |}).
  { unfold __init__, _load_batch_data. unfold file, fs in *.
    rewrite Hfile, Hload, Hjobs. cbn [iter_jobs].
    rewrite (load_loop_builds clock entries js) by exact Hb.
    cbn [heap jobs completed_jobs failed_jobs stats fresh
           max_concurrent save_progress active_jobs List.app List.length].
    destruct (get "stats" data) as [[| | | | | | d] |]; try (eexists; reflexivity).
    destruct (update_stats d Stats.zero); eexists; reflexivity. }
  destruct Hp as (st & ->).
  cbn [heap jobs completed_jobs failed_jobs].
  change (map reset js) with ([] ++ map reset js)%list.
  change 0%nat with (@List.length BatchJob.t []).
  rewrite !objects_refs_where. cbn [List.app].
  split; [| split; [reflexivity | split]].
  - apply reset_each.
    intros j Hin Hs. apply in_map, filter_In. split; [exact Hin |].
    apply String.eqb_eq in Hs. unfold is_queued, is_completed, is_failed.
    now rewrite Hs.
  - rewrite (reset_not_processing is_completed); [reflexivity |].
    unfold is_completed. intros j E. apply String.eqb_eq in E. now rewrite E.
  - rewrite (reset_not_processing is_failed); [reflexivity |].
    unfold is_failed. intros j E.
    apply orb_prop in E as [E | E]; apply String.eqb_eq in E; now rewrite E.
Qed.

Lemma processing_reset_on_load_witness :
  let p' := __init__ Sample.clock
              (save "2024-01-01T12:03:00" Sample.mid_run Sample.images) 3 true in
  map status (objects (heap p') (jobs p')) = ["pending"; "pending"]
  /\ map started_at (objects (heap p') (jobs p')) = [None; None].
Proof.
  cbv zeta.
  set (all := objects (heap Sample.mid_run)
                (jobs Sample.mid_run ++ completed_jobs Sample.mid_run
                 ++ failed_jobs Sample.mid_run)).
  assert (H1 : get batch_file (save "2024-01-01T12:03:00" Sample.mid_run Sample.images)
               = Some (Json.dumps (ledger_data "2024-01-01T12:03:00" Sample.mid_run)))
    by (vm_compute; reflexivity).
  assert (H2 : Json.loads (Json.dumps (ledger_data "2024-01-01T12:03:00" Sample.mid_run))
               = Some (VDict
                         [ ("jobs", VList (map (fun j => VDict (asdict j)) all));
                           ("stats", VDict (Stats.to_dict (stats Sample.mid_run)));
                           ("last_updated", VStr "2024-01-01T12:03:00") ]))
    by (vm_compute; reflexivity).
  assert (H4 : builds Sample.clock 0 (map (fun j => VDict (asdict j)) all) all)
    by (vm_compute; repeat split).
  destruct (processing_reset_on_load Sample.clock _ 3 true _ _ _ all H1 H2 eq_refl H4)
    as (_ & H & _).
  rewrite H. vm_compute. split; reflexivity.
Defined.

(** ** The concurrency limit *)








